(** * btb: executable discovery and shim generation for toolbox containers

    A shallow embedding of [cmd/root.go].  Go strings are byte sequences and
    are modelled by [string]; slices by [list] with stdpp's lookup and insert;
    the Go map [exeMap] by [gmap string string]; [log.Fatal] and run-time
    panics by an explicit outcome type threaded with the process state. *)

From Stdlib Require Import ZArith Ascii String List Lia Bool.
From stdpp Require Import base list strings gmap.

#[local] Arguments String.append !s1 s2 : simpl nomatch.

(** ** Slices of strings *)

(** [arr[i], arr[j] = arr[j], arr[i]].  Both elements are read before either
    is written; an index outside the slice is a run-time panic ([None]). *)
Definition swap (arr : list string) (i j : nat) : option (list string) :=
  match arr !! j, arr !! i with
  | Some aj, Some ai => Some (<[j := ai]> (<[i := aj]> arr))
  | _, _ => None
  end.

(** The body of [for i := ...; i < midPoint; i++], [steps] iterations left. *)
Fixpoint reverseLoop (size steps i : nat) (arr : list string)
  : option (list string) :=
  match steps with
  | O => Some arr
  | S k =>
      match swap arr i (size - 1 - i) with
      | Some arr' => reverseLoop size k (S i) arr'
      | None => None
      end
  end.

Definition inPlaceReverse (arr : list string) : option (list string) :=
  let size := length arr in
  let midPoint := size / 2 in
  reverseLoop size midPoint 0 arr.

(** What the slice holds at index [k] once the positions [lo .. hi-1] and
    their mirror images have been exchanged. *)
Definition mirrored (size lo hi : nat) (arr : list string) (k : nat)
  : option string :=
  if decide ((lo <= k < hi) \/ (size - hi <= k < size - lo))
  then arr !! (size - 1 - k) else arr !! k.

(** ** Go strings *)

(** The last byte of a string, if it has one. *)
Fixpoint lastByte (s : string) : option ascii :=
  match s with
  | "" => None
  | String c "" => Some c
  | String _ r => lastByte r
  end.

Definition byte_of (n : nat) : ascii := ascii_of_nat n.
Definition NUL : ascii := byte_of 0.
Definition LF : ascii := byte_of 10.
Definition nl : string := String LF "".

Module strings.

(** [strings.HasPrefix]. *)
Fixpoint HasPrefix (s prefix : string) : bool :=
  match prefix, s with
  | "", _ => true
  | String _ _, "" => false
  | String p prefix', String c s' => Ascii.eqb c p && HasPrefix s' prefix'
  end.

(** [strings.Contains]: [substr] occurs at some offset of [s]. *)
Fixpoint Contains (s substr : string) : bool :=
  HasPrefix s substr ||
  match s with
  | "" => false
  | String _ s' => Contains s' substr
  end.

(** [strings.Repeat] of a single byte; [make([]byte, n)] is [Repeat NUL n]. *)
Fixpoint Repeat (c : ascii) (n : nat) : string :=
  match n with
  | O => ""
  | S k => String c (Repeat c k)
  end.

(** [strings.Join]. *)
Fixpoint Join (elems : list string) (sep : string) : string :=
  match elems with
  | [] => ""
  | [x] => x
  | x :: rest => x +:+ sep +:+ Join rest sep
  end.

(** [strings.Split] with a one-byte separator. *)
Fixpoint Split (s : string) (sep : ascii) : list string :=
  match s with
  | "" => [""]
  | String c r =>
      if Ascii.eqb c sep then "" :: Split r sep
      else match Split r sep with
           | h :: t => String c h :: t
           | [] => [String c ""]
           end
  end.

(** [strings.ToLower] on ASCII letters; other bytes are kept. *)
Definition lowerByte (c : ascii) : ascii :=
  let n := nat_of_ascii c in
  if (65 <=? n) && (n <=? 90) then byte_of (n + 32) else c.

Fixpoint ToLower (s : string) : string :=
  match s with
  | "" => ""
  | String c r => String (lowerByte c) (ToLower r)
  end.

(** White space as [unicode.IsSpace] has it, by UTF-8 encoding length. *)
Definition isSpace1 (a : nat) : bool :=
  (9 <=? a) && (a <=? 13) || (a =? 32).

Definition isSpace2 (a b : nat) : bool :=
  (a =? 194) && ((b =? 133) || (b =? 160)).

Definition isSpace3 (a b c : nat) : bool :=
  (a =? 225) && (b =? 154) && (c =? 128)
  || (a =? 226) && (b =? 128) &&
     ((128 <=? c) && (c <=? 138) || (c =? 168) || (c =? 169) || (c =? 175))
  || (a =? 226) && (b =? 129) && (c =? 159)
  || (a =? 227) && (b =? 128) && (c =? 128).

(** Drop leading white space.  With [back] the string is read backwards
    (it has been reversed), so the bytes of a rune arrive last one first. *)
Fixpoint trimLeading (back : bool) (s : string) : string :=
  match s with
  | "" => ""
  | String c1 r1 =>
      let n1 := nat_of_ascii c1 in
      if isSpace1 n1 then trimLeading back r1
      else match r1 with
           | "" => s
           | String c2 r2 =>
               let n2 := nat_of_ascii c2 in
               if (if back then isSpace2 n2 n1 else isSpace2 n1 n2)
               then trimLeading back r2
               else match r2 with
                    | "" => s
                    | String c3 r3 =>
                        let n3 := nat_of_ascii c3 in
                        if (if back then isSpace3 n3 n2 n1
                            else isSpace3 n1 n2 n3)
                        then trimLeading back r3
                        else s
                    end
           end
  end.

Fixpoint revString (s acc : string) : string :=
  match s with
  | "" => acc
  | String c r => revString r (String c acc)
  end.

(** [strings.TrimSpace]. *)
Definition TrimSpace (s : string) : string :=
  revString (trimLeading true (revString (trimLeading false s) "")) "".

End strings.
Import strings.

(** [fmt.Sprintf] for formats whose only verb is [%s]. *)
Fixpoint Sprintf (format : string) (a : list string) : string :=
  match format with
  | "" => ""
  | String c rest =>
      match rest with
      | String v rest' =>
          if Ascii.eqb c "%"%char && Ascii.eqb v "s"%char then
            match a with
            | x :: a' => x +:+ Sprintf rest' a'
            | [] => "%!s(MISSING)" +:+ Sprintf rest' []
            end
          else String c (Sprintf rest a)
      | "" => String c ""
      end
  end.

(** [strconv.ParseUint(s, 10, 32)]: decimal digits only, at least one, and a
    value that fits 32 bits; anything else is an error. *)
Definition digitOf (c : ascii) : option Z :=
  let n := nat_of_ascii c in
  if (48 <=? n) && (n <=? 57) then Some (Z.of_nat n - 48)%Z else None.

Fixpoint parseDigits (acc : Z) (s : string) : option Z :=
  match s with
  | "" => Some acc
  | String c r =>
      match digitOf c with
      | Some d => parseDigits (10 * acc + d)%Z r
      | None => None
      end
  end.

Definition ParseUint32 (s : string) : option Z :=
  match s with
  | "" => None
  | _ => match parseDigits 0 s with
         | Some n => if (n <? 2 ^ 32)%Z then Some n else None
         | None => None
         end
  end.

(** ** Process outcomes *)

(** The errors the program can meet; [log.Fatal] ends the process with one of
    them or with a message of its own. *)
Inductive error :=
| ENOENT | ENOTDIR | EEXIST | EISDIR | EINVAL
| EOF | ErrSyntax | ErrUser
| ErrMessage (msg : string).

(** How a piece of the program ends: it returns a value, it calls
    [log.Fatal] (the process exits), or it panics. *)
Inductive outcome (A : Type) :=
| Done (a : A)
| Fatal (e : error)
| Panic.
Arguments Done {A} a.
Arguments Fatal {A} e.
Arguments Panic {A}.

(** ** Permission classifier *)

Module user.
(** [os/user.User]: on POSIX systems [Uid] and [Gid] are decimal strings. *)
Record User := { Uid : string; Gid : string }.
End user.

Module syscall.
(** The two fields of [syscall.Stat_t] the program reads, both [uint32]. *)
Record Stat_t := { Uid : Z; Gid : Z }.
End syscall.

(** The value behind the [any] that [FileInfo.Sys()] returns, by dynamic
    type.  Package [os] stores a pointer, [*syscall.Stat_t], on Unix; the
    type assertion [info.Sys().(syscall.Stat_t)] holds for the value type
    only. *)
Inductive SysValue :=
| SysStat (st : syscall.Stat_t)
| SysStatPtr (st : syscall.Stat_t)
| SysNil.

(** [fs.FileMode]: the low nine bits are the Unix permission bits and bit 31
    ([fs.ModeDir]) marks a directory. *)
Definition ModeDir : Z := 2 ^ 31.
Definition ModePerm : Z := 511.

Record FileInfo := { Name : string; Mode : Z; Sys : SysValue }.

Definition IsDir (info : FileInfo) : bool :=
  negb (Z.land (Mode info) ModeDir =? 0)%Z.

Definition S_IXUSR : Z := 64. (* 0100 *)
Definition S_IXGRP : Z := 8.  (* 0010 *)
Definition S_IXOTH : Z := 1.  (* 0001 *)

Definition uint32 (n : Z) : Z := (n mod 2 ^ 32)%Z.

Definition canExecute (userInfo : user.User) (info : FileInfo) : outcome bool :=
  let mode := Mode info in
  if negb (Z.land S_IXOTH mode =? 0)%Z then Done true
  else
    match Sys info with
    | SysStat unixInfo =>
        match ParseUint32 (user.Gid userInfo) with
        | None => Fatal ErrSyntax
        | Some userGid =>
            if negb (Z.land S_IXGRP mode =? 0)%Z
               && (syscall.Gid unixInfo =? uint32 userGid)%Z
            then Done true
            else
              match ParseUint32 (user.Uid userInfo) with
              | None => Fatal ErrSyntax
              | Some userId =>
                  if negb (Z.land S_IXUSR mode =? 0)%Z
                     && (syscall.Uid unixInfo =? uint32 userId)%Z
                  then Done true
                  else Done false
              end
        end
    | _ => Done false
    end.

(** ** Host side: the self-invocation line and the downstream relay *)

Record Args := {
  BinPath : string;
  Prefix : string;
  Container : string;
  InContainer : bool
}.

Definition sentinel : string := "<<<Done>>>".

Definition execProgram (currentExePath : string) (args : Args) : string :=
  let inContainer := "true" in
  let programArgs :=
    [currentExePath;
     "--binpath"; BinPath args;
     "--prefix"; Prefix args;
     "--container"; Container args;
     "--in-container"; inContainer] in
  Join (programArgs ++ [nl]) " ".

(** The two streams the downstream goroutine writes to. *)
Record Streams := { sessionStdin : string; ownStdout : string }.

Inductive ReadResult :=
| ReadBytes (chunk : string)   (* [i = len chunk], [err == nil] *)
| ReadError (e : error).

Inductive GoroutineEnd :=
| Returned                      (* [return] after the sentinel *)
| Exited (e : error)            (* [log.Fatal] *)
| Reading.                      (* blocked in [stdout.Read] *)

Definition bufferSize : nat := 4096.

(** The downstream goroutine over the reads it is served.  Every round
    allocates a zeroed buffer of [bufferSize] bytes; [Read] fills its first
    [i] bytes and the tests and the print use the whole buffer. *)
Fixpoint downstream (execProgram : string) (reads : list ReadResult)
    (st : Streams) : GoroutineEnd * Streams :=
  match reads with
  | [] => (Reading, st)
  | ReadError e :: _ => (Exited e, st)
  | ReadBytes chunk :: rest =>
      let i := String.length chunk in
      let data := chunk +:+ Repeat NUL (bufferSize - i) in
      if (i =? 0)%nat then downstream execProgram rest st
      else if Contains data sentinel then
        (Returned,
         {| sessionStdin := sessionStdin st +:+ "exit" +:+ nl;
            ownStdout := ownStdout st |})
      else if Contains data execProgram then
        downstream execProgram rest st
      else
        downstream execProgram rest
          {| sessionStdin := sessionStdin st;
             ownStdout := ownStdout st +:+ data |}
  end.

(** A host-side invocation used in the examples. *)
Definition demoExe : string := "/usr/local/bin/btb".

Definition demoArgs : Args :=
  {| BinPath := "/home/u/bin"; Prefix := "f35";
     Container := "fedora-toolbox-35"; InContainer := false |}.

(** The echo of the self-invocation line behind a shell prompt. *)
Definition echoChunk : string := "% " +:+ execProgram demoExe demoArgs.

Definition emptyStreams : Streams := {| sessionStdin := ""; ownStdout := "" |}.

(** ** Package [path/filepath] (Unix) *)

Module filepath.

Definition Separator : ascii := "/"%char.

Definition nonEmpty (s : string) : bool := negb (String.eqb s "").

Definition IsAbs (path : string) : bool := HasPrefix path "/".

(** The elements of a path: what stands between its separators. *)
Definition elements (path : string) : list string :=
  filter (fun c => nonEmpty c = true) (Split path Separator).

(** [filepath.Base]: the last element of the path; ["."] for the empty path
    and ["/"] for a path of separators only. *)
Definition Base (path : string) : string :=
  if String.eqb path "" then "."
  else match last (elements path) with
       | Some c => c
       | None => "/"
       end.

(** One step of [Clean] over the elements kept so far: ["."] is dropped,
    [".."] removes the element before it when there is one to remove, is
    dropped at the root and is kept at the head of a relative path. *)
Definition cleanStep (rooted : bool) (kept : list string) (c : string)
  : list string :=
  if String.eqb c "." then kept
  else if String.eqb c ".." then
    match last kept with
    | Some p => if String.eqb p ".." then kept ++ [c] else removelast kept
    | None => if rooted then kept else kept ++ [c]
    end
  else kept ++ [c].

Definition render (rooted : bool) (kept : list string) : string :=
  if rooted then "/" +:+ strings.Join kept "/"
  else match kept with
       | [] => "."
       | _ => strings.Join kept "/"
       end.

(** [filepath.Clean]. *)
Definition Clean (path : string) : string :=
  if String.eqb path "" then "."
  else render (IsAbs path)
         (fold_left (cleanStep (IsAbs path)) (elements path) []).

(** [filepath.Join]: the empty leading elements are ignored, the rest is
    joined with separators and cleaned. *)
Fixpoint Join (elem : list string) : string :=
  match elem with
  | [] => ""
  | e :: rest =>
      if String.eqb e "" then Join rest
      else Clean (strings.Join elem "/")
  end.

End filepath.

(** ** The file system

    A tree of directories and files without symbolic links.  Permission
    checks of the kernel are not modelled: an operation fails only when the
    tree itself rules it out.  A directory lists its entries in the order
    [os.ReadDir] reports them (sorted by name); created entries are inserted
    at their sorted position. *)

Record Meta := { perm : Z; owner : syscall.Stat_t }.

#[local] Set Warnings "-register-all".

Inductive node :=
| File (meta : Meta) (contents : string)
| Dir (meta : Meta) (entries : list (string * node)).

Definition nodeMeta (n : node) : Meta :=
  match n with File m _ => m | Dir m _ => m end.

Fixpoint lookupEntry (name : string) (es : list (string * node))
  : option node :=
  match es with
  | [] => None
  | (k, v) :: rest => if String.eqb k name then Some v else lookupEntry name rest
  end.

(** The node a location (the names from the root down) leads to. *)
Fixpoint nodeAt (n : node) (loc : list string) : option node :=
  match loc with
  | [] => Some n
  | c :: loc' =>
      match n with
      | Dir _ es =>
          match lookupEntry c es with
          | Some ch => nodeAt ch loc'
          | None => None
          end
      | File _ _ => None
      end
  end.

Fixpoint replaceEntry (name : string) (new : node)
    (es : list (string * node)) : list (string * node) :=
  match es with
  | [] => []
  | (k, v) :: rest =>
      if String.eqb k name then (k, new) :: rest
      else (k, v) :: replaceEntry name new rest
  end.

Fixpoint insertSorted (name : string) (new : node)
    (es : list (string * node)) : list (string * node) :=
  match es with
  | [] => [(name, new)]
  | (k, v) :: rest =>
      if String.ltb name k then (name, new) :: (k, v) :: rest
      else (k, v) :: insertSorted name new rest
  end.

(** Set ([Some]) or remove ([None]) the entry of a name. *)
Definition setEntry (name : string) (new : option node)
    (es : list (string * node)) : list (string * node) :=
  match new with
  | None => filter (fun kv => negb (String.eqb (fst kv) name) = true) es
  | Some n =>
      match lookupEntry name es with
      | Some _ => replaceEntry name n es
      | None => insertSorted name n es
      end
  end.

(** Set or remove the node at a location below [n]; the directories on the
    way must exist. *)
Fixpoint setAt (loc : list string) (new : option node) (n : node) : node :=
  match loc, n with
  | [], _ => n
  | [name], Dir m es => Dir m (setEntry name new es)
  | name :: loc', Dir m es =>
      match lookupEntry name es with
      | Some ch => Dir m (setEntry name (Some (setAt loc' new ch)) es)
      | None => n
      end
  | _, File _ _ => n
  end.

(** The file system as the process sees it. *)
Record FS := {
  rootMeta : Meta;
  rootEntries : list (string * node);
  cwd : list string;               (* working directory, as a location *)
  umask : Z;
  procOwner : syscall.Stat_t       (* owner given to created files *)
}.

Definition root (f : FS) : node := Dir (rootMeta f) (rootEntries f).

Definition withRoot (f : FS) (n : node) : FS :=
  {| rootMeta := nodeMeta n;
     rootEntries := match n with Dir _ es => es | File _ _ => [] end;
     cwd := cwd f; umask := umask f; procOwner := procOwner f |}.

(** Set or remove the node at a location. *)
Definition update (f : FS) (loc : list string) (new : option node) : FS :=
  withRoot f (setAt loc new (root f)).

(** The state of the process and its surroundings. *)
Record World := {
  fs : FS;
  environPATH : option string;     (* the PATH variable, if set *)
  currentUser : option user.User;  (* [user.Current()], if it succeeds *)
  executable : option string;      (* [os.Executable] with links resolved *)
  stdinLines : list string;        (* the lines on standard input *)
  stdout : string                  (* what was printed so far *)
}.

Definition withFS (w : World) (f : FS) : World :=
  {| fs := f;
     environPATH := environPATH w; currentUser := currentUser w;
     executable := executable w; stdinLines := stdinLines w;
     stdout := stdout w |}.

Definition withStdin (w : World) (lines : list string) : World :=
  {| fs := fs w;
     environPATH := environPATH w; currentUser := currentUser w;
     executable := executable w; stdinLines := lines;
     stdout := stdout w |}.

Definition withStdout (w : World) (out : string) : World :=
  {| fs := fs w;
     environPATH := environPATH w; currentUser := currentUser w;
     executable := executable w; stdinLines := stdinLines w;
     stdout := out |}.

(** *** Path resolution *)

(** Follow path elements from the location [cur], as the kernel does: every
    element is looked up in the directory reached so far. *)
Fixpoint descend (rt : node) (cur : list string) (comps : list string)
  : error + list string :=
  match comps with
  | [] => inr cur
  | c :: rest =>
      match nodeAt rt cur with
      | Some (Dir _ es) =>
          if String.eqb c "." then descend rt cur rest
          else if String.eqb c ".." then descend rt (removelast cur) rest
          else match lookupEntry c es with
               | Some _ => descend rt (cur ++ [c]) rest
               | None => inl ENOENT
               end
      | Some (File _ _) => inl ENOTDIR
      | None => inl ENOENT
      end
  end.

(** What a path names: an existing node, a name that is free in an existing
    directory, or nothing that can be reached. *)
Inductive target :=
| Existing (loc : list string)
| Missing (parent : list string) (name : string)
| Unreachable (e : error).

Definition endsWithSlash (path : string) : bool :=
  match lastByte path with
  | Some c => Ascii.eqb c "/"%char
  | None => false
  end.

Definition locate (f : FS) (path : string) : target :=
  if String.eqb path "" then Unreachable ENOENT
  else
    let start := if filepath.IsAbs path then [] else cwd f in
    let els := filepath.elements path in
    match last els with
    | None => Existing start
    | Some name =>
        match descend (root f) start (removelast els) with
        | inl e => Unreachable e
        | inr ploc =>
            match nodeAt (root f) ploc with
            | Some (Dir _ es) =>
                if String.eqb name "." then Existing ploc
                else if String.eqb name ".." then Existing (removelast ploc)
                else match lookupEntry name es with
                     | Some (Dir _ _) => Existing (ploc ++ [name])
                     | Some (File _ _) =>
                         if endsWithSlash path then Unreachable ENOTDIR
                         else Existing (ploc ++ [name])
                     | None => Missing ploc name
                     end
            | Some (File _ _) => Unreachable ENOTDIR
            | None => Unreachable ENOENT
            end
        end
    end.

(** ** Package [os] *)

Module os.

Definition Getenv_PATH (w : World) : string :=
  match environPATH w with
  | Some v => v
  | None => ""
  end.

Definition infoOf (name : string) (n : node) : FileInfo :=
  {| Name := name;
     Mode := match n with
             | Dir m _ => Z.lor ModeDir (Z.land (perm m) ModePerm)
             | File m _ => Z.land (perm m) ModePerm
             end;
     Sys := SysStatPtr (owner (nodeMeta n)) |}.

Definition lookup (f : FS) (path : string) : error + node :=
  match locate f path with
  | Existing loc =>
      match nodeAt (root f) loc with
      | Some n => inr n
      | None => inl ENOENT
      end
  | Missing _ _ => inl ENOENT
  | Unreachable e => inl e
  end.

(** [os.Stat] and [os.Lstat] agree: there are no links to follow. *)
Definition Stat (f : FS) (path : string) : error + FileInfo :=
  match lookup f path with
  | inr n => inr (infoOf (filepath.Base path) n)
  | inl e => inl e
  end.

Definition Lstat := Stat.

Definition endsWithDot (path : string) : bool :=
  match last (Split path filepath.Separator) with
  | Some c => String.eqb c "." || String.eqb c ".."
  | None => false
  end.

(** [os.RemoveAll]: nothing to do for the empty path and for a path that
    names nothing.  A failed call is modelled without partial deletions. *)
Definition RemoveAll (f : FS) (path : string) : option error * FS :=
  if String.eqb path "" then (None, f)
  else if endsWithDot path then (Some EINVAL, f)
  else match locate f path with
       | Existing [] => (Some EINVAL, f)
       | Existing loc => (None, update f loc None)
       | Missing _ _ => (None, f)
       | Unreachable ENOENT => (None, f)
       | Unreachable e => (Some e, f)
       end.

(** The permission bits a created entry gets. *)
Definition createdPerm (f : FS) (mode : Z) : Z :=
  Z.land (Z.land mode ModePerm) (Z.lnot (umask f)).

Definition Mkdir (f : FS) (path : string) (mode : Z)
  : option error * FS :=
  match locate f path with
  | Missing ploc name =>
      let d := Dir {| perm := createdPerm f mode; owner := procOwner f |} [] in
      (None, update f (ploc ++ [name]) (Some d))
  | Existing _ => (Some EEXIST, f)
  | Unreachable e => (Some e, f)
  end.

(** [os.OpenFile] with [O_CREATE], with or without [O_WRONLY]: the file is
    created empty when it is missing and opened as it is otherwise.  The open
    file is identified by its location. *)
Definition OpenFile (f : FS) (path : string) (mode : Z)
  : (error + list string) * FS :=
  match locate f path with
  | Missing ploc name =>
      let new := File {| perm := createdPerm f mode; owner := procOwner f |} "" in
      (inr (ploc ++ [name]), update f (ploc ++ [name]) (Some new))
  | Existing loc =>
      match nodeAt (root f) loc with
      | Some (File _ _) => (inr loc, f)
      | _ => (inl EISDIR, f)
      end
  | Unreachable e => (inl e, f)
  end.

Fixpoint dropBytes (n : nat) (s : string) : string :=
  match n, s with
  | O, _ => s
  | S k, String _ r => dropBytes k r
  | S _, "" => ""
  end.

(** [File.WriteString] on a file just opened without [O_TRUNC] and without
    [O_APPEND]: the bytes go to offset 0 and what lies behind them stays. *)
Definition WriteString (f : FS) (file : list string) (s : string)
  : option error * FS :=
  match nodeAt (root f) file with
  | Some (File m old) =>
      let new := File m (s +:+ dropBytes (String.length s) old) in
      (None, update f file (Some new))
  | _ => (Some EINVAL, f)
  end.

End os.

(** ** The process monad: state passing with early exit *)

Definition M (A : Type) : Type := World -> outcome A * World.

Definition ret {A} (a : A) : M A := fun w => (Done a, w).

Definition bind {A B} (m : M A) (k : A -> M B) : M B :=
  fun w =>
    match m w with
    | (Done a, w') => k a w'
    | (Fatal e, w') => (Fatal e, w')
    | (Panic, w') => (Panic, w')
    end.

Notation "x <- m ;; k" := (bind m (fun x => k))
  (at level 100, m at next level, right associativity).
Notation "m ;;; k" := (bind m (fun _ => k))
  (at level 100, right associativity).

(** [log.Fatal(err)]. *)
Definition logFatal {A} (e : error) : M A := fun w => (Fatal e, w).

(** An [os] call that returns only an error, followed by
    [if err != nil { log.Fatal(err) }]. *)
Definition orFatal (call : FS -> option error * FS) : M unit :=
  fun w =>
    match call (fs w) with
    | (None, f') => (Done tt, withFS w f')
    | (Some e, f') => (Fatal e, withFS w f')
    end.

(** [fmt.Print]. *)
Definition Print (s : string) : M unit :=
  fun w => (Done tt, withStdout w (stdout w +:+ s)).

(** [reader.ReadString('\n')] followed by the check of its error: the next
    line with its line feed, or the end of the input. *)
Definition ReadString : M string :=
  fun w =>
    match stdinLines w with
    | line :: rest => (Done (line +:+ nl), withStdin w rest)
    | [] => (Fatal EOF, w)
    end.

(** ** [filepath.WalkDir] *)

Definition DirEntry := FileInfo.

(** What a walk function returns, with the variables it has captured:
    [nil], [filepath.SkipDir], another error; or it ends the process. *)
Inductive status (S : Type) :=
| Nil (s : S)
| SkipDir (s : S)
| Err (e : error) (s : S)
| Exits (e : error)
| Panics.
Arguments Nil {S} s.
Arguments SkipDir {S} s.
Arguments Err {S} e s.
Arguments Exits {S} e.
Arguments Panics {S}.

Definition WalkDirFunc (S : Type) : Type :=
  string -> option DirEntry -> option error -> S -> status S.

(** [walkDir]: the function is called on the entry; a directory that was
    not skipped has its entries walked in order, each under the joined
    path; [SkipDir] from a file ends the walk of its directory. *)
Fixpoint walkDir {S} (fn : WalkDirFunc S) (path name : string) (n : node)
    (s : S) {struct n} : status S :=
  let d := os.infoOf name n in
  match fn path (Some d) None s with
  | Nil s1 =>
      match n with
      | File _ _ => Nil s1
      | Dir _ es =>
          (fix walkEntries (es : list (string * node)) (s : S) : status S :=
             match es with
             | [] => Nil s
             | (name1, n1) :: rest =>
                 match walkDir fn (filepath.Join [path; name1]) name1 n1 s with
                 | Nil s' => walkEntries rest s'
                 | SkipDir s' => Nil s'
                 | other => other
                 end
             end) es s1
      end
  | SkipDir s1 => if IsDir d then Nil s1 else SkipDir s1
  | other => other
  end.

(** [filepath.WalkDir]: when the root cannot be examined the function is
    called once, without an entry and with the error. *)
Definition WalkDir {S} (f : FS) (rt : string) (fn : WalkDirFunc S) (s : S)
  : status S :=
  let result :=
    match os.lookup f rt with
    | inl e => fn rt None (Some e) s
    | inr n => walkDir fn rt (filepath.Base rt) n s
    end in
  match result with
  | SkipDir s' => Nil s'
  | other => other
  end.

(** A walk in the process: [if err := filepath.WalkDir(...); err != nil
    { log.Fatal(err) }]. *)
Definition walkOrFatal {S} (rt : string) (fn : World -> WalkDirFunc S) (s : S)
  : M S :=
  fun w =>
    match WalkDir (fs w) rt (fn w) s with
    | Nil s' => (Done s', w)
    | SkipDir s' => (Done s', w)
    | Err e _ => (Fatal e, w)
    | Exits e => (Fatal e, w)
    | Panics => (Panic, w)
    end.

(** ** The program, in-container side *)

Definition currentExePath : M string :=
  fun w =>
    match executable w with
    | Some p => (Done p, w)
    | None => (Fatal ENOENT, w)
    end.

Definition dirExists (path : string) : M bool :=
  fun w =>
    match os.Stat (fs w) path with
    | inl ENOENT => (Done false, w)
    | inl e => (Fatal e, w)
    | inr _ => (Done true, w)
    end.

Definition BinFormat : string :=
  "#!/usr/bin/env bash" +:+ nl +:+ nl +:+ "toolbox run -c %s %s $@" +:+ nl.

Definition btbMarker : string := ".btbMarker".

(** The function of the first walk (lines 214-223); [isBtbPath] is the
    variable it captures. *)
Definition markerFunc (path : string) : WalkDirFunc bool :=
  fun _ dirEntry _ isBtbPath =>
    match dirEntry with
    | None => Panics
    | Some dirEntry =>
        if negb (String.eqb (Name dirEntry) (filepath.Base path))
           && IsDir dirEntry
        then SkipDir isBtbPath
        else if String.eqb (Name dirEntry) btbMarker then Nil true
        else Nil isBtbPath
    end.

(** The function of the second walk (lines 287-311); [allExe] is the
    variable it captures. *)
Definition collectFunc (path : string) (w : World) : WalkDirFunc (list string) :=
  fun p d err allExe =>
    match d with
    | None => Panics
    | Some d =>
        if negb (String.eqb (Name d) (filepath.Base path)) && IsDir d
        then SkipDir allExe
        else
          match err with
          | Some e => Err e allExe
          | None =>
              match currentUser w with
              | None => Err ErrUser allExe
              | Some currentUser =>
                  let info := d in
                  if IsDir d then Nil allExe
                  else
                    match canExecute currentUser info with
                    | Done true => Nil (allExe ++ [p])
                    | Done false => Nil allExe
                    | Fatal e => Exits e
                    | Panic => Panics
                    end
              end
          end
    end.

(** Lines 211-231: the directories of PATH that exist and show no marker. *)
Fixpoint filterPaths (candidates paths : list string) : M (list string) :=
  match candidates with
  | [] => ret paths
  | path :: rest =>
      found <- dirExists path ;;
      if found then
        isBtbPath <- walkOrFatal path (fun _ => markerFunc path) false ;;
        if negb isBtbPath then filterPaths rest (paths ++ [path])
        else filterPaths rest paths
      else filterPaths rest paths
  end.

Definition tooManyTries : error := ErrMessage "Too many incorrect tries. Stopping".
Definition refused : error := ErrMessage "Cannot continue with non-empty directory".

(** The answers the confirmation prompt tells apart. *)
Inductive answer := Yes | No | Unrecognised.

Definition classify (response : string) : answer :=
  let r := TrimSpace (ToLower response) in
  if String.eqb r "y" || String.eqb r "yes" then Yes
  else if String.eqb r "n" || String.eqb r "no" then No
  else Unrecognised.

(** Lines 241-262, over the lines standard input still holds. *)
Fixpoint UserInputLoop (binPath : string) (lines : list string)
    (incorrectEntryCount : nat) : M unit :=
  match lines with
  | [] => logFatal EOF
  | line :: rest =>
      response <- ReadString ;;
      match classify response with
      | Yes => orFatal (fun f => os.RemoveAll f binPath)
      | No => logFatal refused
      | Unrecognised =>
          if (incorrectEntryCount =? 3)%nat then logFatal tooManyTries
          else
            Print "Please enter (y/n): " ;;;
            UserInputLoop binPath rest (S incorrectEntryCount)
      end
  end.

(** Lines 236-263. *)
Definition checkExisting (binPath : string) : M unit :=
  found <- dirExists binPath ;;
  if found then
    Print (Sprintf "rmdir: %s (y/n)? " [binPath]) ;;;
    (fun w => UserInputLoop binPath (stdinLines w) 0 w)
  else ret tt.

(** Lines 265-282: the directory and its marker; the result is the mode of
    the parent directory. *)
Definition createDirectory (args : Args) (binPath : string) : M Z :=
  fun w =>
    match os.Stat (fs w) (BinPath args) with
    | inl e => (Fatal e, w)
    | inr parentStat =>
        (orFatal (fun f => os.Mkdir f binPath (Mode parentStat)) ;;;
         (fun w =>
            match os.OpenFile (fs w) (filepath.Join [binPath; btbMarker])
                    (Mode parentStat) with
            | (inl e, f') => (Fatal e, withFS w f')
            | (inr _, f') => (Done (Mode parentStat), withFS w f')
            end)) w
    end.

(** Lines 286-314: walk the directories in order and gather [allExe]. *)
Fixpoint collect (paths : list string) (allExe : list string)
  : M (list string) :=
  match paths with
  | [] => ret allExe
  | path :: rest =>
      allExe' <- walkOrFatal path (collectFunc path) allExe ;;
      collect rest allExe'
  end.

(** Lines 316-320. *)
Definition buildExeMap (allExe : list string) : gmap string string :=
  fold_left (fun exeMap exePath => <[filepath.Base exePath := exePath]> exeMap)
    allExe ∅.

(** Lines 323-338 for one entry of the map. *)
Definition writeShim (args : Args) (binPath : string) (mode : Z)
    (entry : string * string) : M unit :=
  let (exe, exePath) := entry in
  let fileName := Sprintf "%s-%s" [Prefix args; exe] in
  let filePath := filepath.Join [binPath; fileName] in
  fun w =>
    match os.OpenFile (fs w) filePath mode with
    | (inl e, f') => (Fatal e, withFS w f')
    | (inr file, f') =>
        let fileContents := Sprintf BinFormat [Container args; exePath] in
        orFatal (fun f => os.WriteString f file fileContents) (withFS w f')
    end.

(** Lines 322-339.  Go leaves the order in which [range] visits a map open:
    [entries] is the order taken. *)
Fixpoint populate (args : Args) (binPath : string) (mode : Z)
    (entries : list (string * string)) : M unit :=
  match entries with
  | [] => ret tt
  | entry :: rest =>
      writeShim args binPath mode entry ;;;
      populate args binPath mode rest
  end.

(** Lines 284-320: the executables found, by name. *)
Definition discover (paths : list string) : M (gmap string string) :=
  match inPlaceReverse paths with
  | None => fun w => (Panic, w)
  | Some reversed =>
      allExe <- collect reversed [] ;;
      ret (buildExeMap allExe)
  end.

(** [rootCommandFunction] when [args.InContainer] is set (line 139 and lines
    209-341); the result is [exeMap].  The host side is [execProgram] and
    [downstream] above. *)
Definition rootCommandFunction (args : Args) : M (gmap string string) :=
  _exe <- currentExePath ;;
  paths <- (fun w => filterPaths (Split (os.Getenv_PATH w) ":") [] w) ;;
  let binPath := filepath.Join [BinPath args; Prefix args] in
  checkExisting binPath ;;;
  mode <- createDirectory args binPath ;;
  exeMap <- discover paths ;;
  populate args binPath mode (map_to_list exeMap) ;;;
  Print (sentinel +:+ nl) ;;;
  ret exeMap.

(** ** Worlds used in the examples *)

Definition rootOwner : syscall.Stat_t := {| syscall.Uid := 0; syscall.Gid := 0 |}.
Definition userOwner : syscall.Stat_t := {| syscall.Uid := 1000; syscall.Gid := 1000 |}.

(** A file of mode 0755 and a directory of mode 0755, owned by root. *)
Definition exeFile : node := File {| perm := 493; owner := rootOwner |} "".
Definition dir (es : list (string * node)) : node :=
  Dir {| perm := 493; owner := rootOwner |} es.

Definition worldOf (es : list (string * node)) (path : option string)
    (lines : list string) : World :=
  {| fs := {| rootMeta := {| perm := 493; owner := rootOwner |};
             rootEntries := es;
             cwd := [];
             umask := 18; (* 022 *)
             procOwner := userOwner |};
     environPATH := path;
     currentUser := Some {| user.Uid := "1000"; user.Gid := "1000" |};
     executable := Some demoExe;
     stdinLines := lines;
     stdout := "" |}.

(** The end-to-end scenario: [foo] in [/usr/bin] and in [/usr/local/bin]. *)
Definition scenarioArgs : Args :=
  {| BinPath := "/home/u/bin"; Prefix := "myprefix";
     Container := "mycontainer"; InContainer := true |}.

Definition scenarioTree : list (string * node) :=
  [("home", dir [("u", dir [("bin", dir [])])]);
   ("usr", dir [("bin", dir [("foo", exeFile)]);
                ("local", dir [("bin", dir [("foo", exeFile)])])])].

Definition scenarioWorld : World :=
  worldOf scenarioTree (Some "/usr/bin:/usr/local/bin") [].

(** The contents of the file a path names. *)
Definition ReadFile (f : FS) (path : string) : option string :=
  match os.lookup f path with
  | inr (File _ contents) => Some contents
  | _ => None
  end.

(** The names listed in the directory a path names. *)
Definition ReadDirNames (f : FS) (path : string) : option (list string) :=
  match os.lookup f path with
  | inr (Dir _ es) => Some (map fst es)
  | _ => None
  end.

(** A search directory with a subdirectory of its own name: [/opt/bin] holds
    the directories [bin] and [lib], each with one executable. *)
Definition nestedTree : list (string * node) :=
  [("home", dir [("u", dir [("bin", dir [])])]);
   ("opt", dir [("bin", dir [("bin", dir [("tool", exeFile)]);
                             ("lib", dir [("helper", exeFile)])])])].

Definition nestedWorld : World := worldOf nestedTree (Some "/opt/bin") [].

(** The scenario without a PATH variable. *)
Definition noPathWorld : World := worldOf scenarioTree None [].

(** ** Auxiliary notions for the statements *)

(** Induction over the file tree: a directory inherits from its entries. *)
Section NodeInduction.
Variable P : node -> Prop.
Hypothesis P_File : forall m contents, P (File m contents).
Hypothesis P_Dir :
  forall m es, Forall (fun kv => P (snd kv)) es -> P (Dir m es).

Fixpoint node_induction (n : node) : P n :=
  match n with
  | File m contents => P_File m contents
  | Dir m es =>
      P_Dir m es
        ((fix entries (es : list (string * node))
            : Forall (fun kv => P (snd kv)) es :=
            match es with
            | [] => List.Forall_nil _
            | (name, n1) :: rest =>
                List.Forall_cons _ (name, n1) rest
                  (node_induction n1) (entries rest)
            end) es)
  end.
End NodeInduction.

Definition mapStatus {S} (f : S -> S) (r : status S) : status S :=
  match r with
  | Nil s => Nil (f s)
  | SkipDir s => SkipDir (f s)
  | Err e s => Err e (f s)
  | Exits e => Exits e
  | Panics => Panics
  end.

(** The walk over the entries of a directory, as [walkDir] contains it. *)
Fixpoint walkEntries {S} (fn : WalkDirFunc S) (path : string)
    (es : list (string * node)) (s : S) : status S :=
  match es with
  | [] => Nil s
  | (name1, n1) :: rest =>
      match walkDir fn (filepath.Join [path; name1]) name1 n1 s with
      | Nil s' => walkEntries fn path rest s'
      | SkipDir s' => Nil s'
      | other => other
      end
  end.

(** The paths the second walk collects from one search-path entry. *)
Definition found (w : World) (path : string) : list string :=
  match WalkDir (fs w) path (collectFunc path w) [] with
  | Nil allExe => allExe
  | _ => []
  end.

(** The paths of a list that have a given base name. *)
Definition named (name : string) (paths : list string) : list string :=
  filter (fun p => filepath.Base p = name) paths.

(** What the second pass collects from a list of entries, in walk order. *)
Fixpoint foundAll (w : World) (paths : list string) : list string :=
  match paths with
  | [] => []
  | path :: rest => found w path ++ foundAll w rest
  end.

Definition isMarkerFile (kv : string * node) : bool :=
  match kv with
  | (name, File _ _) => String.eqb name btbMarker
  | (_, Dir _ _) => false
  end.

(** The path names a directory that lists a file called [.btbMarker]. *)
Definition hasMarkerFile (f : FS) (path : string) : bool :=
  match os.lookup f path with
  | inr (Dir _ es) => existsb isMarkerFile es
  | _ => false
  end.

Definition scenarioMap : gmap string string := {["foo" := "/usr/bin/foo"]}.

(** A shim directory left by an earlier run, [/out/pre], and a PATH that
    lists one of its shims as if it were a directory. *)
Definition shimPathTree : list (string * node) :=
  [("home", dir [("u", dir [("bin", dir [])])]);
   ("out", dir [("pre", dir [(".btbMarker", exeFile); ("pre-foo", exeFile)])])].

Definition shimPathWorld : World :=
  worldOf shimPathTree (Some "/out/pre/pre-foo") [].

(** An output directory that is on PATH and shows no marker yet. *)
Definition staleTree : list (string * node) :=
  [("out", dir [("pre", dir [("old", exeFile)])])].

Definition staleArgs : Args :=
  {| BinPath := "/out"; Prefix := "pre";
     Container := "mycontainer"; InContainer := true |}.

Definition staleWorld : World := worldOf staleTree (Some "/out/pre") ["y"].

(** The world the end-to-end scenario ends in. *)
Definition scenarioEnd : World :=
  snd (rootCommandFunction scenarioArgs scenarioWorld).

(** ** Well-formed names, paths and trees *)

Fixpoint hasByte (c : ascii) (s : string) : bool :=
  match s with
  | "" => false
  | String x r => Ascii.eqb x c || hasByte c r
  end.

(** A path element: not empty and free of separators. *)
Definition isElement (c : string) : Prop :=
  c <> "" /\ hasByte "/" c = false.

(** A file name: an element other than ["."] and [".."]. *)
Definition isName (c : string) : Prop :=
  isElement c /\ c <> "." /\ c <> "..".

(** The shape [Clean] gives to the elements of a path: parent references
    first, and none at all in a rooted path, then names. *)
Definition cleaned (rooted : bool) (kept : list string) : Prop :=
  exists k names,
    kept = replicate k ".." ++ names /\
    (rooted = true -> k = 0) /\
    Forall isName names.

(** Every entry of the tree has a file name. *)
Fixpoint wfNode (n : node) : Prop :=
  match n with
  | File _ _ => True
  | Dir _ es =>
      (fix wfEntries (es : list (string * node)) : Prop :=
         match es with
         | [] => True
         | (name, n1) :: rest => isName name /\ wfNode n1 /\ wfEntries rest
         end) es
  end.

Fixpoint wfEntries (es : list (string * node)) : Prop :=
  match es with
  | [] => True
  | (name, n1) :: rest => isName name /\ wfNode n1 /\ wfEntries rest
  end.

(** [n] times [removelast]. *)
Fixpoint dropEnd (n : nat) (l : list string) : list string :=
  match n with
  | O => l
  | S k => dropEnd k (removelast l)
  end.

(** The location is that of a directory. *)
Definition isDirAt (rt : node) (loc : list string) : Prop :=
  exists m es, nodeAt rt loc = Some (Dir m es).

(** Where a clean path starts once its [k] parent references are taken. *)
Definition baseOf (f : FS) (rooted : bool) (k : nat) : list string :=
  if rooted then [] else dropEnd k (cwd f).

(** A relative path can be resolved only from an existing directory. *)
Definition startsOK (f : FS) (rooted : bool) : Prop :=
  rooted = true \/ isDirAt (root f) (cwd f).

(** The path is clean, ends in a name, and names the directory with meta
    data [dm] and entries [es] at location [loc]. *)
Inductive shimDirAt (f : FS) (bp : string) (loc : list string)
    (dm : Meta) (es : list (string * node)) : Prop :=
| ShimDirAt (rooted : bool) (k : nat) (names : list string) (name : string)
    (Hpath : bp = filepath.render rooted (replicate k ".." ++ names ++ [name]))
    (Hk : rooted = true -> k = 0)
    (Hnames : Forall isName names)
    (Hname : isName name)
    (Hloc : loc = baseOf f rooted k ++ names ++ [name])
    (Hstart : startsOK f rooted)
    (Hdir : nodeAt (root f) loc = Some (Dir dm es)).

(** The meta data of what the process creates with the mode [mode]. *)
Definition createdMeta (f : FS) (mode : Z) : Meta :=
  {| perm := os.createdPerm f mode; owner := procOwner f |}.

(** The name and the contents of the shim of an executable (lines 323 and
    331). *)
Definition fileNameOf (args : Args) (exe : string) : string :=
  Sprintf "%s-%s" [Prefix args; exe].

Definition fileContentsOf (args : Args) (exePath : string) : string :=
  Sprintf BinFormat [Container args; exePath].

(** The shim file that a list of map entries provides under a name. *)
Fixpoint shimOf (args : Args) (fm : Meta) (entries : list (string * string))
    (n : string) : option node :=
  match entries with
  | [] => None
  | (exe, exePath) :: rest =>
      if String.eqb n (fileNameOf args exe)
      then Some (File fm (fileContentsOf args exePath))
      else shimOf args fm rest n
  end.

(** The output base directory itself as target: an empty prefix. *)
Definition emptyPrefixArgs : Args :=
  {| BinPath := "/home/u/bin"; Prefix := "";
     Container := "mycontainer"; InContainer := true |}.

Definition emptyPrefixWorld : World :=
  worldOf [("home", dir [("u", dir [("bin", dir [("keep", exeFile)])])])]
    (Some "") ["y"].

(** The shim directory of the scenario exists, and the user answers. *)
Definition existingTree : list (string * node) :=
  [("home", dir [("u", dir [("bin", dir [("myprefix", dir [("old", exeFile)])])])]);
   ("usr", dir [("bin", dir [("foo", exeFile)])])].

Definition retryWorld : World :=
  worldOf existingTree (Some "/usr/bin") ["maybe"; ""; "q"; " Yes "; "later"].

Definition tooManyWorld : World :=
  worldOf existingTree (Some "/usr/bin") ["maybe"; ""; "q"; "x"; "y"].

(** Every entry of the file system has a file name. *)
Definition wfFS (f : FS) : Prop := wfEntries (rootEntries f).

(** The base name of the path is free of separators. *)
Definition plainBase (p : string) : Prop :=
  hasByte "/" (filepath.Base p) = false.

(** Lines 236-263, 265-282 and 322-339 against a given mapping, visited in
    the order [entries]: the shim-generation part of the run. *)
Definition shimPipeline (args : Args) (entries : list (string * string))
  : M unit :=
  let binPath := filepath.Join [BinPath args; Prefix args] in
  checkExisting binPath ;;;
  mode <- createDirectory args binPath ;;
  populate args binPath mode entries.

(** The contents of the file [n] in the directory [path], if there is one. *)
Definition fileIn (f : FS) (path n : string) : option string :=
  match os.lookup f path with
  | inr (Dir _ es) =>
      match lookupEntry n es with
      | Some (File _ contents) => Some contents
      | _ => None
      end
  | _ => None
  end.

(** The directory [path] lists nothing but files. *)
Definition onlyFiles (f : FS) (path : string) : Prop :=
  exists m es,
    os.lookup f path = inr (Dir m es) /\
    forall n x, lookupEntry n es = Some x -> exists fm c, x = File fm c.

(** A walk function that only appends to what it has collected. *)
Definition appending (fn : WalkDirFunc (list string)) : Prop :=
  forall p d err acc l, fn p d err (acc ++ l) = mapStatus (app acc) (fn p d err l).

(** What a walk has collected so far has plain base names. *)
Definition plainStatus (r : status (list string)) : Prop :=
  match r with
  | Nil l | SkipDir l | Err _ l => Forall plainBase l
  | _ => True
  end.

(** A prefix that leads out of the shim directory, and next to that
    directory a file left by a run for a container with a longer name. *)
Definition outsideArgs : Args :=
  {| BinPath := "/home/u/bin"; Prefix := "../pre";
     Container := "mycontainer"; InContainer := true |}.

Definition previousArgs : Args :=
  {| BinPath := "/home/u/bin"; Prefix := "../pre";
     Container := "mycontainer-previous"; InContainer := true |}.

Definition outsideTree : list (string * node) :=
  [("home",
    dir [("u",
          dir [("bin", dir []);
               ("pre-foo",
                File {| perm := 493; owner := userOwner |}
                  (fileContentsOf previousArgs "/usr/bin/foo"))])]);
   ("usr", dir [("bin", dir [("foo", exeFile)])])].

Definition outsideWorld : World := worldOf outsideTree (Some "/usr/bin") [].

Definition outsideEnd : World :=
  snd (rootCommandFunction outsideArgs outsideWorld).

(** A mapping of two names, and the world the shim generation of the
    scenario leaves when it visits [foo] first. *)
Definition twoMap : gmap string string :=
  {["foo" := "/usr/bin/foo"; "bar" := "/usr/local/bin/bar"]}.

Definition firstRunEnd : World :=
  snd (shimPipeline scenarioArgs
         [("foo", "/usr/bin/foo"); ("bar", "/usr/local/bin/bar")]
         scenarioWorld).

(** ** Shims under any prefix *)

(** What the prefix contributes to the file name of a shim: its last piece,
    and before it the directories it names. *)
Definition lastPiece (p : string) : string :=
  match last (Split p filepath.Separator) with
  | Some c => c
  | None => ""
  end.

Definition dirPieces (p : string) : list string :=
  filter (fun c => filepath.nonEmpty c = true)
    (removelast (Split p filepath.Separator)).

(** The last element of the path of a shim. *)
Definition shimName (args : Args) (exe : string) : string :=
  lastPiece (Prefix args) +:+ "-" +:+ exe.

(** Neither location lies at or below the other. *)
Definition apart (l q : list string) : Prop :=
  ~ l `prefix_of` q /\ ~ q `prefix_of` l.

(** A directory given by the elements of a clean path. *)
Inductive dirAt (f : FS) (rooted : bool) (k : nat) (names : list string)
    (loc : list string) (dm : Meta) (es : list (string * node)) : Prop :=
| DirAt
    (Hk : rooted = true -> k = 0)
    (Hnames : Forall isName names)
    (Hloc : loc = baseOf f rooted k ++ names)
    (Hstart : startsOK f rooted)
    (Hdir : nodeAt (root f) loc = Some (Dir dm es)).

(** What a write without truncation makes of what was there: a new file
    with the meta data [cm], or the old file with its first bytes replaced. *)
Definition overwrite (cm : Meta) (o : option node) (s : string) : node :=
  match o with
  | Some (File m old) => File m (s +:+ os.dropBytes (String.length s) old)
  | _ => File cm s
  end.

(** The file a list of map entries leaves under a name in a directory that
    held the entries [es]. *)
Fixpoint shimOver (args : Args) (cm : Meta) (es : list (string * node))
    (entries : list (string * string)) (n : string) : option node :=
  match entries with
  | [] => None
  | (exe, exePath) :: rest =>
      if String.eqb n (shimName args exe)
      then Some (overwrite cm (lookupEntry n es) (fileContentsOf args exePath))
      else shimOver args cm es rest n
  end.

(** Two nodes of the same kind with the same meta data. *)
Definition sameKind (x y : node) : Prop :=
  match x, y with
  | File m _, File m' _ => m = m'
  | Dir m _, Dir m' _ => m = m'
  | _, _ => False
  end.

(** Whatever [f] holds, [f'] holds as well, as a node of the same kind. *)
Definition extends (f f' : FS) : Prop :=
  cwd f' = cwd f /\
  forall q x, nodeAt (root f) q = Some x ->
    exists x', nodeAt (root f') q = Some x' /\ sameKind x x'.

(** [f'] differs from [f] at or below the location only; the directories
    on the way to it are directories still. *)
Definition changedBelow (loc : list string) (f f' : FS) : Prop :=
  cwd f' = cwd f /\ umask f' = umask f /\ procOwner f' = procOwner f /\
  (forall q, apart loc q -> nodeAt (root f') q = nodeAt (root f) q) /\
  (forall q m es, ~ loc `prefix_of` q ->
     nodeAt (root f) q = Some (Dir m es) ->
     exists es', nodeAt (root f') q = Some (Dir m es')).

(** [f'] differs from [f] at or below the locations [ls] only. *)
Definition changedAt (ls : list (list string)) (f f' : FS) : Prop :=
  cwd f' = cwd f /\ umask f' = umask f /\ procOwner f' = procOwner f /\
  (forall q, (forall l, l ∈ ls -> apart l q) ->
     nodeAt (root f') q = nodeAt (root f) q) /\
  (forall q m es, (forall l, l ∈ ls -> ~ l `prefix_of` q) ->
     nodeAt (root f) q = Some (Dir m es) ->
     exists es', nodeAt (root f') q = Some (Dir m es')).

(** The locations of the shims of a list of map entries in a directory. *)
Definition shimLocs (args : Args) (loc : list string)
    (entries : list (string * string)) : list (list string) :=
  map (fun e => loc ++ [shimName args (fst e)]) entries.

(** The contents of an entry that is a file. *)
Definition contentsOf (o : option node) : option string :=
  match o with
  | Some (File _ contents) => Some contents
  | _ => None
  end.


(** ** Notions for further properties *)

(** What the filter of lines 211-231 decides for one search-path entry: it
    can be examined, and the first walk leaves [isBtbPath] false. *)
Definition passesFilter (w : World) (path : string) : bool :=
  match os.Stat (fs w) path with
  | inr _ =>
      match WalkDir (fs w) path (markerFunc path) false with
      | Nil false => true
      | _ => false
      end
  | inl _ => false
  end.

(** A search path with an entry that leads through a regular file. *)
Definition throughFileWorld : World :=
  worldOf scenarioTree (Some "/usr/bin:/usr/bin/foo/x:/usr/local/bin") [].

(** A search path that lists a directory twice, a file and a missing
    directory. *)
Definition mixedPathWorld : World :=
  worldOf scenarioTree
    (Some "/usr/local/bin:/nowhere:/usr/bin/foo:/usr/bin:/usr/local/bin") [].

(** [n] copies of a text, one after the other. *)
Fixpoint copies (n : nat) (s : string) : string :=
  match n with
  | O => ""
  | S k => s +:+ copies k s
  end.

(** What lines 236-260 have printed once [k] answers were unrecognised. *)
Definition dialogue (binPath : string) (k : nat) : string :=
  Sprintf "rmdir: %s (y/n)? " [binPath] +:+ copies k "Please enter (y/n): ".


Definition silentWorld : World :=
  worldOf existingTree (Some "/usr/bin") ["what"; "hm"].

(** What a run prints when it ends: the sentinel line after a normal end,
    nothing after any other. *)
Definition closing {A} (o : outcome A) : string :=
  match o with
  | Done _ => sentinel +:+ nl
  | _ => ""
  end.

(** The target directory exists, holds a directory of tools, and that
    directory is on the search path. *)
Definition vanishingWorld : World :=
  worldOf
    [("home", dir [("u", dir [("bin",
        dir [("myprefix", dir [("tools", dir [("make", exeFile)])])])])]);
     ("usr", dir [("bin", dir [("foo", exeFile)])])]
    (Some "/usr/bin:/home/u/bin/myprefix/tools") ["y"].

(** The place a path names, or would name once it is created. *)
Definition placeOf (f : FS) (path : string) : option (list string) :=
  match locate f path with
  | Existing loc => Some loc
  | Missing ploc name => Some (ploc ++ [name])
  | Unreachable _ => None
  end.

(** A directory entry that is a file with the execute bit for others. *)
Definition executableForOthers (e : string * node) : bool :=
  match snd e with
  | File m _ => Z.testbit (perm m) 0
  | Dir _ _ => false
  end.

(** The entries of a directory: a data file, a subdirectory, a tool for
    its owner alone (the user of the process) and a tool for everybody. *)
Definition toolsEntries : list (string * node) :=
  [("data", File {| perm := 420; owner := userOwner |} "");
   ("lib", dir [("helper", exeFile)]);
   ("mine", File {| perm := 488; owner := userOwner |} "");
   ("tool", exeFile)].

Definition toolsWorld : World :=
  worldOf [("opt", dir [("tools", dir toolsEntries)])] (Some "/opt/tools") [].

(** * Theorems *)

(** ** Properties of [inPlaceReverse] *)

Section InPlaceReverse.

Lemma swap_Some arr i j :
  i < length arr -> j < length arr ->
  exists ai aj, arr !! i = Some ai /\ arr !! j = Some aj /\
    swap arr i j = Some (<[j := ai]> (<[i := aj]> arr)).
Proof.
  intros Hi Hj.
  destruct (lookup_lt_is_Some_2 arr i Hi) as [ai Hai].
  destruct (lookup_lt_is_Some_2 arr j Hj) as [aj Haj].
  exists ai, aj. unfold swap. rewrite Hai, Haj. auto.
Qed.

Lemma reverseLoop_spec size steps : forall i arr0 arr,
  length arr = size -> length arr0 = size ->
  2 * (i + steps) <= size ->
  (forall k, arr !! k = mirrored size 0 i arr0 k) ->
  exists r, reverseLoop size steps i arr = Some r /\
    length r = size /\
    forall k, r !! k = mirrored size 0 (i + steps) arr0 k.
Proof.
  induction steps as [|n IH]; intros i arr0 arr Hlen Hlen0 Hmid Hinv.
  - exists arr. simpl. replace (i + 0) with i by lia. auto.
  - simpl.
    assert (Hi : i < length arr) by lia.
    assert (Hj : size - 1 - i < length arr) by lia.
    destruct (swap_Some arr i (size - 1 - i) Hi Hj)
      as (ai & aj & Hai & Haj & ->).
    destruct (IH (S i) arr0 (<[size - 1 - i := ai]> (<[i := aj]> arr)))
      as (r & Hr & Hlr & Hk).
    + now rewrite !length_insert.
    + exact Hlen0.
    + lia.
    + intros k.
      rewrite Hinv in Hai, Haj. unfold mirrored in Hai, Haj |- *.
      destruct (decide (k = size - 1 - i)) as [->|Hne1].
      * rewrite list_lookup_insert_eq by (rewrite length_insert; lia).
        repeat case_decide; try lia.
        rewrite <- Hai. f_equal. lia.
      * rewrite list_lookup_insert_ne by lia.
        destruct (decide (k = i)) as [->|Hne2].
        -- rewrite list_lookup_insert_eq by lia.
           repeat case_decide; try lia. now rewrite <- Haj.
        -- rewrite list_lookup_insert_ne by lia.
           rewrite Hinv. unfold mirrored.
           repeat case_decide; try lia; reflexivity.
    + exists r. split; [exact Hr|]. split; [exact Hlr|].
      intros k. rewrite Hk. f_equal. lia.
Qed.

Lemma half_le (n : nat) : 2 * (n / 2) <= n.
Proof. apply Nat.Div0.mul_div_le. Qed.

Lemma half_gt (n : nat) : n < 2 * (n / 2) + 2.
Proof.
  pose proof (Nat.div_mod_eq n 2) as H.
  pose proof (Nat.mod_upper_bound n 2). lia.
Qed.

Lemma inPlaceReverse_reverse (arr : list string) :
  inPlaceReverse arr = Some (reverse arr).
Proof.
  unfold inPlaceReverse.
  destruct (reverseLoop_spec (length arr) (length arr / 2) 0 arr arr)
    as (r & Hr & Hlen & Hk); auto.
  - pose proof (half_le (length arr)). lia.
  - intros k. unfold mirrored. case_decide; [lia | reflexivity].
  - rewrite Hr. f_equal. apply list_eq. intros k.
    rewrite Hk. unfold mirrored.
    pose proof (half_le (length arr)). pose proof (half_gt (length arr)).
    destruct (decide (k < length arr)) as [Hlt|Hge].
    + rewrite reverse_lookup by lia.
      case_decide.
      * f_equal. lia.
      * f_equal. lia.
    + rewrite (lookup_ge_None_2 (reverse arr)) by (rewrite length_reverse; lia).
      case_decide; apply lookup_ge_None_2; lia.
Qed.

End InPlaceReverse.

(** C10.  For a slice of any length, [inPlaceReverse] returns normally, keeps
  the length, puts at every index [i] the element that was at index
  [len-1-i], and applied a second time gives back the original slice. *)
Theorem inPlaceReverse_mirror_involutive (arr : list string) :
exists r,
  inPlaceReverse arr = Some r /\
  length r = length arr /\
  (forall i, i < length arr -> r !! i = arr !! (length arr - 1 - i)) /\
  inPlaceReverse r = Some arr.
Proof.
exists (reverse arr). split; [apply inPlaceReverse_reverse|].
split; [apply length_reverse|]. split.
- intros i Hi. rewrite reverse_lookup by lia. f_equal. lia.
- rewrite inPlaceReverse_reverse. f_equal. apply reverse_involutive.
Qed.

(** ** Go strings: examples *)

Example TrimSpace_yes :
  TrimSpace (ToLower ("  YeS " +:+ String (byte_of 194) (String (byte_of 160) nl)))
  = "yes".
Proof. reflexivity. Qed.

Example Split_PATH :
  Split "/usr/bin:/usr/local/bin" ":"%char = ["/usr/bin"; "/usr/local/bin"].
Proof. reflexivity. Qed.

Example Split_empty : Split "" ":"%char = [""].
Proof. reflexivity. Qed.

Example Sprintf_name : Sprintf "%s-%s" ["myprefix"; "foo"] = "myprefix-foo".
Proof. reflexivity. Qed.


(** ** Permission classifier *)

(** What [canExecute] computes, case by case. *)
Lemma canExecute_other_bit userInfo info :
  Z.land S_IXOTH (Mode info) <> 0%Z -> canExecute userInfo info = Done true.
Proof.
  intros H. unfold canExecute.
  destruct (Z.eqb_spec (Z.land S_IXOTH (Mode info)) 0); [contradiction|reflexivity].
Qed.

Lemma canExecute_no_stat_value userInfo info :
  Z.land S_IXOTH (Mode info) = 0%Z ->
  (forall st, Sys info <> SysStat st) ->
  canExecute userInfo info = Done false.
Proof.
  intros H Hsys. unfold canExecute. rewrite H. simpl.
  destruct (Sys info) as [st| |]; [destruct (Hsys st); reflexivity| |]; reflexivity.
Qed.

Lemma canExecute_stat_value userInfo info st userGid userId :
  Z.land S_IXOTH (Mode info) = 0%Z ->
  Sys info = SysStat st ->
  ParseUint32 (user.Gid userInfo) = Some userGid ->
  ParseUint32 (user.Uid userInfo) = Some userId ->
  canExecute userInfo info =
  Done (negb (Z.land S_IXGRP (Mode info) =? 0)%Z
          && (syscall.Gid st =? uint32 userGid)%Z
        || negb (Z.land S_IXUSR (Mode info) =? 0)%Z
          && (syscall.Uid st =? uint32 userId)%Z).
Proof.
  intros H Hsys Hg Hu. unfold canExecute. rewrite H, Hsys, Hg, Hu. simpl.
  destruct (negb (Z.land S_IXGRP (Mode info) =? 0)%Z
            && (syscall.Gid st =? uint32 userGid)%Z); [reflexivity|].
  destruct (negb (Z.land S_IXUSR (Mode info) =? 0)%Z
            && (syscall.Uid st =? uint32 userId)%Z); reflexivity.
Qed.

(** C3.  A file with mode 0750 owned by user 1000, group 1000, as package
    [os] reports it (ownership behind a [*syscall.Stat_t]), is classified as
    not executable for user 1000 of group 1000: the type assertion to the
    value type fails, although the ownership metadata is there and both the
    owner and the group test of the claim hold. *)
Theorem canExecute_owner_file_rejected :
  canExecute {| user.Uid := "1000"; user.Gid := "1000" |}
    {| Name := "tool"; Mode := 488;
       Sys := SysStatPtr {| syscall.Uid := 1000; syscall.Gid := 1000 |} |}
  = Done false.
Proof. reflexivity. Qed.

(** The same file had the assertion succeeded. *)
Example canExecute_owner_file_value_type :
  canExecute {| user.Uid := "1000"; user.Gid := "1000" |}
    {| Name := "tool"; Mode := 488;
       Sys := SysStat {| syscall.Uid := 1000; syscall.Gid := 1000 |} |}
  = Done true.
Proof. reflexivity. Qed.

(** ** Downstream relay *)

Section Padding.

Lemma append_nil_r (s : string) : s +:+ "" = s.
Proof. induction s as [|c s IH]; simpl; [reflexivity|now rewrite IH]. Qed.

Lemma append_assoc (s t u : string) : (s +:+ t) +:+ u = s +:+ (t +:+ u).
Proof. induction s as [|c s IH]; simpl; [reflexivity|now rewrite IH]. Qed.

Lemma lastByte_cons c s :
  s <> "" -> lastByte (String c s) = lastByte s.
Proof. destruct s; [contradiction|reflexivity]. Qed.

Lemma lastByte_append s t : t <> "" -> lastByte (s +:+ t) = lastByte t.
Proof.
  intros Ht. induction s as [|c s IH]; simpl; [reflexivity|].
  rewrite <- IH. destruct (s +:+ t) eqn:E; [|reflexivity].
  destruct s; simpl in E; [contradiction|discriminate].
Qed.

Lemma append_nonempty_r s t : t <> "" -> s +:+ t <> "".
Proof. intros Ht. destruct s; [exact Ht|discriminate]. Qed.

Ltac nonempty := repeat (apply append_nonempty_r); discriminate.

Lemma HasPrefix_nil s : HasPrefix s "" = true.
Proof. destruct s; reflexivity. Qed.

Lemma HasPrefix_Repeat k : forall sub a,
  lastByte sub = Some a -> a <> NUL -> HasPrefix (Repeat NUL k) sub = false.
Proof.
  induction k as [|k IH]; intros sub a Hl Ha.
  - destruct sub; [discriminate|reflexivity].
  - destruct sub as [|p sub]; [discriminate|]. cbn [HasPrefix Repeat].
    destruct sub as [|q sub].
    + simpl in Hl. injection Hl as ->.
      destruct (Ascii.eqb_spec NUL a); [congruence|reflexivity].
    + rewrite (IH (String q sub) a); [apply andb_false_r| |exact Ha].
      rewrite <- Hl. symmetry. apply lastByte_cons. discriminate.
Qed.

Lemma HasPrefix_pad k c : forall sub a,
  lastByte sub = Some a -> a <> NUL ->
  HasPrefix (c +:+ Repeat NUL k) sub = HasPrefix c sub.
Proof.
  induction c as [|x c IH]; intros sub a Hl Ha.
  - simpl. rewrite (HasPrefix_Repeat k sub a Hl Ha).
    destruct sub; [discriminate|reflexivity].
  - destruct sub as [|p sub]; [discriminate|]. cbn [HasPrefix String.append].
    destruct sub as [|q sub].
    + now rewrite !HasPrefix_nil.
    + rewrite (IH (String q sub) a); [reflexivity| |exact Ha].
      rewrite <- Hl. symmetry. apply lastByte_cons. discriminate.
Qed.

Lemma Contains_Repeat k sub a :
  lastByte sub = Some a -> a <> NUL -> Contains (Repeat NUL k) sub = false.
Proof.
  intros Hl Ha. induction k as [|k IH].
  - destruct sub; [discriminate|reflexivity].
  - change (Contains (Repeat NUL (S k)) sub)
      with (HasPrefix (Repeat NUL (S k)) sub || Contains (Repeat NUL k) sub).
    now rewrite IH, (HasPrefix_Repeat (S k) sub a Hl Ha).
Qed.

(** A substring that does not end in a zero byte is found in the padded
    buffer exactly when it is found in the bytes read. *)
Lemma Contains_pad k c sub a :
  lastByte sub = Some a -> a <> NUL ->
  Contains (c +:+ Repeat NUL k) sub = Contains c sub.
Proof.
  intros Hl Ha. induction c as [|x c IH].
  - simpl String.append. rewrite (Contains_Repeat k sub a Hl Ha).
    destruct sub; [discriminate|reflexivity].
  - change (Contains (String x c +:+ Repeat NUL k) sub)
      with (HasPrefix (String x c +:+ Repeat NUL k) sub
            || Contains (c +:+ Repeat NUL k) sub).
    change (Contains (String x c) sub)
      with (HasPrefix (String x c) sub || Contains c sub).
    now rewrite IH, (HasPrefix_pad k (String x c) sub a Hl Ha).
Qed.

Lemma HasPrefix_self s t : HasPrefix (s +:+ t) s = true.
Proof.
  induction s as [|c s IH]; cbn [HasPrefix String.append]; [apply HasPrefix_nil|].
  now rewrite Ascii.eqb_refl, IH.
Qed.

Lemma Contains_self s : Contains s s = true.
Proof.
  destruct s as [|c s]; [reflexivity|].
  change (HasPrefix (String c s) (String c s) || Contains s (String c s) = true).
  pose proof (HasPrefix_self (String c s) "") as H.
  rewrite append_nil_r in H. now rewrite H.
Qed.

Lemma lastByte_sentinel : lastByte sentinel = Some ">"%char.
Proof. reflexivity. Qed.

Lemma lastByte_execProgram exe args : lastByte (execProgram exe args) = Some LF.
Proof.
  unfold execProgram. cbn [app Join].
  repeat (rewrite lastByte_append; [|nonempty]). reflexivity.
Qed.

End Padding.

Lemma Contains_nil_l sub : Contains "" sub = true -> sub = "".
Proof. destruct sub; [reflexivity|discriminate]. Qed.

Lemma NUL_neq_LF : LF <> NUL.
Proof. discriminate. Qed.

Lemma NUL_neq_gt : ">"%char <> NUL.
Proof. discriminate. Qed.

Lemma Contains_data_sentinel chunk k :
  Contains (chunk +:+ Repeat NUL k) sentinel = Contains chunk sentinel.
Proof. exact (Contains_pad k chunk sentinel _ lastByte_sentinel NUL_neq_gt). Qed.

Lemma Contains_data_execProgram chunk k exe args :
  Contains (chunk +:+ Repeat NUL k) (execProgram exe args)
  = Contains chunk (execProgram exe args).
Proof.
  exact (Contains_pad k chunk _ _ (lastByte_execProgram exe args) NUL_neq_LF).
Qed.

Lemma length_zero_nil (s : string) : String.length s = 0 -> s = "".
Proof. destruct s; [reflexivity|discriminate]. Qed.

(** C2, as the code has it.  A chunk that contains the sentinel anywhere makes
    the relay write the termination command to the session and return, the
    remaining output unread.  Otherwise a chunk that contains the
    self-invocation line anywhere, in particular one that is exactly that
    line, is dropped without printing.  Any other chunk is printed: the text
    written to the process's own output starts with the chunk. *)
Theorem downstream_chunk_handling exe args chunk rest st :
  (Contains chunk sentinel = true ->
   downstream (execProgram exe args) (ReadBytes chunk :: rest) st
   = (Returned, {| sessionStdin := sessionStdin st +:+ "exit" +:+ nl;
                   ownStdout := ownStdout st |}))
  /\ (Contains chunk sentinel = false ->
      Contains chunk (execProgram exe args) = true ->
      downstream (execProgram exe args) (ReadBytes chunk :: rest) st
      = downstream (execProgram exe args) rest st)
  /\ (Contains (execProgram exe args) sentinel = false ->
      downstream (execProgram exe args)
        (ReadBytes (execProgram exe args) :: rest) st
      = downstream (execProgram exe args) rest st)
  /\ (Contains chunk sentinel = false ->
      Contains chunk (execProgram exe args) = false ->
      exists pad,
        downstream (execProgram exe args) (ReadBytes chunk :: rest) st
        = downstream (execProgram exe args) rest
            {| sessionStdin := sessionStdin st;
               ownStdout := ownStdout st +:+ chunk +:+ pad |}).
Proof.
  assert (Hne : execProgram exe args <> "").
  { intros E. pose proof (lastByte_execProgram exe args) as H.
    rewrite E in H. discriminate. }
  assert (Hecho : forall c, Contains c sentinel = false ->
            Contains c (execProgram exe args) = true ->
            downstream (execProgram exe args) (ReadBytes c :: rest) st
            = downstream (execProgram exe args) rest st).
  { intros c Hs He. cbn [downstream].
    rewrite Contains_data_sentinel, Contains_data_execProgram, Hs, He.
    destruct (String.length c =? 0)%nat; reflexivity. }
  split; [|split; [|split]].
  - intros Hs. cbn [downstream].
    rewrite Contains_data_sentinel, Hs.
    destruct (Nat.eqb_spec (String.length chunk) 0) as [E|E]; [|reflexivity].
    apply length_zero_nil in E. subst chunk. discriminate.
  - apply Hecho.
  - intros Hs. apply Hecho; [exact Hs|apply Contains_self].
  - intros Hs He. cbn [downstream].
    rewrite Contains_data_sentinel, Contains_data_execProgram, Hs, He.
    destruct (Nat.eqb_spec (String.length chunk) 0) as [E|E].
    + apply length_zero_nil in E. subst chunk. exists "".
      destruct st as [i o]. simpl. now rewrite append_nil_r.
    + eexists. reflexivity.
Qed.

(** C2 as stated fails: a chunk that holds the self-invocation line behind a
    shell prompt has no sentinel in it and is not exactly that line, and yet
    nothing of it reaches the process's own output. *)
Lemma downstream_prefixed_echo_dropped :
  Contains echoChunk sentinel = false /\
  echoChunk <> execProgram demoExe demoArgs /\
  downstream (execProgram demoExe demoArgs) [ReadBytes echoChunk] emptyStreams
  = (Reading, emptyStreams) /\
  ownStdout
    (snd (downstream (execProgram demoExe demoArgs) [ReadBytes echoChunk]
            emptyStreams)) <> echoChunk.
Proof.
  split; [vm_compute; reflexivity|].
  split; [intros H; vm_compute in H; discriminate H|].
  split; [vm_compute; reflexivity|].
  intros H; vm_compute in H; discriminate H.
Qed.

(** ** Paths: examples *)

Example Clean_examples :
  map filepath.Clean ["/usr//bin/"; "/usr/./bin/../lib"; "a/../../b"; "/.."; ""; "/"]
  = ["/usr/bin"; "/usr/lib"; "../b"; "/"; "."; "/"].
Proof. reflexivity. Qed.

Example Join_examples :
  map filepath.Join [["/home/u/bin"; "f35"]; ["/home/u/bin"; ""]; [""; "x"]; ["/usr/bin/"; "ls"]; [""; ""]]
  = ["/home/u/bin/f35"; "/home/u/bin"; "x"; "/usr/bin/ls"; ""].
Proof. reflexivity. Qed.

Example Base_examples :
  map filepath.Base ["/usr/bin/ls"; "/usr/bin/"; "/"; ""; "ls"; "//"]
  = ["ls"; "bin"; "/"; "."; "ls"; "/"].
Proof. reflexivity. Qed.

(** ** The discovery walk *)

(** C7.  The walk of the search directory [/opt/bin] descends into its
    subdirectory [bin], whose name is the base name of the search directory,
    and collects [/opt/bin/bin/tool]; the subdirectory [lib] is skipped. *)
Theorem walk_descends_into_same_named_subdirectory :
  WalkDir (fs nestedWorld) "/opt/bin" (collectFunc "/opt/bin" nestedWorld) []
  = Nil ["/opt/bin/bin/tool"]
  /\ exists exeMap w',
       rootCommandFunction scenarioArgs nestedWorld = (Done exeMap, w')
       /\ exeMap !! "tool" = Some "/opt/bin/bin/tool"
       /\ exeMap !! "helper" = None.
Proof.
  split; [vm_compute; reflexivity|].
  eexists. eexists. split; [vm_compute; reflexivity|].
  split; vm_compute; reflexivity.
Qed.

(** ** A missing PATH variable *)

Lemma Stat_empty_path f : os.Stat f "" = inl ENOENT.
Proof. reflexivity. Qed.

Lemma filterPaths_no_PATH w :
  environPATH w = None ->
  filterPaths (Split (os.Getenv_PATH w) ":") [] w = (Done [], w).
Proof. intros H. unfold os.Getenv_PATH. rewrite H. reflexivity. Qed.

Lemma discover_nil w : discover [] w = (Done ∅, w).
Proof. reflexivity. Qed.

(** C8, as the code has it.  A missing PATH variable is read as the empty
    string: no directory is searched, the mapping is empty, and the run goes
    on exactly as a run that found nothing: it confirms and creates the
    directory with its marker, writes no shim and prints the sentinel. *)
Theorem missing_PATH_finds_nothing args w :
  environPATH w = None ->
  rootCommandFunction args w
  = (currentExePath ;;;
     checkExisting (filepath.Join [BinPath args; Prefix args]) ;;;
     createDirectory args (filepath.Join [BinPath args; Prefix args]) ;;;
     Print (sentinel +:+ nl) ;;;
     ret ∅) w.
Proof.
  intros H. unfold rootCommandFunction, bind.
  destruct (currentExePath w) as [[exe|e|] w1] eqn:Hexe; try reflexivity.
  assert (Hw : environPATH w1 = None).
  { unfold currentExePath in Hexe. destruct (executable w); congruence. }
  rewrite (filterPaths_no_PATH w1 Hw).
  destruct (checkExisting _ w1) as [[[]|e|] w2]; reflexivity.
Qed.

Lemma missing_PATH_witness :
  environPATH noPathWorld = None /\
  rootCommandFunction scenarioArgs noPathWorld
  = (currentExePath ;;;
     checkExisting (filepath.Join [BinPath scenarioArgs; Prefix scenarioArgs]) ;;;
     createDirectory scenarioArgs
       (filepath.Join [BinPath scenarioArgs; Prefix scenarioArgs]) ;;;
     Print (sentinel +:+ nl) ;;;
     ret ∅) noPathWorld.
Proof.
  split; [reflexivity|].
  apply (missing_PATH_finds_nothing scenarioArgs noPathWorld). reflexivity.
Defined.

(** C8 as stated fails: without a PATH variable the run is not fatal.  It
    ends normally with an empty mapping, the sentinel printed and the shim
    directory created with its marker. *)
Lemma missing_PATH_not_fatal :
  fst (rootCommandFunction scenarioArgs noPathWorld) = Done ∅ /\
  stdout (snd (rootCommandFunction scenarioArgs noPathWorld)) = sentinel +:+ nl /\
  ReadDirNames (fs (snd (rootCommandFunction scenarioArgs noPathWorld)))
    "/home/u/bin/myprefix" = Some [btbMarker].
Proof. repeat split; vm_compute; reflexivity. Qed.

(** ** Walks leave the world alone and only append *)

Lemma walkDir_unfold {S} (fn : WalkDirFunc S) path name n s :
  walkDir fn path name n s =
  match fn path (Some (os.infoOf name n)) None s with
  | Nil s1 =>
      match n with
      | File _ _ => Nil s1
      | Dir _ es => walkEntries fn path es s1
      end
  | SkipDir s1 => if IsDir (os.infoOf name n) then Nil s1 else SkipDir s1
  | other => other
  end.
Proof.
  destruct n as [m c|m es]; [reflexivity|].
  cbn [walkDir]. destruct (fn path _ None s); try reflexivity.
  generalize s0. induction es as [|[name1 n1] rest IH]; intros s1; [reflexivity|].
  cbn [walkEntries]. destruct (walkDir fn _ name1 n1 s1); try reflexivity.
  apply IH.
Qed.

Lemma collectFunc_appending path w : appending (collectFunc path w).
Proof.
  intros p d err acc l. unfold collectFunc.
  destruct d as [d|]; [|reflexivity].
  destruct (negb (String.eqb (Name d) (filepath.Base path)) && IsDir d);
    [reflexivity|].
  destruct err; [reflexivity|].
  destruct (currentUser w); [|reflexivity].
  destruct (IsDir d); [reflexivity|].
  destruct (canExecute u d) as [[|]|e|]; simpl; try reflexivity.
  now rewrite app_assoc.
Qed.

Lemma walkDir_appending fn (Hfn : appending fn) n :
  forall path name acc l,
    walkDir fn path name n (acc ++ l)
    = mapStatus (app acc) (walkDir fn path name n l).
Proof.
  induction n as [m c|m es IH] using node_induction; intros path name acc l.
  - rewrite !walkDir_unfold, Hfn.
    destruct (fn path _ None l); simpl; try reflexivity.
    destruct (IsDir _); reflexivity.
  - rewrite !walkDir_unfold, Hfn.
    destruct (fn path _ None l) as [s1|s1|e s1|e|]; simpl; try reflexivity.
    + clear l. revert s1.
      induction IH as [|[name1 n1] rest Hn1 _ IHrest]; intros s1; [reflexivity|].
      cbn [walkEntries]. simpl in Hn1. rewrite Hn1.
      destruct (walkDir fn _ name1 n1 s1); simpl; try reflexivity.
      apply IHrest.
    + destruct (IsDir _); reflexivity.
Qed.

Lemma WalkDir_appending w rt fn (Hfn : appending fn) acc l :
  WalkDir w rt fn (acc ++ l) = mapStatus (app acc) (WalkDir w rt fn l).
Proof.
  unfold WalkDir. destruct (os.lookup w rt) as [e|n].
  - rewrite Hfn. destruct (fn rt None (Some e) l); reflexivity.
  - rewrite (walkDir_appending fn Hfn).
    destruct (walkDir fn rt _ n l); reflexivity.
Qed.

Lemma walkOrFatal_world {S} rt (fn : World -> WalkDirFunc S) s w o w' :
  walkOrFatal rt fn s w = (o, w') -> w' = w.
Proof.
  unfold walkOrFatal. destruct (WalkDir (fs w) rt (fn w) s); congruence.
Qed.

Lemma dirExists_world path w o w' : dirExists path w = (o, w') -> w' = w.
Proof.
  unfold dirExists. destruct (os.Stat (fs w) path) as [[]|]; congruence.
Qed.

Lemma currentExePath_world w o w' : currentExePath w = (o, w') -> w' = w.
Proof. unfold currentExePath. destruct (executable w); congruence. Qed.

Lemma filterPaths_world candidates : forall paths w o w',
  filterPaths candidates paths w = (o, w') -> w' = w.
Proof.
  induction candidates as [|path rest IH]; intros paths w o w' H.
  - inversion H; reflexivity.
  - cbn [filterPaths] in H. unfold bind in H.
    destruct (dirExists path w) as [[[|]|e|] w1] eqn:Hd;
      apply dirExists_world in Hd; subst w1; try congruence.
    + destruct (walkOrFatal path _ false w) as [[b|e|] w1] eqn:Hw;
        apply walkOrFatal_world in Hw; subst w1; try congruence.
      destruct (negb b); eapply IH; eassumption.
    + eapply IH; eassumption.
Qed.

Lemma WalkDir_not_SkipDir {S} w rt (fn : WalkDirFunc S) s s' :
  WalkDir w rt fn s <> SkipDir s'.
Proof.
  unfold WalkDir. destruct (os.lookup w rt) as [e|n].
  - destruct (fn rt None (Some e) s); discriminate.
  - destruct (walkDir fn rt _ n s); discriminate.
Qed.

(** A walk of the second pass that returns normally has appended what
    [found] lists. *)
Lemma walkOrFatal_collect path acc w allExe w' :
  walkOrFatal path (collectFunc path) acc w = (Done allExe, w') ->
  w' = w /\ allExe = acc ++ found w path.
Proof.
  intros H. split; [eapply walkOrFatal_world; eassumption|].
  unfold walkOrFatal in H. unfold found.
  pose proof (WalkDir_appending (fs w) path _ (collectFunc_appending path w) acc [])
    as Happ.
  rewrite app_nil_r in Happ. rewrite Happ in H.
  destruct (WalkDir (fs w) path (collectFunc path w) []) eqn:E; simpl in H;
    try discriminate; try congruence.
  destruct (WalkDir_not_SkipDir _ _ _ _ _ E).
Qed.

(** ** Discovery: reversal and last write *)

Lemma foundAll_app w l1 l2 :
  foundAll w (l1 ++ l2) = foundAll w l1 ++ foundAll w l2.
Proof.
  induction l1 as [|d l1 IH]; simpl; [reflexivity|].
  now rewrite IH, app_assoc.
Qed.

Lemma elem_of_foundAll w paths p :
  p ∈ foundAll w paths <-> exists d, d ∈ paths /\ p ∈ found w d.
Proof.
  induction paths as [|d paths IH]; simpl.
  - split; [intros H; inversion H|intros (d & H & _); inversion H].
  - rewrite elem_of_app, IH. split.
    + intros [H|(d' & Hd & Hp)].
      * exists d. split; [left|exact H].
      * exists d'. split; [now right|exact Hp].
    + intros (d' & Hd & Hp). apply elem_of_cons in Hd as [->|Hd].
      * now left.
      * right. now exists d'.
Qed.

Lemma collect_spec paths : forall acc w allExe w',
  collect paths acc w = (Done allExe, w') ->
  w' = w /\ allExe = acc ++ foundAll w paths.
Proof.
  induction paths as [|d paths IH]; intros acc w allExe w' H.
  - inversion H. now rewrite app_nil_r.
  - cbn [collect] in H. unfold bind in H.
    destruct (walkOrFatal d (collectFunc d) acc w) as [[l|e|] w1] eqn:Hw;
      try discriminate.
    apply walkOrFatal_collect in Hw as [-> ->].
    apply IH in H as [-> ->]. split; [reflexivity|].
    simpl. now rewrite app_assoc.
Qed.

Lemma collect_world paths : forall acc w o w',
  collect paths acc w = (o, w') -> w' = w.
Proof.
  induction paths as [|d paths IH]; intros acc w o w' H.
  - inversion H; reflexivity.
  - cbn [collect] in H. unfold bind in H.
    destruct (walkOrFatal d (collectFunc d) acc w) as [[l|e|] w1] eqn:Hw;
      apply walkOrFatal_world in Hw; subst w1; try congruence.
    eapply IH; eassumption.
Qed.

Lemma fold_insert_lookup (allExe : list string) name :
  forall m : gmap string string,
    fold_left (fun exeMap exePath => <[filepath.Base exePath := exePath]> exeMap)
      allExe m !! name
    = match last (named name allExe) with
      | Some p => Some p
      | None => m !! name
      end.
Proof.
  induction allExe as [|p l IH]; intros m; [reflexivity|].
  cbn [fold_left]. rewrite IH. unfold named.
  destruct (decide (filepath.Base p = name)) as [E|E].
  - rewrite filter_cons_True by exact E. rewrite last_cons.
    destruct (last (filter _ l)); [reflexivity|].
    rewrite E. apply lookup_insert_eq.
  - rewrite filter_cons_False by exact E.
    destruct (last (filter _ l)); [reflexivity|].
    now apply lookup_insert_ne.
Qed.

(** The map keeps, for every name, the last path collected under it. *)
Lemma buildExeMap_lookup allExe name :
  buildExeMap allExe !! name = last (named name allExe).
Proof.
  unfold buildExeMap. rewrite fold_insert_lookup.
  destruct (last (named name allExe)); [reflexivity|apply lookup_empty].
Qed.

Lemma discover_spec paths w exeMap w' :
  discover paths w = (Done exeMap, w') ->
  w' = w /\ exeMap = buildExeMap (foundAll w (reverse paths)).
Proof.
  unfold discover. rewrite inPlaceReverse_reverse. unfold bind. intros H.
  destruct (collect (reverse paths) [] w) as [[l|e|] w1] eqn:Hc;
    try discriminate.
  apply collect_spec in Hc as [-> ->]. inversion H. auto.
Qed.

Lemma discover_world paths w o w' : discover paths w = (o, w') -> w' = w.
Proof.
  unfold discover. rewrite inPlaceReverse_reverse. unfold bind. intros H.
  destruct (collect (reverse paths) [] w) as [[l|e|] w1] eqn:Hc;
    apply collect_world in Hc; subst w1; inversion H; reflexivity.
Qed.

Lemma named_nil name l :
  (forall q, q ∈ l -> filepath.Base q <> name) -> named name l = [].
Proof.
  intros H. unfold named. induction l as [|q l IH]; [reflexivity|].
  rewrite filter_cons_False by (apply H; left).
  apply IH. intros q' Hq'. apply H. now right.
Qed.

(** The precedence rule on the list handed to the second pass. *)
Lemma discover_precedence paths w exeMap w' before d after name p :
  discover paths w = (Done exeMap, w') ->
  paths = before ++ d :: after ->
  (forall d' q, d' ∈ before -> q ∈ found w d' -> filepath.Base q <> name) ->
  last (named name (found w d)) = Some p ->
  exeMap !! name = Some p.
Proof.
  intros Hd -> Hbefore Hp.
  apply discover_spec in Hd as [_ ->].
  rewrite buildExeMap_lookup.
  rewrite reverse_app, reverse_cons, <- app_assoc, !foundAll_app.
  unfold named in *. rewrite !filter_app.
  cbn [foundAll]. rewrite app_nil_r.
  fold (named name (foundAll w (reverse before))).
  rewrite (named_nil name (foundAll w (reverse before))).
  - rewrite app_nil_r, last_app, Hp. reflexivity.
  - intros q Hq. apply elem_of_foundAll in Hq as (d' & Hd' & Hq).
    rewrite elem_of_reverse in Hd'. exact (Hbefore d' q Hd' Hq).
Qed.

(** C1.  The directories are walked in reverse and the map keeps the last
    write: a name found in the directory [d] of the search-path list, and in
    no directory listed before [d], is mapped to the path found for it in
    [d], whatever the directories listed after [d] hold under that name. *)
Theorem discover_first_directory_wins paths w exeMap w' before d after name p :
  discover paths w = (Done exeMap, w') ->
  paths = before ++ d :: after ->
  (forall d' q, d' ∈ before -> q ∈ found w d' -> filepath.Base q <> name) ->
  last (named name (found w d)) = Some p ->
  exeMap !! name = Some p.
Proof. apply discover_precedence. Qed.

Lemma discover_first_directory_wins_witness :
  discover ["/usr/bin"; "/usr/local/bin"] scenarioWorld
  = (Done scenarioMap, scenarioWorld) /\
  named "foo" (found scenarioWorld "/usr/bin") = ["/usr/bin/foo"] /\
  named "foo" (found scenarioWorld "/usr/local/bin") = ["/usr/local/bin/foo"] /\
  scenarioMap !! "foo" = Some "/usr/bin/foo".
Proof.
  split; [vm_compute; reflexivity|].
  split; [vm_compute; reflexivity|].
  split; [vm_compute; reflexivity|].
  apply (discover_first_directory_wins ["/usr/bin"; "/usr/local/bin"]
           scenarioWorld scenarioMap scenarioWorld
           [] "/usr/bin" ["/usr/local/bin"] "foo" "/usr/bin/foo").
  - vm_compute; reflexivity.
  - reflexivity.
  - intros d' q H. inversion H.
  - vm_compute; reflexivity.
Defined.

(** ** The phases of a run that ends normally *)

Lemma run_phases args w exeMap w' :
  rootCommandFunction args w = (Done exeMap, w') ->
  exists paths w1 mode wc w2,
    filterPaths (Split (os.Getenv_PATH w) ":") [] w = (Done paths, w) /\
    checkExisting (filepath.Join [BinPath args; Prefix args]) w = (Done tt, w1) /\
    createDirectory args (filepath.Join [BinPath args; Prefix args]) w1
    = (Done mode, wc) /\
    discover paths wc = (Done exeMap, wc) /\
    populate args (filepath.Join [BinPath args; Prefix args]) mode
      (map_to_list exeMap) wc = (Done tt, w2) /\
    w' = withStdout w2 (stdout w2 +:+ sentinel +:+ nl).
Proof.
  unfold rootCommandFunction, bind. intros H.
  destruct (currentExePath w) as [[exe|e|] w0] eqn:H0; try discriminate.
  apply currentExePath_world in H0. subst w0.
  destruct (filterPaths _ [] w) as [[paths|e|] w0] eqn:H1; try discriminate.
  pose proof (filterPaths_world _ _ _ _ _ H1). subst w0.
  destruct (checkExisting _ w) as [[[]|e|] w1] eqn:H2; try discriminate.
  destruct (createDirectory args _ w1) as [[mode|e|] wc] eqn:H3;
    try discriminate.
  destruct (discover paths wc) as [[m|e|] wc'] eqn:H4; try discriminate.
  pose proof (discover_world _ _ _ _ H4). subst wc'.
  destruct (populate args _ mode (map_to_list m) wc) as [[[]|e|] w2] eqn:H5;
    try discriminate.
  unfold Print, ret in H. inversion H. subst.
  exists paths, w1, mode, wc, w2. auto 10.
Qed.

(** ** The marker filter *)

Lemma IsDir_File name m c : IsDir (os.infoOf name (File m c)) = false.
Proof.
  unfold IsDir, os.infoOf, Mode.
  rewrite <- Z.land_assoc. change (Z.land ModePerm ModeDir) with 0%Z.
  now rewrite Z.land_0_r.
Qed.

Lemma IsDir_Dir name m es : IsDir (os.infoOf name (Dir m es)) = true.
Proof.
  unfold IsDir, os.infoOf, Mode.
  rewrite Z.land_lor_distr_l. change (Z.land ModeDir ModeDir) with ModeDir.
  destruct (Z.eqb_spec (Z.lor ModeDir (Z.land (Z.land (perm m) ModePerm) ModeDir)) 0)
    as [E|E]; [|reflexivity].
  apply Z.lor_eq_0_iff in E as [E _]. discriminate E.
Qed.

(** The first walk never fails and never clears its flag. *)
Lemma walkDir_marker rt n : forall path name b,
  exists b', walkDir (markerFunc rt) path name n b = Nil b' /\
             (b = true -> b' = true).
Proof.
  induction n as [m c|m es IH] using node_induction; intros path name b.
  - rewrite walkDir_unfold. unfold markerFunc.
    rewrite IsDir_File, andb_false_r. cbn [Name os.infoOf].
    destruct (String.eqb name btbMarker); eauto.
  - rewrite walkDir_unfold. unfold markerFunc at 1.
    rewrite IsDir_Dir, andb_true_r. cbn [Name os.infoOf].
    destruct (negb (String.eqb name (filepath.Base rt))); [eauto|].
    assert (Hes : forall b0, exists b', walkEntries (markerFunc rt) path es b0 = Nil b'
                               /\ (b0 = true -> b' = true)).
    { induction IH as [|[name1 n1] rest Hn1 _ IHrest]; intros b0; [simpl; eauto|].
      cbn [walkEntries]. simpl in Hn1.
      destruct (Hn1 (filepath.Join [path; name1]) name1 b0) as (b1 & -> & Hb1).
      destruct (IHrest b1) as (b2 & -> & Hb2). eauto. }
    destruct (String.eqb name btbMarker).
    + destruct (Hes true) as (b' & -> & Hb'). eauto.
    + destruct (Hes b) as (b' & -> & Hb'). eauto.
Qed.

Lemma walkEntries_marker rt path es : forall b,
  exists b', walkEntries (markerFunc rt) path es b = Nil b' /\
             (b = true \/ existsb isMarkerFile es = true -> b' = true).
Proof.
  induction es as [|[name1 n1] rest IH]; intros b.
  - exists b. simpl. split; [reflexivity|]. intros [H|H]; [exact H|discriminate].
  - cbn [walkEntries existsb].
    destruct (walkDir_marker rt n1 (filepath.Join [path; name1]) name1 b)
      as (b1 & Hw & Hb1).
    assert (Hmark : isMarkerFile (name1, n1) = true -> b1 = true).
    { intros Hm. destruct n1 as [m c|m es]; [|discriminate]. simpl in Hm.
      rewrite walkDir_unfold in Hw. unfold markerFunc in Hw.
      rewrite IsDir_File, andb_false_r in Hw. cbn [Name os.infoOf] in Hw.
      rewrite Hm in Hw. congruence. }
    rewrite Hw. destruct (IH b1) as (b2 & -> & Hb2).
    exists b2. split; [reflexivity|]. intros [H|H].
    + apply Hb2. left. auto.
    + apply orb_true_iff in H as [H|H]; apply Hb2; [left; auto|right; exact H].
Qed.

Lemma walkDir_marker_root d m es :
  existsb isMarkerFile es = true ->
  walkDir (markerFunc d) d (filepath.Base d) (Dir m es) false = Nil true.
Proof.
  intros H. rewrite walkDir_unfold. unfold markerFunc at 1.
  rewrite IsDir_Dir, andb_true_r. cbn [Name os.infoOf].
  rewrite String.eqb_refl. cbn [negb].
  destruct (String.eqb (filepath.Base d) btbMarker).
  - destruct (walkEntries_marker d d es true) as (b' & -> & Hb').
    rewrite Hb'; auto.
  - destruct (walkEntries_marker d d es false) as (b' & -> & Hb').
    rewrite Hb'; auto.
Qed.

(** A directory that lists a marker file is recognised by the first walk. *)
Lemma WalkDir_marker_found f d :
  hasMarkerFile f d = true -> WalkDir f d (markerFunc d) false = Nil true.
Proof.
  unfold hasMarkerFile, WalkDir. intros H.
  destruct (os.lookup f d) as [e|[m c|m es]]; try discriminate.
  now rewrite (walkDir_marker_root d m es H).
Qed.

(** What the filter lets through. *)
Lemma filterPaths_spec candidates : forall acc w paths w',
  filterPaths candidates acc w = (Done paths, w') ->
  forall d, d ∈ paths ->
    d ∈ acc \/
    (d ∈ candidates /\ dirExists d w = (Done true, w) /\
     WalkDir (fs w) d (markerFunc d) false = Nil false).
Proof.
  induction candidates as [|c rest IH]; intros acc w paths w' H d Hd.
  - inversion H; subst. now left.
  - cbn [filterPaths] in H. unfold bind in H.
    destruct (dirExists c w) as [[[|]|e|] w1] eqn:Hex; try discriminate;
      pose proof (dirExists_world _ _ _ _ Hex); subst w1.
    + destruct (walkOrFatal c _ false w) as [[b|e|] w1] eqn:Hw;
        try discriminate.
      pose proof (walkOrFatal_world _ _ _ _ _ _ Hw). subst w1.
      destruct b; cbn [negb] in H.
      * destruct (IH _ _ _ _ H d Hd) as [Ha|(Hc & Hr)]; [now left|].
        right. split; [now right|exact Hr].
      * destruct (IH _ _ _ _ H d Hd) as [Ha|(Hc & Hr)].
        -- apply elem_of_app in Ha as [Ha|Ha]; [now left|].
           apply list_elem_of_singleton in Ha. subst d. right.
           split; [now left|]. split; [exact Hex|].
           unfold walkOrFatal in Hw.
           destruct (WalkDir (fs w) c (markerFunc c) false) eqn:E;
             try discriminate; try congruence.
           destruct (WalkDir_not_SkipDir _ _ _ _ _ E).
        -- right. split; [now right|exact Hr].
    + destruct (IH _ _ _ _ H d Hd) as [Ha|(Hc & Hr)]; [now left|].
      right. split; [now right|exact Hr].
Qed.

(** C4, as the code has it.  In a run that ends normally every discovered
    executable was collected by the walk of a search-path entry that passed
    the filter, and an entry that names a directory with a marker file at
    the time the search path is filtered does not pass it. *)
Theorem marked_directories_not_searched args w exeMap w' :
  rootCommandFunction args w = (Done exeMap, w') ->
  exists paths wc,
    filterPaths (Split (os.Getenv_PATH w) ":") [] w = (Done paths, w) /\
    discover paths wc = (Done exeMap, wc) /\
    (forall name p, exeMap !! name = Some p ->
       exists d, d ∈ paths /\ p ∈ found wc d) /\
    (forall d, d ∈ paths ->
       d ∈ Split (os.Getenv_PATH w) ":" /\ hasMarkerFile (fs w) d = false).
Proof.
  intros H. apply run_phases in H
    as (paths & w1 & mode & wc & w2 & Hf & _ & _ & Hd & _ & _).
  exists paths, wc. split; [exact Hf|]. split; [exact Hd|]. split.
  - intros name p Hp. apply discover_spec in Hd as [_ ->].
    rewrite buildExeMap_lookup in Hp.
    apply last_Some_elem_of in Hp. unfold named in Hp.
    apply list_elem_of_filter in Hp as [_ Hp].
    apply elem_of_foundAll in Hp as (d & Hd & Hp).
    exists d. split; [now apply elem_of_reverse|exact Hp].
  - intros d Hd'.
    destruct (filterPaths_spec _ _ _ _ _ Hf d Hd') as [Ha|(Hc & _ & Hw)];
      [inversion Ha|].
    split; [exact Hc|].
    destruct (hasMarkerFile (fs w) d) eqn:E; [|reflexivity].
    rewrite (WalkDir_marker_found (fs w) d E) in Hw. discriminate.
Qed.

Lemma marked_directories_not_searched_witness :
  rootCommandFunction scenarioArgs scenarioWorld = (Done scenarioMap, scenarioEnd)
  /\ exists paths wc,
    filterPaths (Split (os.Getenv_PATH scenarioWorld) ":") [] scenarioWorld
    = (Done paths, scenarioWorld) /\
    discover paths wc = (Done scenarioMap, wc) /\
    (forall name p, scenarioMap !! name = Some p ->
       exists d, d ∈ paths /\ p ∈ found wc d) /\
    (forall d, d ∈ paths ->
       d ∈ Split (os.Getenv_PATH scenarioWorld) ":"
       /\ hasMarkerFile (fs scenarioWorld) d = false).
Proof.
  split; [vm_compute; reflexivity|].
  apply (marked_directories_not_searched scenarioArgs scenarioWorld
           scenarioMap scenarioEnd).
  vm_compute; reflexivity.
Defined.

(** C4 as stated fails.  With the shim [/out/pre/pre-foo] of an earlier run
    listed on PATH, the run discovers it, although the directory [/out/pre]
    it lies in lists the marker file before and after the run: the filter
    examines the entry itself, which is no directory. *)
Lemma shim_on_PATH_is_discovered :
  hasMarkerFile (fs shimPathWorld) "/out/pre" = true /\
  filepath.Join ["/out/pre"; "pre-foo"] = "/out/pre/pre-foo" /\
  fst (rootCommandFunction scenarioArgs shimPathWorld)
  = Done {["pre-foo" := "/out/pre/pre-foo"]} /\
  hasMarkerFile (fs (snd (rootCommandFunction scenarioArgs shimPathWorld))) "/out/pre"
  = true.
Proof. repeat split; vm_compute; reflexivity. Qed.

(** The marker can also appear between the filter and the walk: an output
    directory that is on PATH and has no marker yet passes the filter, is
    recreated with its marker, and the marker itself is then collected. *)
Example marker_created_after_filter :
  hasMarkerFile (fs staleWorld) "/out/pre" = false /\
  fst (rootCommandFunction staleArgs staleWorld)
  = Done {[".btbMarker" := "/out/pre/.btbMarker"]} /\
  ReadDirNames (fs (snd (rootCommandFunction staleArgs staleWorld))) "/out/pre"
  = Some [".btbMarker"; "pre-.btbMarker"].
Proof. repeat split; vm_compute; reflexivity. Qed.

(** ** Path elements *)

Section Elements.

Lemma Split_nonempty s sep : Split s sep <> [].
Proof.
  destruct s as [|c r]; [discriminate|]. cbn [Split].
  destruct (Ascii.eqb c sep); [discriminate|].
  destruct (Split r sep); discriminate.
Qed.

Lemma Split_no_sep s sep : hasByte sep s = false -> Split s sep = [s].
Proof.
  induction s as [|c r IH]; [reflexivity|]. cbn [hasByte Split]. intros H.
  apply orb_false_iff in H as [Hc Hr]. rewrite Hc, (IH Hr). reflexivity.
Qed.

Lemma Split_app a b sep :
  Split (a +:+ String sep b) sep = Split a sep ++ Split b sep.
Proof.
  induction a as [|c a IH].
  - cbn [String.append Split]. now rewrite Ascii.eqb_refl.
  - cbn [String.append Split]. rewrite IH.
    destruct (Ascii.eqb c sep); [reflexivity|].
    pose proof (Split_nonempty a sep).
    destruct (Split a sep); [contradiction|reflexivity].
Qed.

Lemma Split_pieces s sep : Forall (fun c => hasByte sep c = false) (Split s sep).
Proof.
  induction s as [|c r IH]; [repeat constructor|]. cbn [Split].
  destruct (Ascii.eqb c sep) eqn:E; [constructor; [reflexivity|exact IH]|].
  pose proof (Split_nonempty r sep).
  destruct (Split r sep) as [|h t]; [contradiction|].
  inversion IH; subst. constructor; [|assumption].
  cbn [hasByte]. now rewrite E.
Qed.

Lemma nonEmpty_true c : filepath.nonEmpty c = true <-> c <> "".
Proof.
  unfold filepath.nonEmpty. destruct (String.eqb_spec c ""); split; intros H;
    try congruence; try discriminate; reflexivity.
Qed.

Lemma elements_isElement path : Forall isElement (filepath.elements path).
Proof.
  unfold filepath.elements.
  pose proof (Split_pieces path filepath.Separator) as H.
  induction H as [|c l Hc _ IH]; [constructor|].
  rewrite filter_cons. destruct (decide (filepath.nonEmpty c = true)) as [E|E];
    [|exact IH].
  constructor; [|exact IH]. split; [now apply nonEmpty_true|exact Hc].
Qed.

Lemma elements_app a b :
  filepath.elements (a +:+ "/" +:+ b)
  = filepath.elements a ++ filepath.elements b.
Proof.
  unfold filepath.elements.
  change ("/" +:+ b) with (String filepath.Separator b).
  now rewrite Split_app, filter_app.
Qed.

Lemma elements_element c : isElement c -> filepath.elements c = [c].
Proof.
  intros [Hne Hs]. unfold filepath.elements, filepath.Separator.
  rewrite (Split_no_sep c _ Hs). rewrite filter_cons_True; [reflexivity|].
  now apply nonEmpty_true.
Qed.

Lemma elements_empty : filepath.elements "" = [].
Proof. reflexivity. Qed.

Lemma elements_Join l :
  Forall isElement l -> filepath.elements (strings.Join l "/") = l.
Proof.
  induction l as [|x l IH]; intros H; [reflexivity|].
  inversion H as [|? ? Hx Hl]; subst.
  destruct l as [|y l].
  - cbn [strings.Join]. now apply elements_element.
  - change (strings.Join (x :: y :: l) "/")
      with (x +:+ "/" +:+ strings.Join (y :: l) "/").
    rewrite elements_app, (elements_element x Hx), (IH Hl). reflexivity.
Qed.

Lemma isName_isElement c : isName c -> isElement c.
Proof. now intros [H _]. Qed.

Lemma dotdot_isElement : isElement "..".
Proof. split; [discriminate|reflexivity]. Qed.

Lemma cleaned_isElement rooted kept :
  cleaned rooted kept -> Forall isElement kept.
Proof.
  intros (k & names & -> & _ & Hn). apply Forall_app. split.
  - apply Forall_forall. intros c Hc. apply elem_of_replicate in Hc as [-> _].
    exact dotdot_isElement.
  - eapply Forall_impl; [exact Hn|]. intros c. apply isName_isElement.
Qed.

Lemma elements_render rooted kept :
  cleaned rooted kept ->
  filepath.elements (filepath.render rooted kept)
  = if rooted then kept else match kept with [] => ["."] | _ => kept end.
Proof.
  intros Hc. pose proof (cleaned_isElement _ _ Hc) as He.
  unfold filepath.render. destruct rooted.
  - change ("/" +:+ strings.Join kept "/")
      with ("" +:+ "/" +:+ strings.Join kept "/").
    rewrite elements_app, elements_empty. now apply elements_Join.
  - destruct kept as [|c kept]; [reflexivity|]. now apply elements_Join.
Qed.

End Elements.

(** ** The shape of cleaned paths *)

Section Clean.

Lemma isName_not_dot c : isName c -> String.eqb c "." = false.
Proof. intros (_ & H & _). now apply String.eqb_neq. Qed.

Lemma isName_not_dotdot c : isName c -> String.eqb c ".." = false.
Proof. intros (_ & _ & H). now apply String.eqb_neq. Qed.

Lemma cleaned_nil rooted : cleaned rooted [].
Proof. exists 0, []. repeat split; auto. Qed.

Lemma replicate_snoc {A} n (x : A) : replicate n x ++ [x] = replicate (S n) x.
Proof. induction n as [|n IH]; simpl; [reflexivity|]. now rewrite IH. Qed.

Lemma last_replicate {A} n (x : A) : last (replicate (S n) x) = Some x.
Proof. rewrite <- replicate_snoc. apply last_snoc. Qed.

Lemma cleanStep_name rooted kept c :
  isName c -> filepath.cleanStep rooted kept c = kept ++ [c].
Proof.
  intros H. unfold filepath.cleanStep.
  now rewrite (isName_not_dot c H), (isName_not_dotdot c H).
Qed.

Lemma cleanStep_cleaned rooted kept c :
  cleaned rooted kept -> isElement c ->
  cleaned rooted (filepath.cleanStep rooted kept c).
Proof.
  intros (k & names & -> & Hk & Hn) Hc. unfold filepath.cleanStep.
  destruct (String.eqb_spec c "."); [exists k, names; auto|].
  destruct (String.eqb_spec c "..") as [->|Hdd].
  - destruct names as [|p names _] using rev_ind.
    + rewrite app_nil_r. destruct k as [|k].
      * simpl. destruct rooted; [apply cleaned_nil|].
        exists 1, []. repeat split; auto. discriminate.
      * rewrite last_replicate. simpl String.eqb. cbn match.
        rewrite replicate_snoc. exists (S (S k)), [].
        rewrite app_nil_r. repeat split; auto.
        intros Hr. specialize (Hk Hr). discriminate.
    + rewrite app_assoc, last_snoc.
      apply Forall_app in Hn as [Hn Hp]. inversion Hp as [|? ? Hp' _]; subst.
      rewrite (isName_not_dotdot p Hp'), removelast_last.
      exists k, names. auto.
  - exists k, (names ++ [c]). rewrite app_assoc. repeat split; auto.
    apply Forall_app. split; [exact Hn|]. constructor; [|constructor].
    repeat split; try apply Hc; assumption.
Qed.

Lemma fold_cleanStep_cleaned rooted els : forall kept,
  cleaned rooted kept -> Forall isElement els ->
  cleaned rooted (fold_left (filepath.cleanStep rooted) els kept).
Proof.
  induction els as [|c els IH]; intros kept Hk He; [exact Hk|].
  inversion He; subst. cbn [fold_left]. apply IH; [|assumption].
  now apply cleanStep_cleaned.
Qed.

Lemma fold_cleanStep_names rooted names : forall acc,
  Forall isName names ->
  fold_left (filepath.cleanStep rooted) names acc = acc ++ names.
Proof.
  induction names as [|c names IH]; intros acc H; [now rewrite app_nil_r|].
  inversion H; subst. cbn [fold_left].
  rewrite cleanStep_name by assumption. rewrite IH by assumption.
  now rewrite <- app_assoc.
Qed.

Lemma fold_cleanStep_dots k : forall j,
  fold_left (filepath.cleanStep false) (replicate k "..") (replicate j "..")
  = replicate (j + k) "..".
Proof.
  induction k as [|k IH]; intros j; [now rewrite Nat.add_0_r|].
  cbn [replicate fold_left].
  assert (Hstep : filepath.cleanStep false (replicate j "..") ".."
                  = replicate (S j) "..").
  { unfold filepath.cleanStep. simpl String.eqb. cbn match.
    destruct j as [|j]; [reflexivity|].
    rewrite last_replicate. simpl String.eqb. cbn match.
    apply replicate_snoc. }
  rewrite Hstep, IH. f_equal. lia.
Qed.

(** Cleaning what is clean changes nothing. *)
Lemma fold_cleanStep_id rooted kept :
  cleaned rooted kept ->
  fold_left (filepath.cleanStep rooted) kept [] = kept.
Proof.
  intros (k & names & -> & Hk & Hn). rewrite fold_left_app.
  destruct rooted.
  - rewrite (Hk eq_refl). simpl. now apply fold_cleanStep_names.
  - pose proof (fold_cleanStep_dots k 0) as Hd. cbn [replicate] in Hd.
    rewrite Hd. simpl. now apply fold_cleanStep_names.
Qed.

Lemma Clean_cleaned path :
  exists kept, filepath.Clean path = filepath.render (filepath.IsAbs path) kept
               /\ cleaned (filepath.IsAbs path) kept.
Proof.
  unfold filepath.Clean. destruct (String.eqb_spec path "") as [->|Hne].
  - exists []. split; [reflexivity|apply cleaned_nil].
  - eexists. split; [reflexivity|].
    apply fold_cleanStep_cleaned; [apply cleaned_nil|apply elements_isElement].
Qed.

Lemma isElement_head c : isElement c -> exists x r, c = String x r /\ Ascii.eqb x "/" = false.
Proof.
  intros [Hne Hs]. destruct c as [|x r]; [contradiction|].
  exists x, r. split; [reflexivity|]. cbn [hasByte] in Hs.
  now apply orb_false_iff in Hs as [Hs _].
Qed.

Lemma IsAbs_slash x : filepath.IsAbs ("/" +:+ x) = true.
Proof.
  unfold filepath.IsAbs. change ("/" +:+ x) with (String "/" x).
  cbn [HasPrefix]. now rewrite HasPrefix_nil.
Qed.

Lemma IsAbs_render rooted kept :
  cleaned rooted kept -> filepath.IsAbs (filepath.render rooted kept) = rooted.
Proof.
  intros Hc. pose proof (cleaned_isElement _ _ Hc) as He.
  unfold filepath.render. destruct rooted; [apply IsAbs_slash|].
  destruct kept as [|c kept]; [reflexivity|].
  inversion He as [|? ? Hc' _]; subst.
  destruct (isElement_head c Hc') as (x & r & -> & Hx).
  unfold filepath.IsAbs. destruct kept; cbn [strings.Join String.append HasPrefix];
    now rewrite Hx.
Qed.

Lemma render_nonempty rooted kept :
  cleaned rooted kept -> filepath.render rooted kept <> "".
Proof.
  intros Hc. pose proof (cleaned_isElement _ _ Hc) as He.
  unfold filepath.render. destruct rooted; [discriminate|].
  destruct kept as [|c kept]; [discriminate|].
  inversion He as [|? ? Hc' _]; subst.
  destruct (isElement_head c Hc') as (x & r & -> & Hx).
  destruct kept; discriminate.
Qed.

Lemma IsAbs_append a b : a <> "" -> filepath.IsAbs (a +:+ b) = filepath.IsAbs a.
Proof.
  destruct a; [contradiction|]. intros _. unfold filepath.IsAbs.
  cbn [String.append HasPrefix]. now rewrite !HasPrefix_nil.
Qed.

(** Joining a name to a clean path appends it. *)
Lemma Join_name rooted kept name :
  cleaned rooted kept -> isName name ->
  filepath.Join [filepath.render rooted kept; name]
  = filepath.render rooted (kept ++ [name]).
Proof.
  intros Hc Hn. pose proof (render_nonempty _ _ Hc) as Hne.
  cbn [filepath.Join]. apply String.eqb_neq in Hne as Hne'. rewrite Hne'.
  cbn [strings.Join]. unfold filepath.Clean.
  destruct (String.eqb_spec (filepath.render rooted kept +:+ "/" +:+ name) "")
    as [E|_].
  { destruct (filepath.render rooted kept); [contradiction|discriminate]. }
  rewrite IsAbs_append, (IsAbs_render _ _ Hc) by exact Hne.
  rewrite elements_app, (elements_element name (isName_isElement _ Hn)).
  rewrite fold_left_app, (elements_render _ _ Hc). cbn [fold_left].
  assert (Hfold : fold_left (filepath.cleanStep rooted)
            (if rooted then kept
             else match kept with [] => ["."] | _ => kept end) [] = kept).
  { destruct rooted; [now apply fold_cleanStep_id|].
    destruct kept; [reflexivity|now apply fold_cleanStep_id]. }
  rewrite Hfold. now rewrite cleanStep_name.
Qed.

End Clean.

(** ** Updates of the file tree *)

Section Tree.

Lemma lookupEntry_remove name es name' :
  lookupEntry name' (setEntry name None es)
  = if decide (name' = name) then None else lookupEntry name' es.
Proof.
  cbn [setEntry]. induction es as [|[k v] rest IH].
  - now destruct (decide (name' = name)).
  - rewrite filter_cons. cbn [fst lookupEntry].
    destruct (String.eqb_spec k name) as [->|Hk]; cbn [negb].
    + destruct (decide (false = true)); [discriminate|]. rewrite IH.
      destruct (decide (name' = name)) as [->|Hn]; [reflexivity|].
      destruct (String.eqb_spec name name'); [congruence|reflexivity].
    + destruct (decide (true = true)); [|contradiction]. cbn [lookupEntry].
      rewrite IH. destruct (String.eqb_spec k name') as [->|Hk'];
        [|reflexivity].
      destruct (decide (name' = name)); [contradiction|reflexivity].
Qed.

Lemma lookupEntry_replace name n es name' :
  lookupEntry name es <> None ->
  lookupEntry name' (replaceEntry name n es)
  = if decide (name' = name) then Some n else lookupEntry name' es.
Proof.
  induction es as [|[k v] rest IH]; intros H; [contradiction|].
  cbn [replaceEntry lookupEntry] in *.
  destruct (String.eqb_spec k name) as [->|Hk]; cbn [lookupEntry].
  - destruct (String.eqb_spec name name') as [->|Hn].
    + now destruct (decide (name' = name')).
    + destruct (decide (name' = name)); [congruence|reflexivity].
  - rewrite (IH H). destruct (String.eqb_spec k name') as [->|Hk'];
      [|reflexivity].
    destruct (decide (name' = name)); [contradiction|reflexivity].
Qed.

Lemma lookupEntry_insert name n es name' :
  lookupEntry name es = None ->
  lookupEntry name' (insertSorted name n es)
  = if decide (name' = name) then Some n else lookupEntry name' es.
Proof.
  induction es as [|[k v] rest IH]; intros H.
  - cbn [insertSorted lookupEntry].
    destruct (String.eqb_spec name name') as [->|Hn].
    + now destruct (decide (name' = name')).
    + destruct (decide (name' = name)); [congruence|reflexivity].
  - cbn [insertSorted lookupEntry] in *.
    destruct (String.eqb_spec k name) as [->|Hk]; [discriminate|].
    destruct (String.ltb name k); cbn [lookupEntry].
    + destruct (String.eqb_spec name name') as [->|Hn].
      * now destruct (decide (name' = name')).
      * destruct (decide (name' = name)); [congruence|reflexivity].
    + rewrite (IH H). destruct (String.eqb_spec k name') as [->|Hk'];
        [|reflexivity].
      destruct (decide (name' = name)); [contradiction|reflexivity].
Qed.

(** An entry that was set is read back; the others are as before. *)
Lemma lookupEntry_setEntry name new es name' :
  lookupEntry name' (setEntry name new es)
  = if decide (name' = name) then new else lookupEntry name' es.
Proof.
  destruct new as [n|]; [|apply lookupEntry_remove].
  cbn [setEntry]. destruct (lookupEntry name es) eqn:E.
  - apply lookupEntry_replace. congruence.
  - now apply lookupEntry_insert.
Qed.

Lemma lookupEntry_setEntry_eq name new es :
  lookupEntry name (setEntry name new es) = new.
Proof.
  rewrite lookupEntry_setEntry. now destruct (decide (name = name)).
Qed.

Lemma lookupEntry_setEntry_ne name new es name' :
  name' <> name ->
  lookupEntry name' (setEntry name new es) = lookupEntry name' es.
Proof.
  intros H. rewrite lookupEntry_setEntry.
  now destruct (decide (name' = name)).
Qed.

Lemma nodeAt_app rt a b :
  nodeAt rt (a ++ b)
  = match nodeAt rt a with Some n => nodeAt n b | None => None end.
Proof.
  revert rt. induction a as [|c a IH]; intros rt; [reflexivity|].
  cbn [app nodeAt]. destruct rt as [m s|m es]; [reflexivity|].
  destruct (lookupEntry c es); [apply IH|reflexivity].
Qed.

Lemma setAt_cons c l new m es :
  setAt (c :: l) new (Dir m es)
  = match l with
    | [] => Dir m (setEntry c new es)
    | _ => match lookupEntry c es with
           | Some ch => Dir m (setEntry c (Some (setAt l new ch)) es)
           | None => Dir m es
           end
    end.
Proof. destruct l; reflexivity. Qed.

Lemma setAt_Dir l new m es :
  exists es', setAt l new (Dir m es) = Dir m es'.
Proof.
  destruct l as [|c l]; [eauto|]. rewrite setAt_cons.
  destruct l; [eauto|]. destruct (lookupEntry c es); eauto.
Qed.

(** Above the place of an update the tree is rebuilt around it. *)
Lemma nodeAt_setAt_above q : forall rt l new n,
  nodeAt rt q = Some n -> l <> [] ->
  nodeAt (setAt (q ++ l) new rt) q = Some (setAt l new n).
Proof.
  induction q as [|c q IH]; intros rt l new n Hq Hl.
  - cbn in Hq. injection Hq as ->. reflexivity.
  - cbn [nodeAt] in Hq. destruct rt as [m s|m es]; [discriminate|].
    destruct (lookupEntry c es) as [ch|] eqn:Hc; [|discriminate].
    cbn [app]. rewrite setAt_cons. rewrite Hc.
    destruct (q ++ l) eqn:E.
    { apply app_eq_nil in E as [_ E]. contradiction. }
    rewrite <- E. cbn [nodeAt]. rewrite lookupEntry_setEntry_eq.
    now apply IH.
Qed.

(** The node that was set is read back. *)
Lemma nodeAt_setAt_eq rt ploc name new m es :
  nodeAt rt ploc = Some (Dir m es) ->
  nodeAt (setAt (ploc ++ [name]) new rt) (ploc ++ [name]) = new.
Proof.
  intros H. rewrite nodeAt_app.
  rewrite (nodeAt_setAt_above ploc rt [name] new _ H) by discriminate.
  cbn [setAt nodeAt]. rewrite lookupEntry_setEntry_eq.
  now destruct new.
Qed.

(** The directory in which an entry is set. *)
Lemma nodeAt_setAt_parent rt ploc name new m es :
  nodeAt rt ploc = Some (Dir m es) ->
  nodeAt (setAt (ploc ++ [name]) new rt) ploc
  = Some (Dir m (setEntry name new es)).
Proof.
  intros H.
  now rewrite (nodeAt_setAt_above ploc rt [name] new _ H) by discriminate.
Qed.

(** A directory that does not lie at or below the place of an update stays
    a directory with the meta data it had. *)
Lemma nodeAt_setAt_Dir q : forall rt loc new m es,
  ~ loc `prefix_of` q ->
  nodeAt rt q = Some (Dir m es) ->
  exists es', nodeAt (setAt loc new rt) q = Some (Dir m es').
Proof.
  induction q as [|c q IH]; intros rt loc new m es Hp Hq.
  - cbn in Hq. injection Hq as ->.
    destruct (setAt_Dir loc new m es) as [es' ->]. now exists es'.
  - cbn [nodeAt] in Hq. destruct rt as [m0 s|m0 es0]; [discriminate|].
    destruct (lookupEntry c es0) as [ch|] eqn:Hc; [|discriminate].
    destruct loc as [|c' l].
    { destruct Hp. apply prefix_nil. }
    rewrite setAt_cons.
    destruct (decide (c = c')) as [<-|Hne].
    + destruct l as [|c2 l].
      { destruct Hp. exists q. reflexivity. }
      rewrite Hc. cbn [nodeAt]. rewrite lookupEntry_setEntry_eq.
      eapply IH; [|exact Hq]. intros Hpre. apply Hp.
      now apply prefix_cons.
    + assert (Hsame : forall new', lookupEntry c (setEntry c' new' es0) = Some ch).
      { intros new'. rewrite lookupEntry_setEntry_ne by exact Hne. exact Hc. }
      destruct l as [|c2 l].
      * cbn [nodeAt]. rewrite Hsame. eauto.
      * destruct (lookupEntry c' es0); cbn [nodeAt].
        -- rewrite Hsame. eauto.
        -- rewrite Hc. eauto.
Qed.

End Tree.

(** ** Resolution of clean paths *)

Section Locate.

Lemma isDirAt_removelast rt cur : isDirAt rt cur -> isDirAt rt (removelast cur).
Proof.
  intros (m & es & H). destruct cur as [|c cur _] using rev_ind.
  - exists m, es. exact H.
  - rewrite removelast_last. rewrite nodeAt_app in H.
    destruct (nodeAt rt cur) as [[m0 s|m0 es0]|] eqn:E; cbn in H;
      try discriminate.
    now exists m0, es0.
Qed.

Lemma descend_dotdot rt cur rest m es :
  nodeAt rt cur = Some (Dir m es) ->
  descend rt cur (".." :: rest) = descend rt (removelast cur) rest.
Proof. intros H. cbn [descend]. now rewrite H. Qed.

Lemma descend_dots rt k : forall cur rest,
  isDirAt rt cur ->
  descend rt cur (replicate k ".." ++ rest) = descend rt (dropEnd k cur) rest.
Proof.
  induction k as [|k IH]; intros cur rest H; [reflexivity|].
  cbn [replicate app dropEnd]. destruct H as (m & es & H).
  rewrite (descend_dotdot _ _ _ _ _ H). apply IH.
  apply isDirAt_removelast. now exists m, es.
Qed.

Lemma descend_inr_isDirAt rt cur c rest l :
  descend rt cur (c :: rest) = inr l -> isDirAt rt cur.
Proof.
  cbn [descend].
  destruct (nodeAt rt cur) as [[m s|m es]|] eqn:E; try discriminate.
  intros _. now exists m, es.
Qed.

Lemma descend_name rt cur c rest m es :
  nodeAt rt cur = Some (Dir m es) -> isName c ->
  descend rt cur (c :: rest)
  = match lookupEntry c es with
    | Some _ => descend rt (cur ++ [c]) rest
    | None => inl ENOENT
    end.
Proof.
  intros H Hc. cbn [descend].
  now rewrite H, (isName_not_dot c Hc), (isName_not_dotdot c Hc).
Qed.

Lemma descend_names rt names : forall cur n,
  Forall isName names ->
  nodeAt rt (cur ++ names) = Some n ->
  descend rt cur names = inr (cur ++ names).
Proof.
  induction names as [|c names IH]; intros cur n Hn H.
  - now rewrite app_nil_r.
  - inversion Hn; subst. rewrite nodeAt_app in H.
    destruct (nodeAt rt cur) as [[m s|m es]|] eqn:Hcur; try discriminate.
    rewrite (descend_name _ _ _ _ _ _ Hcur) by assumption.
    cbn [nodeAt] in H.
    destruct (lookupEntry c es) as [ch|] eqn:Hc; [|discriminate].
    rewrite (IH (cur ++ [c]) n); [now rewrite <- app_assoc|assumption|].
    rewrite <- app_assoc. cbn [app]. rewrite nodeAt_app, Hcur.
    cbn [nodeAt]. now rewrite Hc.
Qed.

Lemma descend_names_inv rt names : forall cur l,
  Forall isName names ->
  descend rt cur names = inr l ->
  l = cur ++ names.
Proof.
  induction names as [|c names IH]; intros cur l Hn H.
  - cbn in H. injection H as <-. now rewrite app_nil_r.
  - inversion Hn; subst.
    destruct (descend_inr_isDirAt _ _ _ _ _ H) as (m & es & Hcur).
    rewrite (descend_name _ _ _ _ _ _ Hcur) in H by assumption.
    destruct (lookupEntry c es); [|discriminate].
    apply IH in H; [|assumption]. now rewrite <- app_assoc in H.
Qed.

Lemma descend_clean_inv rt k names cur l :
  Forall isName names ->
  descend rt cur (replicate k ".." ++ names) = inr l ->
  l = dropEnd k cur ++ names /\ (k <> 0 \/ names <> [] -> isDirAt rt cur).
Proof.
  intros Hn H. destruct k as [|k].
  - cbn [replicate app] in H. split.
    + now apply descend_names_inv in H.
    + intros [Hk|Hne]; [contradiction|].
      destruct names; [contradiction|].
      eapply descend_inr_isDirAt; eassumption.
  - assert (Hd : isDirAt rt cur).
    { cbn [replicate app] in H. eapply descend_inr_isDirAt; eassumption. }
    rewrite (descend_dots rt (S k) cur names Hd) in H.
    split; [now apply descend_names_inv in H|auto].
Qed.

Lemma Join_snoc l x sep :
  l <> [] -> strings.Join (l ++ [x]) sep = strings.Join l sep +:+ sep +:+ x.
Proof.
  induction l as [|a l IH]; intros H; [contradiction|].
  destruct l as [|b l]; [reflexivity|].
  change (strings.Join ((a :: b :: l) ++ [x]) sep)
    with (a +:+ sep +:+ strings.Join ((b :: l) ++ [x]) sep).
  rewrite IH by discriminate.
  change (strings.Join (a :: b :: l) sep)
    with (a +:+ sep +:+ strings.Join (b :: l) sep).
  now rewrite !append_assoc.
Qed.

Lemma lastByte_hasByte s c : lastByte s = Some c -> hasByte c s = true.
Proof.
  induction s as [|x s IH]; [discriminate|]. intros H. cbn [hasByte].
  destruct s as [|y s].
  - cbn in H. injection H as ->. now rewrite Ascii.eqb_refl.
  - rewrite IH; [apply orb_true_r|exact H].
Qed.

Lemma endsWithSlash_render rooted kept name :
  isElement name ->
  endsWithSlash (filepath.render rooted (kept ++ [name])) = false.
Proof.
  intros [Hne Hs]. unfold endsWithSlash.
  assert (Hl : lastByte (filepath.render rooted (kept ++ [name]))
               = lastByte name).
  { assert (Hj : lastByte (strings.Join (kept ++ [name]) "/") = lastByte name).
    { destruct kept as [|a kept]; [reflexivity|].
      rewrite Join_snoc by discriminate.
      rewrite lastByte_append; [|now apply append_nonempty_r].
      now apply lastByte_append. }
    unfold filepath.render. destruct rooted.
    - rewrite lastByte_append; [exact Hj|].
      destruct kept as [|a kept]; [exact Hne|].
      rewrite Join_snoc by discriminate. now repeat apply append_nonempty_r.
    - destruct (kept ++ [name]) eqn:E; [|exact Hj].
      destruct kept; discriminate. }
  rewrite Hl. destruct (lastByte name) as [c|] eqn:E; [|reflexivity].
  destruct (Ascii.eqb_spec c "/"); [|reflexivity]. subst c.
  apply lastByte_hasByte in E. congruence.
Qed.

Lemma cleaned_snoc rooted k names name :
  (rooted = true -> k = 0) -> Forall isName names -> isName name ->
  cleaned rooted (replicate k ".." ++ names ++ [name]).
Proof.
  intros Hk Hn Hname. exists k, (names ++ [name]). repeat split; auto.
  apply Forall_app. split; [exact Hn|]. now constructor.
Qed.

Lemma dropEnd_nil k : dropEnd k [] = [].
Proof. induction k; [reflexivity|exact IHk]. Qed.

(** What a clean path with a last name resolves to, read off the tree. *)
Lemma locate_clean f rooted k names name m es :
  (rooted = true -> k = 0) -> Forall isName names -> isName name ->
  startsOK f rooted ->
  nodeAt (root f) (baseOf f rooted k ++ names) = Some (Dir m es) ->
  locate f (filepath.render rooted (replicate k ".." ++ names ++ [name]))
  = match lookupEntry name es with
    | Some _ => Existing (baseOf f rooted k ++ names ++ [name])
    | None => Missing (baseOf f rooted k ++ names) name
    end.
Proof.
  intros Hk Hn Hname Hstart Hdir.
  pose proof (cleaned_snoc rooted k names name Hk Hn Hname) as Hc.
  unfold locate.
  pose proof (render_nonempty _ _ Hc) as Hne.
  apply String.eqb_neq in Hne. rewrite Hne.
  rewrite (IsAbs_render _ _ Hc), (elements_render _ _ Hc).
  assert (Hels : (if rooted
                  then replicate k ".." ++ names ++ [name]
                  else match replicate k ".." ++ names ++ [name] with
                       | [] => ["."]
                       | _ => replicate k ".." ++ names ++ [name]
                       end) = (replicate k ".." ++ names) ++ [name]).
  { rewrite <- app_assoc. destruct rooted; [reflexivity|].
    destruct (replicate k ".." ++ names ++ [name]) eqn:E; [|reflexivity].
    apply app_eq_nil in E as [_ E]. apply app_eq_nil in E as [_ E].
    discriminate. }
  rewrite Hels, last_snoc, removelast_last.
  assert (Hdesc : descend (root f) (if rooted then [] else cwd f)
                    (replicate k ".." ++ names)
                  = inr (baseOf f rooted k ++ names)).
  { unfold baseOf in *. destruct rooted.
    - rewrite (Hk eq_refl). cbn [replicate app].
      eapply descend_names; eassumption.
    - destruct Hstart as [Hs|Hs]; [discriminate|].
      rewrite (descend_dots _ k _ _ Hs).
      eapply descend_names; eassumption. }
  rewrite Hdesc, Hdir.
  rewrite (isName_not_dot _ Hname), (isName_not_dotdot _ Hname).
  replace (filepath.render rooted ((replicate k ".." ++ names) ++ [name]))
    with (filepath.render rooted (replicate k ".." ++ names ++ [name]))
    by now rewrite <- app_assoc.
  rewrite app_assoc.
  rewrite (endsWithSlash_render rooted _ name (isName_isElement _ Hname)).
  rewrite <- !app_assoc.
  destruct (lookupEntry name es) as [[? ?|? ?]|]; reflexivity.
Qed.

Lemma locate_clean_inv f rooted k names name t :
  (rooted = true -> k = 0) -> Forall isName names -> isName name ->
  locate f (filepath.render rooted (replicate k ".." ++ names ++ [name])) = t ->
  (forall e, t <> Unreachable e) ->
  startsOK f rooted /\ isDirAt (root f) (baseOf f rooted k ++ names).
Proof.
  intros Hk Hn Hname Ht Hreach.
  pose proof (cleaned_snoc rooted k names name Hk Hn Hname) as Hc.
  unfold locate in Ht.
  pose proof (render_nonempty _ _ Hc) as Hne.
  apply String.eqb_neq in Hne. rewrite Hne in Ht.
  rewrite (IsAbs_render _ _ Hc), (elements_render _ _ Hc) in Ht.
  assert (Hels : (if rooted
                  then replicate k ".." ++ names ++ [name]
                  else match replicate k ".." ++ names ++ [name] with
                       | [] => ["."]
                       | _ => replicate k ".." ++ names ++ [name]
                       end) = (replicate k ".." ++ names) ++ [name]).
  { rewrite <- app_assoc. destruct rooted; [reflexivity|].
    destruct (replicate k ".." ++ names ++ [name]) eqn:E; [|reflexivity].
    apply app_eq_nil in E as [_ E]. apply app_eq_nil in E as [_ E].
    discriminate. }
  rewrite Hels, last_snoc, removelast_last in Ht.
  destruct (descend (root f) (if rooted then [] else cwd f)
              (replicate k ".." ++ names)) as [e|ploc] eqn:Hd.
  { subst t. destruct (Hreach e eq_refl). }
  apply descend_clean_inv in Hd as [-> Hstart]; [|exact Hn].
  assert (Hdir : isDirAt (root f)
                   (dropEnd k (if rooted then [] else cwd f) ++ names)).
  { destruct (nodeAt (root f) _) as [[m s|m es]|] eqn:E.
    - subst t. destruct (Hreach ENOTDIR eq_refl).
    - now exists m, es.
    - subst t. destruct (Hreach ENOENT eq_refl). }
  unfold startsOK, baseOf. destruct rooted.
  - split; [now left|]. now rewrite dropEnd_nil in Hdir.
  - split; [|exact Hdir]. right.
    destruct k as [|k]; [|apply Hstart; left; discriminate].
    destruct names as [|c names]; [|apply Hstart; right; discriminate].
    cbn [dropEnd] in Hdir. now rewrite app_nil_r in Hdir.
Qed.

(** A clean path that names an existing node or a free name. *)
Lemma locate_clean_Existing f rooted k names name loc :
  (rooted = true -> k = 0) -> Forall isName names -> isName name ->
  locate f (filepath.render rooted (replicate k ".." ++ names ++ [name]))
  = Existing loc ->
  startsOK f rooted /\ loc = baseOf f rooted k ++ names ++ [name] /\
  exists m es, nodeAt (root f) (baseOf f rooted k ++ names) = Some (Dir m es)
               /\ lookupEntry name es <> None.
Proof.
  intros Hk Hn Hname H.
  destruct (locate_clean_inv f rooted k names name _ Hk Hn Hname H)
    as (Hs & m & es & Hd); [discriminate|].
  rewrite (locate_clean f rooted k names name m es Hk Hn Hname Hs Hd) in H.
  split; [exact Hs|].
  destruct (lookupEntry name es) eqn:E; [|discriminate].
  injection H as <-. split; [reflexivity|]. exists m, es.
  split; [exact Hd|]. now rewrite E.
Qed.

Lemma locate_clean_Missing f rooted k names name ploc nm :
  (rooted = true -> k = 0) -> Forall isName names -> isName name ->
  locate f (filepath.render rooted (replicate k ".." ++ names ++ [name]))
  = Missing ploc nm ->
  startsOK f rooted /\ ploc = baseOf f rooted k ++ names /\ nm = name /\
  exists m es, nodeAt (root f) ploc = Some (Dir m es)
               /\ lookupEntry name es = None.
Proof.
  intros Hk Hn Hname H.
  destruct (locate_clean_inv f rooted k names name _ Hk Hn Hname H)
    as (Hs & m & es & Hd); [discriminate|].
  rewrite (locate_clean f rooted k names name m es Hk Hn Hname Hs Hd) in H.
  split; [exact Hs|].
  destruct (lookupEntry name es) eqn:E; [discriminate|].
  injection H as <- <-. repeat split. exists m, es. auto.
Qed.

(** A clean path either ends in a name or consists of parent references. *)
Lemma cleaned_cases rooted kept :
  cleaned rooted kept ->
  (exists k, kept = replicate k ".." /\ (rooted = true -> k = 0)) \/
  (exists k names name,
     kept = replicate k ".." ++ names ++ [name] /\
     (rooted = true -> k = 0) /\ Forall isName names /\ isName name).
Proof.
  intros (k & names & -> & Hk & Hn).
  destruct names as [|name names _] using rev_ind.
  - left. exists k. now rewrite app_nil_r.
  - right. apply Forall_app in Hn as [Hn Hname].
    inversion Hname; subst. exists k, names, name. auto.
Qed.

Lemma locate_dots_not_Missing f rooted k ploc nm :
  (rooted = true -> k = 0) ->
  locate f (filepath.render rooted (replicate k "..")) <> Missing ploc nm.
Proof.
  intros Hk.
  assert (Hc : cleaned rooted (replicate k "..")).
  { exists k, []. rewrite app_nil_r. auto. }
  unfold locate.
  pose proof (render_nonempty _ _ Hc) as Hne.
  apply String.eqb_neq in Hne. rewrite Hne.
  rewrite (IsAbs_render _ _ Hc), (elements_render _ _ Hc).
  destruct rooted.
  - rewrite (Hk eq_refl). cbn. discriminate.
  - destruct k as [|k].
    + cbn [replicate last removelast descend].
      destruct (nodeAt (root f) (cwd f)) as [[? ?|? ?]|]; discriminate.
    + assert (Hl : match replicate (S k) ".." with
                   | [] => ["."]
                   | _ => replicate (S k) ".."
                   end = replicate (S k) "..") by reflexivity.
      rewrite Hl, last_replicate.
      destruct (descend _ _ _); [discriminate|].
      destruct (nodeAt (root f) l) as [[? ?|? ?]|]; discriminate.
Qed.

Lemma Split_Join l :
  l <> [] -> Forall isElement l ->
  Split (strings.Join l "/") "/" = l.
Proof.
  induction l as [|x l IH]; intros Hne H; [contradiction|].
  inversion H as [|? ? [_ Hx] Hl]; subst.
  destruct l as [|y l].
  - cbn [strings.Join]. now apply Split_no_sep.
  - change (strings.Join (x :: y :: l) "/")
      with (x +:+ String "/" (strings.Join (y :: l) "/")).
    rewrite Split_app, (Split_no_sep x _ Hx), IH; [reflexivity|discriminate|].
    exact Hl.
Qed.

Lemma RemoveAll_dots f rooted k :
  (rooted = true -> k = 0) ->
  fst (os.RemoveAll f (filepath.render rooted (replicate k ".."))) <> None.
Proof.
  intros Hk. unfold os.RemoveAll. destruct rooted.
  - rewrite (Hk eq_refl). cbn. discriminate.
  - destruct k as [|k]; [cbn; discriminate|].
    assert (Hc : cleaned false (replicate (S k) "..")).
    { exists (S k), []. rewrite app_nil_r. auto. }
    pose proof (render_nonempty _ _ Hc) as Hne.
    apply String.eqb_neq in Hne. rewrite Hne.
    assert (Hdot : os.endsWithDot (filepath.render false (replicate (S k) ".."))
                   = true).
    { unfold os.endsWithDot, filepath.render, filepath.Separator.
      change (match replicate (S k) ".." with
              | [] => "."
              | _ => strings.Join (replicate (S k) "..") "/"
              end) with (strings.Join (replicate (S k) "..") "/").
      rewrite Split_Join; [|discriminate|now apply cleaned_isElement in Hc].
      now rewrite last_replicate. }
    rewrite Hdot. discriminate.
Qed.

(** *** Updates and the rest of the file system *)

Lemma root_update f loc new : root (update f loc new) = setAt loc new (root f).
Proof.
  unfold update, root at 1, withRoot. cbn.
  destruct (setAt_Dir loc new (rootMeta f) (rootEntries f)) as [es' E].
  unfold root. now rewrite E.
Qed.

Lemma cwd_update f loc new : cwd (update f loc new) = cwd f.
Proof. reflexivity. Qed.

Lemma umask_update f loc new : umask (update f loc new) = umask f.
Proof. reflexivity. Qed.

Lemma procOwner_update f loc new : procOwner (update f loc new) = procOwner f.
Proof. reflexivity. Qed.

Lemma baseOf_update f loc new rooted k :
  baseOf (update f loc new) rooted k = baseOf f rooted k.
Proof. reflexivity. Qed.

(** A relative path resolves only where the working directory exists. *)
Lemma elements_relative x r :
  Ascii.eqb x "/" = false -> filepath.elements (String x r) <> [].
Proof.
  intros Hx. unfold filepath.elements, filepath.Separator. cbn [Split].
  rewrite Hx. pose proof (Split_nonempty r "/").
  destruct (Split r "/") as [|h t]; [contradiction|].
  rewrite filter_cons_True; [discriminate|reflexivity].
Qed.

Lemma lookup_relative_cwd f path n :
  filepath.IsAbs path = false ->
  os.lookup f path = inr n ->
  isDirAt (root f) (cwd f).
Proof.
  intros Habs. unfold os.lookup, locate.
  destruct path as [|x r]; [discriminate|].
  cbn [String.eqb]. rewrite Habs.
  assert (Hx : Ascii.eqb x "/" = false).
  { unfold filepath.IsAbs in Habs. cbn [HasPrefix] in Habs.
    now rewrite HasPrefix_nil, andb_true_r in Habs. }
  pose proof (elements_relative x r Hx) as Hne.
  destruct (last (filepath.elements (String x r))) as [name|] eqn:El.
  2:{ apply last_None in El. contradiction. }
  destruct (removelast (filepath.elements (String x r))) as [|c rest] eqn:Er.
  - cbn [descend].
    destruct (nodeAt (root f) (cwd f)) as [[m s|m es]|] eqn:E;
      try discriminate.
    intros _. now exists m, es.
  - destruct (descend (root f) (cwd f) (c :: rest)) as [e|ploc] eqn:Hd;
      [discriminate|].
    intros _. eapply descend_inr_isDirAt; eassumption.
Qed.

End Locate.

(** ** Well-formed trees *)

Section WellFormed.

Lemma wfNode_Dir m es : wfNode (Dir m es) <-> wfEntries es.
Proof.
  cbn [wfNode]. induction es as [|[name n1] rest IH]; [reflexivity|].
  cbn [wfEntries]. now rewrite IH.
Qed.

Lemma wfEntries_lookup es name n :
  wfEntries es -> lookupEntry name es = Some n -> isName name /\ wfNode n.
Proof.
  induction es as [|[k v] rest IH]; [discriminate|].
  cbn [wfEntries lookupEntry]. intros (Hk & Hv & Hrest).
  destruct (String.eqb_spec k name) as [->|_]; [|now apply IH].
  intros H. injection H as <-. auto.
Qed.

Lemma wfEntries_remove es name :
  wfEntries es -> wfEntries (setEntry name None es).
Proof.
  cbn [setEntry]. induction es as [|[k v] rest IH]; [auto|].
  cbn [wfEntries]. intros (Hk & Hv & Hrest). rewrite filter_cons.
  destruct (decide _); [|now apply IH]. cbn [wfEntries]. auto.
Qed.

Lemma wfEntries_replace es name n :
  wfEntries es -> wfNode n -> wfEntries (replaceEntry name n es).
Proof.
  intros H Hn. induction es as [|[k v] rest IH]; [auto|].
  cbn [wfEntries replaceEntry] in *. destruct H as (Hk & Hv & Hrest).
  destruct (String.eqb k name); cbn [wfEntries]; auto.
Qed.

Lemma wfEntries_insert es name n :
  wfEntries es -> isName name -> wfNode n ->
  wfEntries (insertSorted name n es).
Proof.
  intros H Hname Hn. induction es as [|[k v] rest IH]; [cbn; auto|].
  cbn [wfEntries insertSorted] in *. destruct H as (Hk & Hv & Hrest).
  destruct (String.ltb name k); cbn [wfEntries]; auto.
Qed.

Lemma wfEntries_set es name n :
  wfEntries es -> wfNode n ->
  (lookupEntry name es = None -> isName name) ->
  wfEntries (setEntry name (Some n) es).
Proof.
  intros H Hn Hname. cbn [setEntry].
  destruct (lookupEntry name es) eqn:E.
  - now apply wfEntries_replace.
  - apply wfEntries_insert; auto.
Qed.

Lemma wfNode_setAt loc : forall rt new,
  wfNode rt ->
  match new with
  | Some n => wfNode n /\ exists ploc name, loc = ploc ++ [name] /\ isName name
  | None => True
  end ->
  wfNode (setAt loc new rt).
Proof.
  induction loc as [|c l IH]; intros rt new Hrt Hnew; [exact Hrt|].
  destruct rt as [m s|m es]; [destruct l; exact I|].
  rewrite setAt_cons. apply wfNode_Dir in Hrt.
  destruct l as [|c2 l].
  - apply wfNode_Dir. destruct new as [n|]; [|now apply wfEntries_remove].
    destruct Hnew as (Hn & ploc & name & E & Hname).
    apply wfEntries_set; auto. intros _.
    destruct ploc as [|? [|? ?]]; cbn in E; inversion E; subst; auto.
  - destruct (lookupEntry c es) as [ch|] eqn:Hc; [|now apply wfNode_Dir].
    apply wfNode_Dir. destruct (wfEntries_lookup _ _ _ Hrt Hc) as [Hcn Hch].
    apply wfEntries_set; auto. apply IH; [exact Hch|].
    destruct new as [n|]; [|exact I].
    destruct Hnew as (Hn & ploc & name & E & Hname). split; [exact Hn|].
    destruct ploc as [|p ploc]; [discriminate|].
    cbn in E. inversion E; subst. now exists ploc, name.
Qed.

Lemma wfFS_root f : wfFS f <-> wfNode (root f).
Proof. unfold wfFS, root. symmetry. apply wfNode_Dir. Qed.

Lemma wfFS_update f loc new :
  wfFS f ->
  match new with
  | Some n => wfNode n /\ exists ploc name, loc = ploc ++ [name] /\ isName name
  | None => True
  end ->
  wfFS (update f loc new).
Proof.
  intros H Hnew. apply wfFS_root. rewrite root_update.
  apply wfNode_setAt; [now apply wfFS_root|exact Hnew].
Qed.

Lemma wfNode_nodeAt loc : forall rt n,
  wfNode rt -> nodeAt rt loc = Some n -> wfNode n.
Proof.
  induction loc as [|c l IH]; intros rt n Hrt H.
  - cbn in H. now injection H as <-.
  - cbn [nodeAt] in H. destruct rt as [m s|m es]; [discriminate|].
    destruct (lookupEntry c es) as [ch|] eqn:Hc; [|discriminate].
    apply wfNode_Dir in Hrt.
    destruct (wfEntries_lookup _ _ _ Hrt Hc) as [_ Hch]. eauto.
Qed.

Lemma RemoveAll_wf f path f' :
  os.RemoveAll f path = (None, f') -> wfFS f -> wfFS f'.
Proof.
  unfold os.RemoveAll. intros H Hwf.
  destruct (String.eqb path ""); [now inversion H; subst|].
  destruct (os.endsWithDot path); [discriminate|].
  destruct (locate f path) as [[|c l]|pl nm|e].
  - discriminate.
  - inversion H; subst. now apply wfFS_update.
  - now inversion H; subst.
  - destruct e; inversion H; now subst.
Qed.

Lemma UserInputLoop_wf binPath lines : forall count w w',
  UserInputLoop binPath lines count w = (Done tt, w') ->
  wfFS (fs w) -> wfFS (fs w').
Proof.
  induction lines as [|line rest IH]; intros count w w' H Hwf; [discriminate|].
  cbn [UserInputLoop] in H. unfold bind at 1, ReadString at 1 in H.
  destruct (stdinLines w) as [|l ls]; [discriminate|].
  destruct (classify (l +:+ nl)).
  - unfold orFatal in H. cbn [fs withStdin] in H.
    destruct (os.RemoveAll (fs w) binPath) as [[e|] f'] eqn:E; [discriminate|].
    inversion H; subst. cbn [fs withFS]. eapply RemoveAll_wf; eassumption.
  - discriminate.
  - destruct (count =? 3)%nat; [discriminate|].
    unfold bind at 1, Print at 1 in H. eapply IH; [exact H|exact Hwf].
Qed.

Lemma checkExisting_wf binPath w w' :
  checkExisting binPath w = (Done tt, w') -> wfFS (fs w) -> wfFS (fs w').
Proof.
  unfold checkExisting, bind. intros H Hwf.
  destruct (dirExists binPath w) as [[[|]|e|] w1] eqn:Hd; try discriminate;
    apply dirExists_world in Hd; subst w1.
  - unfold Print in H. eapply UserInputLoop_wf; [exact H|exact Hwf].
  - now inversion H; subst.
Qed.

End WellFormed.

(** ** Changes and what they leave alone *)

Section Frames.

Lemma prefix_of_app_cases (q l x : list string) :
  q `prefix_of` l ++ x -> q `prefix_of` l \/ l `prefix_of` q.
Proof.
  intros H. apply (prefix_weak_total q l (l ++ x)); [exact H|].
  now apply prefix_app_r.
Qed.

Lemma apart_app loc x q : apart loc q -> apart (loc ++ x) q.
Proof.
  intros [H1 H2]. split.
  - intros H. apply H1. etrans; [|exact H]. now apply prefix_app_r.
  - intros H. destruct (prefix_of_app_cases _ _ _ H); contradiction.
Qed.

(** A location apart from the one set keeps its node. *)
Lemma nodeAt_setAt_apart l : forall q new rt,
  apart l q -> nodeAt (setAt l new rt) q = nodeAt rt q.
Proof.
  induction l as [|c l' IH]; intros q new rt [H1 H2].
  - destruct H1. apply prefix_nil.
  - destruct q as [|d q']; [destruct H2; apply prefix_nil|].
    destruct rt as [m s|m es]; [now destruct l'|].
    rewrite setAt_cons. cbn [nodeAt].
    destruct (decide (d = c)) as [->|Hdc].
    + assert (Hl' : l' <> []).
      { intros ->. apply H1. apply prefix_cons, prefix_nil. }
      destruct l' as [|c' l'']; [contradiction|].
      destruct (lookupEntry c es) as [ch|] eqn:E; cbn [nodeAt];
        [|now rewrite E].
      rewrite lookupEntry_setEntry_eq. apply IH. split.
      * intros H. apply H1. now apply prefix_cons.
      * intros H. apply H2. now apply prefix_cons.
    + destruct l' as [|c' l''].
      * cbn [nodeAt]. now rewrite lookupEntry_setEntry_ne.
      * destruct (lookupEntry c es) as [ch|] eqn:E; cbn [nodeAt];
          [|reflexivity].
        now rewrite lookupEntry_setEntry_ne.
Qed.

Lemma nodeAt_below_File rt q m s c r :
  nodeAt rt q = Some (File m s) -> nodeAt rt (q ++ c :: r) = None.
Proof. intros H. now rewrite nodeAt_app, H. Qed.

Lemma no_file_above rt l q m s :
  isDirAt rt l -> q `prefix_of` l -> nodeAt rt q <> Some (File m s).
Proof.
  intros (dm & es & Hl) [r ->] Hq. destruct r as [|c r].
  - rewrite app_nil_r in Hl. congruence.
  - rewrite (nodeAt_below_File _ _ _ _ c r Hq) in Hl. discriminate.
Qed.

Lemma changedBelow_refl loc f : changedBelow loc f f.
Proof. repeat split; eauto. Qed.

Lemma changedBelow_trans loc f1 f2 f3 :
  changedBelow loc f1 f2 -> changedBelow loc f2 f3 -> changedBelow loc f1 f3.
Proof.
  intros (Hc1 & Hu1 & Ho1 & Ha1 & Hd1) (Hc2 & Hu2 & Ho2 & Ha2 & Hd2).
  repeat split; try congruence.
  - intros q Hq. now rewrite Ha2, Ha1.
  - intros q m es Hq H. destruct (Hd1 q m es Hq H) as [es' H'].
    exact (Hd2 q m es' Hq H').
Qed.

Lemma changedBelow_update loc x f new :
  changedBelow loc f (update f (loc ++ x) new).
Proof.
  split; [apply cwd_update|]. split; [apply umask_update|].
  split; [apply procOwner_update|]. split.
  - intros q Hq. rewrite root_update.
    apply nodeAt_setAt_apart. now apply apart_app.
  - intros q m es Hq H. rewrite root_update.
    apply (nodeAt_setAt_Dir q _ _ _ _ es); [|exact H].
    intros Hp. apply Hq. etrans; [|exact Hp]. now apply prefix_app_r.
Qed.

Lemma changedBelow_update_at loc f new : changedBelow loc f (update f loc new).
Proof.
  pose proof (changedBelow_update loc [] f new) as H.
  now rewrite app_nil_r in H.
Qed.

Lemma OpenFile_changedBelow f path mode loc x f1 :
  os.OpenFile f path mode = (inr (loc ++ x), f1) -> changedBelow loc f f1.
Proof.
  unfold os.OpenFile. destruct (locate f path) as [l|pl nm|e].
  - destruct (nodeAt (root f) l) as [[? ?|? ?]|]; intros H; inversion H;
      apply changedBelow_refl.
  - intros H. inversion H as [[E1 E2]]. rewrite E1.
    apply changedBelow_update.
  - discriminate.
Qed.

End Frames.

(** ** The shim directory *)

Section ShimDirectory.

Lemma nodeAt_snoc_inv rt l c n :
  nodeAt rt (l ++ [c]) = Some n ->
  exists m es, nodeAt rt l = Some (Dir m es) /\ lookupEntry c es = Some n.
Proof.
  rewrite nodeAt_app. intros H.
  destruct (nodeAt rt l) as [[m s|m es]|]; cbn in H; try discriminate.
  exists m, es. split; [reflexivity|].
  destruct (lookupEntry c es); [congruence|discriminate].
Qed.

Lemma nodeAt_snoc rt l c m es :
  nodeAt rt l = Some (Dir m es) ->
  nodeAt rt (l ++ [c]) = lookupEntry c es.
Proof.
  intros H. rewrite nodeAt_app, H. cbn [nodeAt].
  now destruct (lookupEntry c es).
Qed.

(** A directory does not lie at or below a free name or a file. *)
Lemma isDirAt_not_below rt q loc :
  isDirAt rt q ->
  (nodeAt rt loc = None \/ exists m s, nodeAt rt loc = Some (File m s)) ->
  ~ loc `prefix_of` q.
Proof.
  intros (m & es & Hq) Hloc [rest ->]. rewrite nodeAt_app in Hq.
  destruct Hloc as [E|(m' & s & E)]; rewrite E in Hq; [discriminate|].
  destruct rest; cbn in Hq; discriminate.
Qed.

Lemma startsOK_update f rooted loc new :
  startsOK f rooted ->
  (nodeAt (root f) loc = None
   \/ exists m s, nodeAt (root f) loc = Some (File m s)) ->
  startsOK (update f loc new) rooted.
Proof.
  intros [H|H] Hloc; [now left|right].
  unfold isDirAt. rewrite root_update, cwd_update.
  destruct H as (m & es & H).
  destruct (nodeAt_setAt_Dir (cwd f) (root f) loc new m es) as [es' E];
    [|exact H|now exists m, es'].
  apply (isDirAt_not_below (root f)); [now exists m, es|exact Hloc].
Qed.

(** The clean path of an existing node leads to it. *)
Lemma lookup_clean f rooted k names name n :
  (rooted = true -> k = 0) -> Forall isName names -> isName name ->
  startsOK f rooted ->
  nodeAt (root f) (baseOf f rooted k ++ names ++ [name]) = Some n ->
  os.lookup f (filepath.render rooted (replicate k ".." ++ names ++ [name]))
  = inr n.
Proof.
  intros Hk Hn Hname Hs H. rewrite app_assoc in H.
  destruct (nodeAt_snoc_inv _ _ _ _ H) as (m & es & Hd & Hl).
  unfold os.lookup.
  rewrite (locate_clean f rooted k names name m es Hk Hn Hname Hs Hd), Hl.
  rewrite <- app_assoc in H. now rewrite H.
Qed.

Lemma shimDirAt_lookup f bp loc dm es :
  shimDirAt f bp loc dm es -> os.lookup f bp = inr (Dir dm es).
Proof.
  intros [r k names name -> Hk Hn Hname -> Hs Hd].
  now apply lookup_clean.
Qed.

Lemma dropBytes_nil n : os.dropBytes n "" = "".
Proof. destruct n; reflexivity. Qed.

(** A name that is free in the shim directory: opening it under the joined
    path creates the file, and the write gives it its contents. *)
Lemma shimDirAt_nonempty f bp loc dm es : shimDirAt f bp loc dm es -> loc <> [].
Proof.
  intros [r k names name _ _ _ _ -> _ _] E.
  rewrite app_assoc in E. now apply app_eq_nil in E as [_ E].
Qed.

Lemma create_in_shimDir f bp loc dm es fileName mode contents :
  shimDirAt f bp loc dm es ->
  isName fileName ->
  lookupEntry fileName es = None ->
  exists f1 f2,
    os.OpenFile f (filepath.Join [bp; fileName]) mode
    = (inr (loc ++ [fileName]), f1) /\
    os.WriteString f1 (loc ++ [fileName]) contents = (None, f2) /\
    shimDirAt f1 bp loc dm
      (setEntry fileName (Some (File (createdMeta f mode) "")) es) /\
    shimDirAt f2 bp loc dm
      (setEntry fileName (Some (File (createdMeta f mode) contents))
         (setEntry fileName (Some (File (createdMeta f mode) "")) es)) /\
    umask f2 = umask f /\ procOwner f2 = procOwner f /\
    (wfFS f -> wfFS f1 /\ wfFS f2).
Proof.
  intros [r k names name -> Hk Hn Hname -> Hs Hd] Hfile Hfree.
  set (loc := baseOf f r k ++ names ++ [name]) in *.
  set (F0 := File (createdMeta f mode) "").
  set (F1 := File (createdMeta f mode) contents).
  assert (Hkept : cleaned r (replicate k ".." ++ names ++ [name]))
    by now apply cleaned_snoc.
  assert (Hjoin : filepath.Join
            [filepath.render r (replicate k ".." ++ names ++ [name]); fileName]
          = filepath.render r (replicate k ".." ++ (names ++ [name]) ++ [fileName])).
  { rewrite (Join_name _ _ _ Hkept Hfile). now rewrite <- !app_assoc. }
  assert (Hn' : Forall isName (names ++ [name])).
  { apply Forall_app. split; [exact Hn|now constructor]. }
  assert (Hd' : nodeAt (root f) (baseOf f r k ++ names ++ [name])
                = Some (Dir dm es)) by exact Hd.
  rewrite app_assoc in Hd'.
  pose proof (locate_clean f r k (names ++ [name]) fileName dm es Hk Hn' Hfile Hs)
    as Hloc.
  rewrite <- app_assoc in Hd'. rewrite <- !app_assoc in Hloc.
  specialize (Hloc Hd'). rewrite Hfree in Hloc.
  assert (Hnone : nodeAt (root f) (loc ++ [fileName]) = None).
  { rewrite (nodeAt_snoc _ _ _ _ _ Hd). exact Hfree. }
  exists (update f (loc ++ [fileName]) (Some F0)).
  exists (update (update f (loc ++ [fileName]) (Some F0))
            (loc ++ [fileName]) (Some F1)).
  assert (H1dir : nodeAt (root (update f (loc ++ [fileName]) (Some F0))) loc
                  = Some (Dir dm (setEntry fileName (Some F0) es))).
  { rewrite root_update. now apply nodeAt_setAt_parent. }
  assert (H1file : nodeAt (root (update f (loc ++ [fileName]) (Some F0)))
                     (loc ++ [fileName]) = Some F0).
  { rewrite root_update. eapply nodeAt_setAt_eq. exact Hd. }
  assert (Hs1 : startsOK (update f (loc ++ [fileName]) (Some F0)) r).
  { apply startsOK_update; [exact Hs|now left]. }
  split; [|split; [|split; [|split; [|split; [|split]]]]].
  - unfold os.OpenFile. rewrite Hjoin, <- !app_assoc, Hloc.
    unfold loc, F0, createdMeta. now rewrite <- !app_assoc.
  - unfold os.WriteString. rewrite H1file. unfold F0, F1.
    now rewrite dropBytes_nil, append_nil_r.
  - now apply (ShimDirAt _ _ _ _ _ r k names name).
  - apply (ShimDirAt _ _ _ _ _ r k names name); auto.
    + apply startsOK_update; [exact Hs1|]. right.
      now exists (createdMeta f mode), "".
    + rewrite root_update. now apply nodeAt_setAt_parent.
  - reflexivity.
  - reflexivity.
  - intros Hwf.
    assert (Hwf1 : wfFS (update f (loc ++ [fileName]) (Some F0))).
    { apply wfFS_update; [exact Hwf|]. split; [exact I|].
      now exists loc, fileName. }
    split; [exact Hwf1|]. apply wfFS_update; [exact Hwf1|].
    split; [exact I|]. now exists loc, fileName.
Qed.

End ShimDirectory.

(** ** Shim names and contents *)

Section Shims.

Lemma fileNameOf_eq args exe :
  fileNameOf args exe = Prefix args +:+ "-" +:+ exe.
Proof.
  unfold fileNameOf. cbn [Sprintf]. simpl Ascii.eqb. cbn [andb].
  now rewrite append_nil_r.
Qed.

Lemma fileContentsOf_eq args exePath :
  fileContentsOf args exePath
  = "#!/usr/bin/env bash" +:+ nl +:+ nl +:+
    "toolbox run -c " +:+ Container args +:+ " " +:+ exePath +:+ " $@" +:+ nl.
Proof. reflexivity. Qed.

Lemma hasByte_append c s t :
  hasByte c (s +:+ t) = hasByte c s || hasByte c t.
Proof.
  induction s as [|x s IH]; [reflexivity|].
  cbn [String.append hasByte]. now rewrite IH, orb_assoc.
Qed.

Lemma hasByte_dash_fileName args exe :
  hasByte "-" (Prefix args +:+ "-" +:+ exe) = true.
Proof.
  rewrite hasByte_append. change ("-" +:+ exe) with (String "-" exe).
  cbn [hasByte]. rewrite Ascii.eqb_refl. apply orb_true_r.
Qed.

Lemma isName_fileNameOf args exe :
  hasByte "/" (Prefix args) = false -> hasByte "/" exe = false ->
  isName (fileNameOf args exe).
Proof.
  intros Hp He. rewrite fileNameOf_eq.
  pose proof (hasByte_dash_fileName args exe) as Hdash.
  repeat split.
  - intros E. rewrite E in Hdash. discriminate.
  - rewrite hasByte_append, Hp. change ("-" +:+ exe) with (String "-" exe).
    cbn [hasByte]. now rewrite He.
  - intros E. rewrite E in Hdash. discriminate.
  - intros E. rewrite E in Hdash. discriminate.
Qed.

Lemma fileNameOf_inj args exe1 exe2 :
  fileNameOf args exe1 = fileNameOf args exe2 -> exe1 = exe2.
Proof.
  rewrite !fileNameOf_eq. intros H.
  apply (String.app_inj (Prefix args)) in H.
  change ("-" +:+ exe1) with (String "-" exe1) in H.
  change ("-" +:+ exe2) with (String "-" exe2) in H. congruence.
Qed.

Lemma fileNameOf_not_marker args exe : fileNameOf args exe <> btbMarker.
Proof.
  rewrite fileNameOf_eq. intros E.
  pose proof (hasByte_dash_fileName args exe) as Hdash.
  rewrite E in Hdash. discriminate.
Qed.

Lemma isName_btbMarker : isName btbMarker.
Proof. repeat split; discriminate. Qed.

Lemma createdMeta_same f f' mode :
  umask f' = umask f -> procOwner f' = procOwner f ->
  createdMeta f' mode = createdMeta f mode.
Proof.
  intros Hu Ho. unfold createdMeta, os.createdPerm. now rewrite Hu, Ho.
Qed.

(** One shim written into the shim directory. *)
Lemma writeShim_spec args bp mode exe exePath w loc dm es :
  shimDirAt (fs w) bp loc dm es ->
  isName (fileNameOf args exe) ->
  lookupEntry (fileNameOf args exe) es = None ->
  exists f' es',
    writeShim args bp mode (exe, exePath) w = (Done tt, withFS w f') /\
    shimDirAt f' bp loc dm es' /\
    (forall n, lookupEntry n es'
               = if decide (n = fileNameOf args exe)
                 then Some (File (createdMeta (fs w) mode)
                              (fileContentsOf args exePath))
                 else lookupEntry n es) /\
    umask f' = umask (fs w) /\ procOwner f' = procOwner (fs w).
Proof.
  intros Hsd Hname Hfree.
  destruct (create_in_shimDir (fs w) bp loc dm es (fileNameOf args exe) mode
              (fileContentsOf args exePath) Hsd Hname Hfree)
    as (f1 & f2 & Hopen & Hwrite & _ & Hsd2 & Hu & Ho & _).
  exists f2. eexists. split; [|split; [exact Hsd2|split; [|auto]]].
  - unfold writeShim. fold (fileNameOf args exe). rewrite Hopen.
    unfold orFatal. cbn [fs withFS].
    fold (fileContentsOf args exePath). rewrite Hwrite. reflexivity.
  - intros n. rewrite !lookupEntry_setEntry.
    now destruct (decide (n = fileNameOf args exe)).
Qed.

Lemma shimOf_None args fm entries n :
  n ∉ map (fun e => fileNameOf args (fst e)) entries ->
  shimOf args fm entries n = None.
Proof.
  induction entries as [|[exe p] rest IH]; intros H; [reflexivity|].
  cbn [shimOf]. cbn [map fst] in H. apply not_elem_of_cons in H as [Hne H].
  destruct (String.eqb_spec n (fileNameOf args exe)); [contradiction|].
  now apply IH.
Qed.

(** All shims written: the directory holds what it held and the shims. *)
Lemma populate_spec args bp mode entries : forall w loc dm es,
  shimDirAt (fs w) bp loc dm es ->
  Forall (fun e => isName (fileNameOf args (fst e))) entries ->
  NoDup (map (fun e => fileNameOf args (fst e)) entries) ->
  Forall (fun e => lookupEntry (fileNameOf args (fst e)) es = None) entries ->
  exists f' es',
    populate args bp mode entries w = (Done tt, withFS w f') /\
    shimDirAt f' bp loc dm es' /\
    (forall n, lookupEntry n es'
               = match shimOf args (createdMeta (fs w) mode) entries n with
                 | Some x => Some x
                 | None => lookupEntry n es
                 end) /\
    umask f' = umask (fs w) /\ procOwner f' = procOwner (fs w).
Proof.
  induction entries as [|[exe p] rest IH]; intros w loc dm es Hsd Hnames Hnd Hfree.
  - exists (fs w), es. split; [destruct w; reflexivity|]. auto.
  - inversion Hnames as [|? ? Hname Hnames']; subst.
    inversion Hfree as [|? ? Hfree1 Hfree']; subst.
    cbn [map fst] in Hnd. apply NoDup_cons in Hnd as [Hnotin Hnd].
    cbn [fst] in Hname, Hfree1.
    destruct (writeShim_spec args bp mode exe p w loc dm es Hsd Hname Hfree1)
      as (f1 & es1 & Hw & Hsd1 & Hl1 & Hu1 & Ho1).
    destruct (IH (withFS w f1) loc dm es1) as (f2 & es2 & Hp & Hsd2 & Hl2 & Hu2 & Ho2);
      [exact Hsd1|exact Hnames'|exact Hnd| |].
    { apply Forall_forall. intros e He. rewrite Hl1.
      destruct (decide (fileNameOf args (fst e) = fileNameOf args exe)) as [E|_].
      - destruct Hnotin. rewrite <- E.
        apply list_elem_of_In.
        apply (in_map (fun e => fileNameOf args (fst e))).
        now apply list_elem_of_In.
      - rewrite Forall_forall in Hfree'. now apply Hfree'. }
    cbn [fs withFS] in *.
    exists f2, es2. split; [|split; [exact Hsd2|split; [|split; congruence]]].
    + cbn [populate]. unfold bind. rewrite Hw. exact Hp.
    + intros n. rewrite Hl2, Hl1. cbn [shimOf].
      rewrite (createdMeta_same (fs w) f1 mode Hu1 Ho1).
      destruct (String.eqb_spec n (fileNameOf args exe)) as [->|Hne].
      * rewrite shimOf_None by exact Hnotin.
        now destruct (decide (fileNameOf args exe = fileNameOf args exe)).
      * destruct (shimOf args _ rest n); [reflexivity|].
        now destruct (decide (n = fileNameOf args exe)).
Qed.

End Shims.

(** ** Creating the shim directory *)

Section Create.

Lemma Join2_shape a b :
  filepath.Join [a; b] = "" \/
  exists rooted kept,
    filepath.Join [a; b] = filepath.render rooted kept /\
    cleaned rooted kept /\
    (a <> "" -> rooted = filepath.IsAbs a).
Proof.
  cbn [filepath.Join].
  destruct (String.eqb_spec a "") as [->|Ha].
  - destruct (String.eqb_spec b "") as [->|Hb]; [now left|right].
    destruct (Clean_cleaned (strings.Join [b] "/")) as (kept & E & Hc).
    exists (filepath.IsAbs (strings.Join [b] "/")), kept.
    split; [exact E|]. split; [exact Hc|]. intros H. now destruct H.
  - right. destruct (Clean_cleaned (strings.Join [a; b] "/")) as (kept & E & Hc).
    exists (filepath.IsAbs (strings.Join [a; b] "/")), kept.
    split; [exact E|]. split; [exact Hc|]. intros _.
    cbn [strings.Join]. now apply IsAbs_append.
Qed.

Lemma createDirectory_ok args w rooted k names name m es parentStat :
  (rooted = true -> k = 0) -> Forall isName names -> isName name ->
  startsOK (fs w) rooted ->
  nodeAt (root (fs w)) (baseOf (fs w) rooted k ++ names) = Some (Dir m es) ->
  lookupEntry name es = None ->
  os.Stat (fs w) (BinPath args) = inr parentStat ->
  exists f',
    createDirectory args
      (filepath.render rooted (replicate k ".." ++ names ++ [name])) w
    = (Done (Mode parentStat), withFS w f') /\
    shimDirAt f' (filepath.render rooted (replicate k ".." ++ names ++ [name]))
      (baseOf (fs w) rooted k ++ names ++ [name])
      (createdMeta (fs w) (Mode parentStat))
      [(btbMarker, File (createdMeta (fs w) (Mode parentStat)) "")] /\
    umask f' = umask (fs w) /\ procOwner f' = procOwner (fs w) /\
    (wfFS (fs w) -> wfFS f') /\
    changedBelow (baseOf (fs w) rooted k ++ names ++ [name]) (fs w) f'.
Proof.
  intros Hk Hn Hname Hs Hd Hfree Hstat.
  set (bp := filepath.render rooted (replicate k ".." ++ names ++ [name])).
  set (loc := baseOf (fs w) rooted k ++ names ++ [name]).
  set (dm := createdMeta (fs w) (Mode parentStat)).
  set (f1 := update (fs w) loc (Some (Dir dm []))).
  assert (Hnone : nodeAt (root (fs w)) loc = None).
  { unfold loc. rewrite app_assoc, (nodeAt_snoc _ _ _ _ _ Hd). exact Hfree. }
  assert (Hmk : os.Mkdir (fs w) bp (Mode parentStat) = (None, f1)).
  { unfold os.Mkdir, bp.
    rewrite (locate_clean (fs w) rooted k names name m es Hk Hn Hname Hs Hd).
    rewrite Hfree. unfold f1, loc, dm, createdMeta.
    now rewrite <- app_assoc. }
  assert (Hsd1 : shimDirAt f1 bp loc dm []).
  { apply (ShimDirAt _ _ _ _ _ rooted k names name); auto.
    - apply startsOK_update; [exact Hs|now left].
    - unfold f1. rewrite root_update. unfold loc. rewrite app_assoc.
      eapply nodeAt_setAt_eq. exact Hd. }
  destruct (create_in_shimDir f1 bp loc dm [] btbMarker (Mode parentStat) ""
              Hsd1 isName_btbMarker eq_refl)
    as (f2 & f3 & Hopen & _ & Hsd2 & _ & _ & _ & Hwf2).
  exists f2. split; [|split; [exact Hsd2|]].
  - unfold createDirectory. rewrite Hstat. unfold bind, orFatal.
    fold bp. rewrite Hmk. cbn [fs withFS]. rewrite Hopen. reflexivity.
  - assert (Hsame : umask f2 = umask (fs w) /\ procOwner f2 = procOwner (fs w)).
    { unfold os.OpenFile in Hopen.
      destruct (locate f1 (filepath.Join [bp; btbMarker])) as [l|pl nm|e].
      + destruct (nodeAt (root f1) l) as [[? ?|? ?]|]; inversion Hopen; subst;
          auto.
      + inversion Hopen; subst. auto.
      + inversion Hopen. }
    destruct Hsame as [Hu Ho]. split; [exact Hu|]. split; [exact Ho|]. split.
    + intros Hwf. apply Hwf2. unfold f1. apply wfFS_update; [exact Hwf|].
      split; [exact I|]. exists (baseOf (fs w) rooted k ++ names), name.
      split; [unfold loc; now rewrite <- app_assoc|exact Hname].
    + fold loc. eapply changedBelow_trans.
      * apply (changedBelow_update_at loc (fs w)).
      * exact (OpenFile_changedBelow _ _ _ _ _ _ Hopen).
Qed.

(** What a successful [createDirectory] found and left. *)
Lemma createDirectory_inv args w mode w' :
  createDirectory args (filepath.Join [BinPath args; Prefix args]) w
  = (Done mode, w') ->
  exists r k names name pm pes ps f',
    filepath.Join [BinPath args; Prefix args]
    = filepath.render r (replicate k ".." ++ names ++ [name]) /\
    (r = true -> k = 0) /\ Forall isName names /\ isName name /\
    startsOK (fs w) r /\
    nodeAt (root (fs w)) (baseOf (fs w) r k ++ names) = Some (Dir pm pes) /\
    lookupEntry name pes = None /\
    os.Stat (fs w) (BinPath args) = inr ps /\
    mode = Mode ps /\ w' = withFS w f' /\
    shimDirAt f' (filepath.Join [BinPath args; Prefix args])
      (baseOf (fs w) r k ++ names ++ [name])
      (createdMeta (fs w) mode)
      [(btbMarker, File (createdMeta (fs w) mode) "")] /\
    changedBelow (baseOf (fs w) r k ++ names ++ [name]) (fs w) f' /\
    umask f' = umask (fs w) /\ procOwner f' = procOwner (fs w) /\
    (wfFS (fs w) -> wfFS f').
Proof.
  intros H.
  assert (Hinv : exists parentStat ploc nm,
             os.Stat (fs w) (BinPath args) = inr parentStat /\
             locate (fs w) (filepath.Join [BinPath args; Prefix args])
             = Missing ploc nm).
  { unfold createDirectory in H.
    destruct (os.Stat (fs w) (BinPath args)) as [e|ps]; [discriminate|].
    unfold bind, orFatal, os.Mkdir in H.
    destruct (locate (fs w) (filepath.Join [BinPath args; Prefix args]))
      as [l|pl nm|e]; try discriminate.
    eauto. }
  destruct Hinv as (ps & ploc & nm & Hstat & Hloc).
  destruct (Join2_shape (BinPath args) (Prefix args))
    as [E|(rooted & kept & E & Hc & _)].
  { rewrite E in Hloc. discriminate. }
  rewrite E in *.
  destruct (cleaned_cases _ _ Hc)
    as [(k & -> & Hk)|(k & names & name & -> & Hk & Hn & Hname)].
  { destruct (locate_dots_not_Missing _ _ _ _ _ Hk Hloc). }
  destruct (locate_clean_Missing _ _ _ _ _ _ _ Hk Hn Hname Hloc)
    as (Hs & -> & -> & m & es & Hd & Hfree).
  destruct (createDirectory_ok args w rooted k names name m es ps
              Hk Hn Hname Hs Hd Hfree Hstat)
    as (f' & Hcd & Hsd & Hu & Ho & Hwf & Hchanged).
  rewrite Hcd in H. inversion H; subst.
  exists rooted, k, names, name, m, es, ps, f'. auto 20.
Qed.

Lemma createDirectory_Done args w mode w' :
  createDirectory args (filepath.Join [BinPath args; Prefix args]) w
  = (Done mode, w') ->
  exists f' loc parentStat,
    w' = withFS w f' /\
    os.Stat (fs w) (BinPath args) = inr parentStat /\
    mode = Mode parentStat /\
    shimDirAt f' (filepath.Join [BinPath args; Prefix args]) loc
      (createdMeta (fs w) mode)
      [(btbMarker, File (createdMeta (fs w) mode) "")] /\
    umask f' = umask (fs w) /\ procOwner f' = procOwner (fs w) /\
    (wfFS (fs w) -> wfFS f').
Proof.
  intros H.
  destruct (createDirectory_inv _ _ _ _ H)
    as (r & k & names & name & pm & pes & ps & f' & _ & _ & _ & _ & _ & _ & _
        & Hstat & Hmode & Hw & Hsd & _ & Hu & Ho & Hwf).
  exists f', (baseOf (fs w) r k ++ names ++ [name]), ps. auto 10.
Qed.

End Create.

(** ** The confirmation prompt *)

Section Confirmation.

Lemma UserInputLoop_invalid binPath invalid : forall rest count w,
  Forall (fun line => classify (line +:+ nl) = Unrecognised) invalid ->
  count + length invalid <= 3 ->
  stdinLines w = invalid ++ rest ->
  exists out,
    UserInputLoop binPath (invalid ++ rest) count w
    = UserInputLoop binPath rest (count + length invalid)
        (withStdout (withStdin w rest) out).
Proof.
  induction invalid as [|line invalid IH]; intros rest count w Hinv Hcount Hin.
  - exists (stdout w). cbn [app length]. rewrite Nat.add_0_r.
    cbn in Hin. destruct w; cbn in *; subst. reflexivity.
  - inversion Hinv as [|? ? Hline Hinv']; subst. cbn [length] in Hcount.
    cbn [app UserInputLoop]. unfold bind at 1, ReadString at 1.
    rewrite Hin. cbn [app]. rewrite Hline.
    destruct (Nat.eqb_spec count 3) as [E|_]; [lia|].
    unfold bind at 1, Print at 1.
    destruct (IH rest (S count)
                (withStdout (withStdin w (invalid ++ rest))
                   (stdout (withStdin w (invalid ++ rest))
                    +:+ "Please enter (y/n): ")))
      as [out Hout]; [exact Hinv'|lia|reflexivity|].
    exists out. rewrite Hout. f_equal. cbn [length]. lia.
Qed.

Lemma UserInputLoop_yes binPath yes rest count w :
  classify (yes +:+ nl) = Yes ->
  stdinLines w = yes :: rest ->
  UserInputLoop binPath (yes :: rest) count w
  = orFatal (fun f => os.RemoveAll f binPath) (withStdin w rest).
Proof.
  intros Hyes Hin. cbn [UserInputLoop]. unfold bind, ReadString.
  now rewrite Hin, Hyes.
Qed.

Lemma UserInputLoop_fourth binPath line rest w :
  classify (line +:+ nl) = Unrecognised ->
  stdinLines w = line :: rest ->
  UserInputLoop binPath (line :: rest) 3 w
  = (Fatal tooManyTries, withStdin w rest).
Proof.
  intros Hline Hin. cbn [UserInputLoop]. unfold bind, ReadString.
  now rewrite Hin, Hline.
Qed.

Lemma checkExisting_existing binPath w :
  dirExists binPath w = (Done true, w) ->
  checkExisting binPath w
  = UserInputLoop binPath (stdinLines w) 0
      (withStdout w (stdout w +:+ Sprintf "rmdir: %s (y/n)? " [binPath])).
Proof. intros H. unfold checkExisting, bind. now rewrite H. Qed.

(** Up to three unrecognised answers and then a yes: the directory is
    removed. *)
Lemma checkExisting_accepted binPath w invalid yes rest :
  dirExists binPath w = (Done true, w) ->
  Forall (fun line => classify (line +:+ nl) = Unrecognised) invalid ->
  length invalid <= 3 ->
  classify (yes +:+ nl) = Yes ->
  stdinLines w = invalid ++ yes :: rest ->
  exists out,
    checkExisting binPath w
    = orFatal (fun f => os.RemoveAll f binPath)
        (withStdout (withStdin w rest) out).
Proof.
  intros Hex Hinv Hlen Hyes Hin.
  rewrite (checkExisting_existing _ _ Hex), Hin.
  destruct (UserInputLoop_invalid binPath invalid (yes :: rest) 0
              (withStdout w (stdout w +:+ Sprintf "rmdir: %s (y/n)? " [binPath]))
              Hinv Hlen Hin) as [out Hout].
  exists out. rewrite Hout.
  rewrite UserInputLoop_yes; [reflexivity|exact Hyes|reflexivity].
Qed.

(** A fourth unrecognised answer: the process ends, the tree untouched. *)
Lemma checkExisting_too_many binPath w invalid rest :
  dirExists binPath w = (Done true, w) ->
  Forall (fun line => classify (line +:+ nl) = Unrecognised) invalid ->
  length invalid = 4 ->
  stdinLines w = invalid ++ rest ->
  exists w', checkExisting binPath w = (Fatal tooManyTries, w') /\ fs w' = fs w.
Proof.
  intros Hex Hinv Hlen Hin.
  destruct invalid as [|l4 first3 _] using rev_ind; [discriminate|].
  rewrite length_app in Hlen. cbn in Hlen.
  apply Forall_app in Hinv as [Hfirst Hl4]. inversion Hl4; subst.
  rewrite <- app_assoc in Hin. cbn [app] in Hin.
  rewrite (checkExisting_existing _ _ Hex), Hin.
  destruct (UserInputLoop_invalid binPath first3 (l4 :: rest) 0
              (withStdout w (stdout w +:+ Sprintf "rmdir: %s (y/n)? " [binPath]))
              Hfirst) as [out Hout]; [lia|exact Hin|].
  rewrite Hout. replace (0 + length first3) with 3 by lia.
  rewrite UserInputLoop_fourth; [|assumption|reflexivity].
  eexists. split; reflexivity.
Qed.

End Confirmation.

(** ** Deleting and recreating the shim directory *)

Section Recreate.

Lemma dirExists_true_locate path w :
  dirExists path w = (Done true, w) ->
  exists loc n, locate (fs w) path = Existing loc
                /\ nodeAt (root (fs w)) loc = Some n.
Proof.
  unfold dirExists, os.Stat, os.lookup. intros H.
  destruct (locate (fs w) path) as [loc|pl nm|e] eqn:E.
  - destruct (nodeAt (root (fs w)) loc) as [n|] eqn:En; [eauto|discriminate].
  - discriminate.
  - destruct e; discriminate.
Qed.

Lemma Stat_inr_lookup f path info :
  os.Stat f path = inr info -> exists n, os.lookup f path = inr n.
Proof.
  unfold os.Stat. destruct (os.lookup f path) as [e|n]; [discriminate|eauto].
Qed.

Lemma lookup_nonempty f path n : os.lookup f path = inr n -> path <> "".
Proof. intros H ->. discriminate. Qed.

(** After the removal of the target its clean path names a free place,
    provided the output base directory can still be examined. *)
Lemma RemoveAll_frees args w f1 parentStat :
  dirExists (filepath.Join [BinPath args; Prefix args]) w = (Done true, w) ->
  os.RemoveAll (fs w) (filepath.Join [BinPath args; Prefix args]) = (None, f1) ->
  os.Stat f1 (BinPath args) = inr parentStat ->
  exists rooted k names name m es,
    filepath.Join [BinPath args; Prefix args]
    = filepath.render rooted (replicate k ".." ++ names ++ [name]) /\
    (rooted = true -> k = 0) /\ Forall isName names /\ isName name /\
    startsOK f1 rooted /\
    nodeAt (root f1) (baseOf f1 rooted k ++ names) = Some (Dir m es) /\
    lookupEntry name es = None.
Proof.
  intros Hex Hrm Hstat.
  destruct (dirExists_true_locate _ _ Hex) as (loc & n & Hloc & Hn).
  destruct (Stat_inr_lookup _ _ _ Hstat) as [n0 Hlook].
  pose proof (lookup_nonempty _ _ _ Hlook) as Hbin.
  destruct (Join2_shape (BinPath args) (Prefix args))
    as [E|(rooted & kept & E & Hc & Habs)].
  { rewrite E in Hloc. discriminate. }
  specialize (Habs Hbin). rewrite E in *.
  destruct (cleaned_cases _ _ Hc)
    as [(k & -> & Hk)|(k & names & name & -> & Hk & Hn' & Hname)].
  { pose proof (RemoveAll_dots (fs w) rooted k Hk) as Hd.
    rewrite Hrm in Hd. now destruct Hd. }
  destruct (locate_clean_Existing _ _ _ _ _ _ Hk Hn' Hname Hloc)
    as (Hs & -> & m & es & Hd & _).
  assert (Hf1 : f1 = update (fs w)
                  (baseOf (fs w) rooted k ++ names ++ [name]) None).
  { unfold os.RemoveAll in Hrm.
    pose proof (render_nonempty _ _ Hc) as Hne.
    apply String.eqb_neq in Hne. rewrite Hne in Hrm.
    destruct (os.endsWithDot _); [discriminate|].
    rewrite Hloc in Hrm.
    destruct (baseOf (fs w) rooted k ++ names ++ [name]) eqn:El.
    - apply app_eq_nil in El as [_ El]. apply app_eq_nil in El as [_ El].
      discriminate.
    - now inversion Hrm. }
  exists rooted, k, names, name, m, (setEntry name None es).
  split; [reflexivity|]. split; [exact Hk|]. split; [exact Hn'|].
  split; [exact Hname|]. split; [|split].
  - destruct rooted; [now left|right].
    eapply lookup_relative_cwd; [|exact Hlook]. now symmetry.
  - subst f1. rewrite root_update. cbn [baseOf update withRoot cwd].
    rewrite app_assoc. now apply nodeAt_setAt_parent.
  - apply lookupEntry_setEntry_eq.
Qed.

(** An entry of the shim directory is found under the joined path. *)
Lemma shimDirAt_entry f bp loc dm es n x :
  shimDirAt f bp loc dm es -> isName n -> lookupEntry n es = Some x ->
  os.lookup f (filepath.Join [bp; n]) = inr x.
Proof.
  intros [r k names name -> Hk Hn Hname -> Hs Hd] Hn' Hx.
  rewrite (Join_name r _ n (cleaned_snoc r k names name Hk Hn Hname) Hn').
  assert (Hnames : Forall isName (names ++ [name])).
  { apply Forall_app. split; [exact Hn|now constructor]. }
  pose proof (lookup_clean f r k (names ++ [name]) n x Hk Hnames Hn' Hs) as H.
  rewrite <- !app_assoc in *. apply H.
  replace (baseOf f r k ++ names ++ [name] ++ [n])
    with ((baseOf f r k ++ names ++ [name]) ++ [n])
    by now rewrite <- !app_assoc.
  now rewrite (nodeAt_snoc _ _ _ _ _ Hd).
Qed.

End Recreate.

(** C5, as the code has it.  The target directory exists and the first
    answers are unrecognised.  With at most three of them and then [y] or
    [yes] (in any case, surrounded by any white space) the directory is
    deleted and, provided the deletion succeeds and leaves the output base
    directory in place, created again with nothing but its marker.  With a
    fourth one the process ends fatally and the file tree is untouched. *)
Theorem confirmation_retries args w invalid rest :
  dirExists (filepath.Join [BinPath args; Prefix args]) w = (Done true, w) ->
  Forall (fun line => classify (line +:+ nl) = Unrecognised) invalid ->
  (forall yes f1 parentStat,
     length invalid <= 3 ->
     classify (yes +:+ nl) = Yes ->
     stdinLines w = invalid ++ yes :: rest ->
     os.RemoveAll (fs w) (filepath.Join [BinPath args; Prefix args])
     = (None, f1) ->
     os.Stat f1 (BinPath args) = inr parentStat ->
     exists w',
       (checkExisting (filepath.Join [BinPath args; Prefix args]) ;;;
        createDirectory args (filepath.Join [BinPath args; Prefix args])) w
       = (Done (Mode parentStat), w') /\
       stdinLines w' = rest /\
       ReadDirNames (fs w') (filepath.Join [BinPath args; Prefix args])
       = Some [btbMarker] /\
       ReadFile (fs w')
         (filepath.Join [filepath.Join [BinPath args; Prefix args]; btbMarker])
       = Some "")
  /\ (length invalid = 4 ->
      stdinLines w = invalid ++ rest ->
      (exists w',
         checkExisting (filepath.Join [BinPath args; Prefix args]) w
         = (Fatal tooManyTries, w') /\ fs w' = fs w)
      /\ forall o w2,
           rootCommandFunction args w = (o, w2) ->
           fs w2 = fs w /\ forall exeMap, o <> Done exeMap).
Proof.
  intros Hex Hinv. split.
  - intros yes f1 ps Hlen Hyes Hin Hrm Hstat.
    destruct (checkExisting_accepted _ w invalid yes rest Hex Hinv Hlen Hyes Hin)
      as [out Hce].
    destruct (RemoveAll_frees args w f1 ps Hex Hrm Hstat)
      as (rooted & k & names & name & m & es & E & Hk & Hn & Hname & Hs & Hd & Hfree).
    set (w1 := withFS (withStdout (withStdin w rest) out) f1).
    destruct (createDirectory_ok args w1 rooted k names name m es ps
                Hk Hn Hname Hs Hd Hfree Hstat) as (f' & Hcd & Hsd & _).
    rewrite <- E in Hcd, Hsd.
    exists (withFS w1 f'). split; [|split; [reflexivity|split]].
    + unfold bind. rewrite Hce. unfold orFatal. cbn [fs withStdout withStdin].
      rewrite Hrm. exact Hcd.
    + unfold ReadDirNames. cbn [fs withFS].
      now rewrite (shimDirAt_lookup _ _ _ _ _ Hsd).
    + unfold ReadFile. cbn [fs withFS].
      rewrite (shimDirAt_entry _ _ _ _ _ btbMarker _ Hsd isName_btbMarker eq_refl).
      reflexivity.
  - intros Hlen Hin.
    destruct (checkExisting_too_many _ w invalid rest Hex Hinv Hlen Hin)
      as (w' & Hce & Hfs).
    split; [now exists w'|].
    intros o w2 Hrun. unfold rootCommandFunction, bind in Hrun.
    destruct (currentExePath w) as [[exe|e|] w0] eqn:H0;
      apply currentExePath_world in H0; subst w0;
      [|inversion Hrun; subst; split; [reflexivity|discriminate]..].
    destruct (filterPaths _ [] w) as [[paths|e|] w0] eqn:H1;
      apply filterPaths_world in H1; subst w0;
      [|inversion Hrun; subst; split; [reflexivity|discriminate]..].
    rewrite Hce in Hrun. inversion Hrun; subst.
    split; [exact Hfs|discriminate].
Qed.

Lemma confirmation_retries_witness :
  (exists w',
     (checkExisting "/home/u/bin/myprefix" ;;;
      createDirectory scenarioArgs "/home/u/bin/myprefix") retryWorld
     = (Done (Z.lor ModeDir 493), w') /\
     stdinLines w' = ["later"] /\
     ReadDirNames (fs w') "/home/u/bin/myprefix" = Some [btbMarker] /\
     ReadFile (fs w') "/home/u/bin/myprefix/.btbMarker" = Some "")
  /\ (exists w',
        checkExisting "/home/u/bin/myprefix" tooManyWorld
        = (Fatal tooManyTries, w') /\ fs w' = fs tooManyWorld).
Proof.
  split.
  - refine (proj1 (confirmation_retries scenarioArgs retryWorld
                     ["maybe"; ""; "q"] ["later"] _ _)
              " Yes "
              (snd (os.RemoveAll (fs retryWorld) "/home/u/bin/myprefix"))
              {| Name := "bin"; Mode := Z.lor ModeDir 493;
                 Sys := SysStatPtr rootOwner |} _ _ _ _ _);
      try (vm_compute; reflexivity); try (repeat constructor).
  - refine (proj1 (proj2 (confirmation_retries scenarioArgs tooManyWorld
                     ["maybe"; ""; "q"; "x"] ["y"] _ _) _ _));
      try (vm_compute; reflexivity); try (repeat constructor).
Defined.

(** C5 as stated fails.  With an empty prefix the target is the output base
    directory itself: it exists, the answer is [y], the directory is deleted
    with what it held, and the process ends fatally when it looks for the
    base directory; nothing is created again. *)
Lemma empty_prefix_deletes_base_directory :
  filepath.Join [BinPath emptyPrefixArgs; Prefix emptyPrefixArgs] = "/home/u/bin"
  /\ dirExists "/home/u/bin" emptyPrefixWorld = (Done true, emptyPrefixWorld)
  /\ classify ("y" +:+ nl) = Yes
  /\ fst (rootCommandFunction emptyPrefixArgs emptyPrefixWorld) = Fatal ENOENT
  /\ os.lookup (fs (snd (rootCommandFunction emptyPrefixArgs emptyPrefixWorld)))
       "/home/u/bin" = inl ENOENT
  /\ ReadDirNames (fs emptyPrefixWorld) "/home/u/bin" = Some ["keep"].
Proof. repeat split; vm_compute; reflexivity. Qed.


(** ** The names of discovered executables *)

Section DiscoveredNames.

Lemma Base_render rooted kept name :
  cleaned rooted (kept ++ [name]) ->
  filepath.Base (filepath.render rooted (kept ++ [name])) = name.
Proof.
  intros Hc. unfold filepath.Base.
  pose proof (render_nonempty _ _ Hc) as Hne.
  apply String.eqb_neq in Hne. rewrite Hne.
  rewrite (elements_render _ _ Hc).
  assert (E : (if rooted then kept ++ [name]
               else match kept ++ [name] with
                    | [] => ["."]
                    | _ => kept ++ [name]
                    end) = kept ++ [name]).
  { destruct rooted; [reflexivity|].
    destruct (kept ++ [name]) eqn:E; [|reflexivity].
    destruct kept; discriminate. }
  now rewrite E, last_snoc.
Qed.

(** The base name of a joined path is the name that was joined. *)
Lemma Base_Join_name path name :
  isName name -> filepath.Base (filepath.Join [path; name]) = name.
Proof.
  intros Hname.
  assert (Hshape : exists X,
             filepath.Join [path; name] = filepath.Clean X /\ X <> "" /\
             filepath.elements X = filepath.elements path ++ [name]).
  { cbn [filepath.Join]. destruct (String.eqb_spec path "") as [->|Hp].
    - destruct Hname as [[Hne Hs] _].
      apply String.eqb_neq in Hne as Hne'. rewrite Hne'.
      exists name. cbn [strings.Join]. split; [reflexivity|].
      split; [exact Hne|]. rewrite elements_empty.
      now apply elements_element.
    - exists (path +:+ "/" +:+ name). cbn [strings.Join].
      split; [reflexivity|]. split.
      + destruct path; [contradiction|discriminate].
      + rewrite elements_app. f_equal.
        apply elements_element. now apply isName_isElement. }
  destruct Hshape as (X & -> & HX & Hels).
  unfold filepath.Clean. apply String.eqb_neq in HX. rewrite HX.
  rewrite Hels, fold_left_app. cbn [fold_left].
  rewrite cleanStep_name by exact Hname.
  apply Base_render.
  assert (Hk : cleaned (filepath.IsAbs X)
                 (fold_left (filepath.cleanStep (filepath.IsAbs X))
                    (filepath.elements path) [])).
  { apply fold_cleanStep_cleaned; [apply cleaned_nil|apply elements_isElement]. }
  destruct Hk as (k & names & -> & Hk0 & Hn).
  exists k, (names ++ [name]). rewrite <- app_assoc. repeat split; auto.
  apply Forall_app. split; [exact Hn|now constructor].
Qed.

Lemma plainBase_Join path name : isName name -> plainBase (filepath.Join [path; name]).
Proof.
  intros Hname. unfold plainBase. rewrite (Base_Join_name _ _ Hname).
  apply Hname.
Qed.

(** The path of a file that exists has a plain base name. *)
Lemma plainBase_file f path m s :
  os.lookup f path = inr (File m s) -> plainBase path.
Proof.
  unfold os.lookup, locate, plainBase, filepath.Base. intros H.
  destruct (String.eqb_spec path "") as [->|Hne]; [discriminate|].
  destruct (last (filepath.elements path)) as [c|] eqn:El.
  - apply last_Some_elem_of in El.
    pose proof (elements_isElement path) as He.
    rewrite Forall_forall in He. apply (He c El).
  - exfalso. destruct (filepath.IsAbs path) eqn:Habs.
    + cbn in H. discriminate.
    + destruct path as [|x r]; [contradiction|].
      apply last_None in El.
      apply (elements_relative x r); [|exact El].
      unfold filepath.IsAbs in Habs. cbn [HasPrefix] in Habs.
      now rewrite HasPrefix_nil, andb_true_r in Habs.
Qed.

Lemma collectFunc_plain path w p d err acc :
  Forall plainBase acc ->
  (forall info, d = Some info -> IsDir info = false -> plainBase p) ->
  plainStatus (collectFunc path w p d err acc).
Proof.
  intros Hacc Hp. unfold collectFunc.
  destruct d as [d|]; [|exact I].
  destruct (negb _ && IsDir d); [exact Hacc|].
  destruct err; [exact Hacc|].
  destruct (currentUser w); [|exact Hacc].
  destruct (IsDir d) eqn:Hd; [exact Hacc|].
  destruct (canExecute u d) as [[|]|e|]; cbn; auto.
  apply Forall_app. split; [exact Hacc|]. constructor; [|constructor].
  now apply (Hp d).
Qed.

Lemma walkDir_plain rt w n : forall path name acc,
  wfNode n ->
  Forall plainBase acc ->
  (forall m s, n = File m s -> plainBase path) ->
  plainStatus (walkDir (collectFunc rt w) path name n acc).
Proof.
  induction n as [m c|m es IH] using node_induction;
    intros path name acc Hwf Hacc Hfile.
  - rewrite walkDir_unfold.
    pose proof (collectFunc_plain rt w path
                  (Some (os.infoOf name (File m c))) None acc Hacc) as H.
    destruct (collectFunc rt w path _ None acc); cbn in *;
      try (apply H; intros; eapply Hfile; reflexivity); auto.
    destruct (IsDir _); cbn; apply H; intros; eapply Hfile; reflexivity.
  - rewrite walkDir_unfold.
    pose proof (collectFunc_plain rt w path
                  (Some (os.infoOf name (Dir m es))) None acc Hacc) as H.
    assert (Hd : forall info, Some (os.infoOf name (Dir m es)) = Some info ->
                   IsDir info = false -> plainBase path).
    { intros info E Hi. injection E as <-. rewrite IsDir_Dir in Hi.
      discriminate. }
    specialize (H Hd). apply wfNode_Dir in Hwf.
    destruct (collectFunc rt w path _ None acc) as [s1|s1|e s1|e|];
      cbn [plainStatus] in *; auto.
    + clear Hd Hfile. revert s1 H.
      induction IH as [|[name1 n1] rest Hn1 _ IHrest]; intros s1 Hs1;
        [exact Hs1|].
      cbn [walkEntries]. cbn [wfEntries] in Hwf.
      destruct Hwf as (Hname1 & Hwf1 & Hrest). cbn [snd] in Hn1.
      pose proof (Hn1 (filepath.Join [path; name1]) name1 s1 Hwf1 Hs1
                    (fun _ _ _ => plainBase_Join path name1 Hname1)) as Hstep.
      destruct (walkDir _ _ name1 n1 s1); cbn in *; auto.
    + destruct (IsDir _); cbn; exact H.
Qed.

(** Every path the second pass collects has a plain base name. *)
Lemma found_plain w d p :
  wfFS (fs w) -> p ∈ found w d -> plainBase p.
Proof.
  intros Hwf. unfold found, WalkDir.
  destruct (os.lookup (fs w) d) as [e|n] eqn:Hl.
  - cbn. intros H. inversion H.
  - assert (Hn : wfNode n).
    { unfold os.lookup in Hl.
      destruct (locate (fs w) d) as [loc| |]; try discriminate.
      destruct (nodeAt (root (fs w)) loc) eqn:En; [|discriminate].
      injection Hl as ->. eapply wfNode_nodeAt; [|exact En].
      now apply wfFS_root. }
    pose proof (walkDir_plain d w n d (filepath.Base d) [] Hn (Forall_nil_2 _)) as H.
    assert (Hfile : forall m s, n = File m s -> plainBase d).
    { intros m s ->. eapply plainBase_file. exact Hl. }
    specialize (H Hfile).
    destruct (walkDir (collectFunc d w) d (filepath.Base d) n []);
      cbn in *; intros Hp; try (inversion Hp; fail).
    + rewrite Forall_forall in H. now apply H.
    + rewrite Forall_forall in H. now apply H.
Qed.

Lemma discover_plain paths w exeMap w' exe exePath :
  wfFS (fs w) ->
  discover paths w = (Done exeMap, w') ->
  exeMap !! exe = Some exePath ->
  hasByte "/" exe = false /\ filepath.Base exePath = exe.
Proof.
  intros Hwf Hd Hexe. apply discover_spec in Hd as [_ ->].
  rewrite buildExeMap_lookup in Hexe.
  apply last_Some_elem_of in Hexe. unfold named in Hexe.
  apply list_elem_of_filter in Hexe as [Hbase Hp].
  apply elem_of_foundAll in Hp as (d & _ & Hp).
  split; [|exact Hbase]. rewrite <- Hbase.
  eapply found_plain; eassumption.
Qed.

End DiscoveredNames.

(** ** The shims of a mapping *)

Section Generation.

Lemma shimOf_Some args fm entries exe exePath :
  NoDup (map fst entries) -> (exe, exePath) ∈ entries ->
  shimOf args fm entries (fileNameOf args exe)
  = Some (File fm (fileContentsOf args exePath)).
Proof.
  induction entries as [|[e p] rest IH]; intros Hnd Hin.
  - inversion Hin.
  - cbn [map fst] in Hnd. apply NoDup_cons in Hnd as [Hfresh Hnd].
    cbn [shimOf].
    destruct (String.eqb_spec (fileNameOf args exe) (fileNameOf args e)) as [E|E].
    + apply fileNameOf_inj in E. subst e.
      apply elem_of_cons in Hin as [Hin|Hin]; [congruence|].
      exfalso. apply Hfresh. apply list_elem_of_fmap.
      now exists (exe, exePath).
    + apply elem_of_cons in Hin as [Hin|Hin]; [congruence|].
      now apply IH.
Qed.

Lemma NoDup_fileNames args (entries : list (string * string)) :
  NoDup (map fst entries) ->
  NoDup (map (fun e => fileNameOf args (fst e)) entries).
Proof.
  induction entries as [|[e p] rest IH]; intros Hnd; [constructor|].
  cbn [map fst] in *. apply NoDup_cons in Hnd as [Hfresh Hnd].
  apply NoDup_cons. split; [|now apply IH].
  intros Hin. apply list_elem_of_fmap in Hin as ([e' p'] & E & Hin).
  cbn [fst] in E. apply fileNameOf_inj in E. subst e'.
  apply Hfresh. apply list_elem_of_fmap. now exists (e, p').
Qed.

Lemma lookupEntry_marker_only n x :
  n <> btbMarker -> lookupEntry n [(btbMarker, x)] = None.
Proof.
  intros Hn. cbn [lookupEntry].
  destruct (String.eqb_spec btbMarker n); [congruence|reflexivity].
Qed.

(** [populate] on a directory that holds the marker alone: it ends
    normally, and the directory then lists the marker and one shim for
    each entry. *)
Lemma populate_fresh args bp mode entries w loc dm marker :
  shimDirAt (fs w) bp loc dm [(btbMarker, marker)] ->
  hasByte "/" (Prefix args) = false ->
  Forall (fun e => hasByte "/" (fst e) = false) entries ->
  NoDup (map fst entries) ->
  exists f' es',
    populate args bp mode entries w = (Done tt, withFS w f') /\
    shimDirAt f' bp loc dm es' /\
    (forall n, lookupEntry n es'
               = match shimOf args (createdMeta (fs w) mode) entries n with
                 | Some x => Some x
                 | None => lookupEntry n [(btbMarker, marker)]
                 end).
Proof.
  intros Hsd Hp Hplain Hnd.
  destruct (populate_spec args bp mode entries w loc dm
              [(btbMarker, marker)] Hsd) as (f' & es' & Hrun & Hsd' & Hes & _).
  - eapply Forall_impl; [exact Hplain|].
    intros e He. now apply isName_fileNameOf.
  - now apply NoDup_fileNames.
  - apply Forall_forall. intros e _. apply lookupEntry_marker_only.
    apply fileNameOf_not_marker.
  - exists f', es'. auto.
Qed.

Lemma fileIn_shimDir f bp loc dm es n :
  shimDirAt f bp loc dm es ->
  fileIn f bp n = match lookupEntry n es with
                  | Some (File _ contents) => Some contents
                  | _ => None
                  end.
Proof.
  intros Hsd. unfold fileIn. now rewrite (shimDirAt_lookup _ _ _ _ _ Hsd).
Qed.

Lemma map_to_list_plain (m : gmap string string) :
  (forall exe p, m !! exe = Some p -> hasByte "/" exe = false) ->
  Forall (fun e => hasByte "/" (fst e) = false) (map_to_list m).
Proof.
  intros H. apply Forall_forall. intros [exe p] Hin.
  apply elem_of_map_to_list in Hin. exact (H exe p Hin).
Qed.

End Generation.

(** C6, amended.  In a run that ends normally, with a prefix free of path
    separators, every discovered pair of a name and a path has its shim:
    the shim directory lists a file named [{prefix}-{name}], and its
    contents are exactly the interpreter line, an empty line and the line
    [toolbox run -c {container} {path} $@] with its line feed. *)
Theorem shim_written_for_every_pair args w exeMap w' exe exePath :
  wfFS (fs w) ->
  hasByte "/" (Prefix args) = false ->
  rootCommandFunction args w = (Done exeMap, w') ->
  exeMap !! exe = Some exePath ->
  let binPath := filepath.Join [BinPath args; Prefix args] in
  let fileName := Prefix args +:+ "-" +:+ exe in
  let contents :=
    "#!/usr/bin/env bash" +:+ nl +:+ nl +:+
    "toolbox run -c " +:+ Container args +:+ " " +:+ exePath +:+ " $@" +:+ nl in
  fileIn (fs w') binPath fileName = Some contents /\
  ReadFile (fs w') (filepath.Join [binPath; fileName]) = Some contents.
Proof.
  intros Hwf Hprefix Hrun Hexe binPath fileName contents.
  apply run_phases in Hrun
    as (paths & w1 & mode & wc & w2 & _ & Hcheck & Hcreate & Hdisc & Hpop & ->).
  pose proof (checkExisting_wf _ _ _ Hcheck Hwf) as Hwf1.
  apply createDirectory_Done in Hcreate
    as (fc & loc & parentStat & -> & _ & _ & Hsd & _ & _ & Hwfc).
  specialize (Hwfc Hwf1).
  assert (Hplain : forall e p, exeMap !! e = Some p -> hasByte "/" e = false).
  { intros e p He.
    now destruct (discover_plain paths (withFS w1 fc) _ _ _ _ Hwfc Hdisc He). }
  destruct (populate_fresh args binPath mode (map_to_list exeMap)
              (withFS w1 fc) loc _ _ Hsd Hprefix
              (map_to_list_plain _ Hplain) (NoDup_fst_map_to_list _))
    as (f' & es' & Hpop' & Hsd' & Hes).
  fold binPath in Hpop. rewrite Hpop' in Hpop. injection Hpop as <-.
  change (fs (withStdout (withFS (withFS w1 fc) f') _)) with f'.
  assert (Hentry : lookupEntry fileName es'
                   = Some (File (createdMeta fc mode) contents)).
  { rewrite Hes. subst fileName. rewrite <- fileNameOf_eq.
    rewrite (shimOf_Some args _ (map_to_list exeMap) exe exePath).
    - now rewrite fileContentsOf_eq.
    - apply NoDup_fst_map_to_list.
    - now apply elem_of_map_to_list. }
  split.
  - rewrite (fileIn_shimDir _ _ _ _ _ fileName Hsd'). now rewrite Hentry.
  - unfold ReadFile.
    rewrite (shimDirAt_entry _ _ _ _ _ fileName
               (File (createdMeta fc mode) contents) Hsd');
      [reflexivity| |exact Hentry].
    subst fileName. rewrite <- fileNameOf_eq.
    apply isName_fileNameOf; [exact Hprefix|]. eapply Hplain, Hexe.
Qed.

Lemma shim_written_for_every_pair_witness :
  fileIn (fs scenarioEnd) "/home/u/bin/myprefix" "myprefix-foo"
  = Some ("#!/usr/bin/env bash" +:+ nl +:+ nl +:+
          "toolbox run -c mycontainer /usr/bin/foo $@" +:+ nl) /\
  ReadFile (fs scenarioEnd) "/home/u/bin/myprefix/myprefix-foo"
  = Some ("#!/usr/bin/env bash" +:+ nl +:+ nl +:+
          "toolbox run -c mycontainer /usr/bin/foo $@" +:+ nl).
Proof.
  apply (shim_written_for_every_pair scenarioArgs scenarioWorld scenarioMap
           scenarioEnd "foo" "/usr/bin/foo").
  - cbv [wfFS scenarioWorld worldOf fs rootEntries scenarioTree dir exeFile
         wfEntries wfNode isName isElement].
    repeat split; (discriminate || reflexivity).
  - reflexivity.
  - vm_compute; reflexivity.
  - vm_compute; reflexivity.
Defined.

(** C6 as stated fails.  The prefix [../pre] puts the shim directory at
    [/home/u/pre] and the shim of [foo] next to it, at [/home/u/pre-foo];
    a longer file is there already, the file is opened without truncation,
    and the end of the old contents stays behind the shim text. *)
Lemma shim_text_followed_by_old_bytes :
  fst (rootCommandFunction outsideArgs outsideWorld) = Done scenarioMap /\
  filepath.Join [filepath.Join [BinPath outsideArgs; Prefix outsideArgs];
                 Prefix outsideArgs +:+ "-" +:+ "foo"]
  = "/home/u/pre-foo" /\
  ReadFile (fs outsideEnd) "/home/u/pre-foo"
  = Some ("#!/usr/bin/env bash" +:+ nl +:+ nl +:+
          "toolbox run -c mycontainer /usr/bin/foo $@" +:+ nl +:+
          "n/foo $@" +:+ nl) /\
  ReadFile (fs outsideEnd) "/home/u/pre-foo"
  <> Some ("#!/usr/bin/env bash" +:+ nl +:+ nl +:+
           "toolbox run -c mycontainer /usr/bin/foo $@" +:+ nl) /\
  fileIn (fs outsideEnd)
    (filepath.Join [BinPath outsideArgs; Prefix outsideArgs])
    (Prefix outsideArgs +:+ "-" +:+ "foo") = None.
Proof.
  split; [vm_compute; reflexivity|].
  split; [vm_compute; reflexivity|].
  split; [vm_compute; reflexivity|].
  split; [vm_compute; discriminate|].
  vm_compute; reflexivity.
Qed.

(** ** The path of a shim under any prefix *)

Section Lexical.

Lemma removelast_cons_ne {A} (x : A) l : l <> [] -> removelast (x :: l) = x :: removelast l.
Proof. destruct l; [contradiction|reflexivity]. Qed.

Lemma last_cons_ne {A} (x : A) l : l <> [] -> last (x :: l) = last l.
Proof. destruct l; [contradiction|reflexivity]. Qed.

Lemma lastPiece_cons_sep p : lastPiece (String "/" p) = lastPiece p.
Proof.
  unfold lastPiece, filepath.Separator. cbn [Split]. rewrite Ascii.eqb_refl.
  now rewrite last_cons_ne by apply Split_nonempty.
Qed.

(** Appending a text free of separators lengthens the last piece. *)
Lemma Split_append_plain p t :
  hasByte "/" t = false ->
  Split (p +:+ t) "/"
  = removelast (Split p "/") ++ [lastPiece p +:+ t].
Proof.
  intros Ht. induction p as [|c p IH].
  - cbn. now apply Split_no_sep.
  - change (String c p +:+ t) with (String c (p +:+ t)). cbn [Split].
    destruct (Ascii.eqb_spec c "/") as [->|Hc].
    + rewrite IH, lastPiece_cons_sep.
      now rewrite removelast_cons_ne by apply Split_nonempty.
    + rewrite IH. unfold lastPiece, filepath.Separator. cbn [Split].
      apply Ascii.eqb_neq in Hc. rewrite Hc.
      destruct (Split p "/") as [|h [|h2 rest]] eqn:E.
      * now destruct (Split_nonempty p "/").
      * reflexivity.
      * cbn [removelast app last]. reflexivity.
Qed.

Lemma lastPiece_plain p : hasByte "/" (lastPiece p) = false.
Proof.
  unfold lastPiece. destruct (last (Split p filepath.Separator)) as [c|] eqn:E;
    [|reflexivity].
  apply last_Some_elem_of in E.
  pose proof (Split_pieces p filepath.Separator) as H.
  rewrite Forall_forall in H. exact (H c E).
Qed.

Lemma shimName_eq args exe :
  fileNameOf args exe = Prefix args +:+ ("-" +:+ exe).
Proof. rewrite fileNameOf_eq. reflexivity. Qed.

Lemma hasByte_dash_plain exe :
  hasByte "/" exe = false -> hasByte "/" ("-" +:+ exe) = false.
Proof. intros H. change ("-" +:+ exe) with (String "-" exe). cbn. exact H. Qed.

Lemma isName_shimName args exe :
  hasByte "/" exe = false -> isName (shimName args exe).
Proof.
  intros He. unfold shimName.
  assert (Hdash : hasByte "-" (lastPiece (Prefix args) +:+ "-" +:+ exe) = true).
  { rewrite hasByte_append. change ("-" +:+ exe) with (String "-" exe).
    cbn [hasByte]. rewrite Ascii.eqb_refl. apply orb_true_r. }
  repeat split.
  - intros E. rewrite E in Hdash. discriminate.
  - rewrite hasByte_append, lastPiece_plain. now apply hasByte_dash_plain.
  - intros E. rewrite E in Hdash. discriminate.
  - intros E. rewrite E in Hdash. discriminate.
Qed.

Lemma shimName_inj args exe1 exe2 :
  shimName args exe1 = shimName args exe2 -> exe1 = exe2.
Proof.
  unfold shimName. intros H. apply String.app_inj in H.
  change ("-" +:+ exe1) with (String "-" exe1) in H.
  change ("-" +:+ exe2) with (String "-" exe2) in H. congruence.
Qed.

Lemma shimName_not_marker args exe : shimName args exe <> btbMarker.
Proof.
  intros E.
  assert (Hdash : hasByte "-" (shimName args exe) = true).
  { unfold shimName. rewrite hasByte_append.
    change ("-" +:+ exe) with (String "-" exe).
    cbn [hasByte]. rewrite Ascii.eqb_refl. apply orb_true_r. }
  rewrite E in Hdash. discriminate.
Qed.

Lemma elements_fileNameOf args exe :
  hasByte "/" exe = false ->
  filepath.elements (fileNameOf args exe)
  = dirPieces (Prefix args) ++ [shimName args exe].
Proof.
  intros He. unfold filepath.elements, dirPieces, filepath.Separator.
  rewrite shimName_eq, Split_append_plain by now apply hasByte_dash_plain.
  rewrite filter_app. f_equal.
  rewrite filter_cons, decide_True; [reflexivity|].
  apply nonEmpty_true. apply (isName_shimName args exe He).
Qed.

Lemma dirPieces_isElement p : Forall isElement (dirPieces p).
Proof.
  unfold dirPieces. apply Forall_forall. intros c Hc.
  apply list_elem_of_filter in Hc as [Hne Hc].
  split; [now apply nonEmpty_true|].
  pose proof (Split_pieces p filepath.Separator) as H.
  rewrite Forall_forall in H. apply H.
  destruct (Split p filepath.Separator) as [|x l] using rev_ind;
    [inversion Hc|].
  rewrite removelast_last in Hc. apply elem_of_app. now left.
Qed.

(** The path of a shim: the elements the prefix leads to from the shim
    directory, and the shim's name. *)
Lemma shimPath_shape args rooted kept :
  cleaned rooted kept ->
  exists k names,
    (rooted = true -> k = 0) /\ Forall isName names /\
    forall exe, hasByte "/" exe = false ->
      filepath.Join [filepath.render rooted kept; fileNameOf args exe]
      = filepath.render rooted
          (replicate k ".." ++ names ++ [shimName args exe]).
Proof.
  intros Hc.
  pose proof (fold_cleanStep_cleaned rooted (dirPieces (Prefix args)) kept Hc
                (dirPieces_isElement _)) as (k & names & Hs & Hk & Hn).
  exists k, names. split; [exact Hk|]. split; [exact Hn|].
  intros exe He.
  pose proof (render_nonempty _ _ Hc) as Hne.
  cbn [filepath.Join]. apply String.eqb_neq in Hne as Hne'. rewrite Hne'.
  cbn [strings.Join]. unfold filepath.Clean.
  destruct (String.eqb_spec
              (filepath.render rooted kept +:+ "/" +:+ fileNameOf args exe) "")
    as [E|_].
  { destruct (filepath.render rooted kept); [contradiction|discriminate]. }
  rewrite IsAbs_append, (IsAbs_render _ _ Hc) by exact Hne.
  rewrite elements_app, (elements_fileNameOf args exe He).
  rewrite !fold_left_app, (elements_render _ _ Hc). cbn [fold_left].
  assert (Hfold : fold_left (filepath.cleanStep rooted)
            (if rooted then kept
             else match kept with [] => ["."] | _ => kept end) [] = kept).
  { destruct rooted; [now apply fold_cleanStep_id|].
    destruct kept; [reflexivity|now apply fold_cleanStep_id]. }
  rewrite Hfold, Hs, cleanStep_name by now apply isName_shimName.
  now rewrite <- app_assoc.
Qed.

End Lexical.

(** ** Files written into a directory *)

Section Directory.

Lemma changedAt_refl ls f : changedAt ls f f.
Proof. repeat split; eauto. Qed.

Lemma changedAt_trans ls f1 f2 f3 :
  changedAt ls f1 f2 -> changedAt ls f2 f3 -> changedAt ls f1 f3.
Proof.
  intros (Hc1 & Hu1 & Ho1 & Ha1 & Hd1) (Hc2 & Hu2 & Ho2 & Ha2 & Hd2).
  repeat split; try congruence.
  - intros q Hq. now rewrite Ha2, Ha1.
  - intros q m es Hq H. destruct (Hd1 q m es Hq H) as [es' H'].
    exact (Hd2 q m es' Hq H').
Qed.

Lemma changedBelow_changedAt l ls f f' :
  l ∈ ls -> changedBelow l f f' -> changedAt ls f f'.
Proof.
  intros Hl (Hc & Hu & Ho & Ha & Hd).
  split; [exact Hc|]. split; [exact Hu|]. split; [exact Ho|]. split.
  - intros q Hq. apply Ha. now apply Hq.
  - intros q m es Hq. apply Hd. now apply Hq.
Qed.

Lemma changedAt_mono ls ls' f f' :
  ls ⊆ ls' -> changedAt ls f f' -> changedAt ls' f f'.
Proof.
  intros Hsub (Hc & Hu & Ho & Ha & Hd).
  split; [exact Hc|]. split; [exact Hu|]. split; [exact Ho|]. split.
  - intros q Hq. apply Ha. intros l Hl. apply Hq, Hsub, Hl.
  - intros q m es Hq. apply Hd. intros l Hl. apply Hq, Hsub, Hl.
Qed.

(** Opening a name that is a directory fails. *)
Lemma open_in_dir_EISDIR f r k names loc dm es L mode m' e' :
  dirAt f r k names loc dm es -> isName L ->
  lookupEntry L es = Some (Dir m' e') ->
  os.OpenFile f (filepath.render r (replicate k ".." ++ names ++ [L])) mode
  = (inl EISDIR, f).
Proof.
  intros [Hk Hn -> Hs Hd] HL Hl. unfold os.OpenFile.
  rewrite (locate_clean f r k names L dm es Hk Hn HL Hs Hd), Hl.
  rewrite app_assoc, (nodeAt_snoc _ _ _ _ _ Hd), Hl. reflexivity.
Qed.

(** Opening and writing a name that is free or a file: the file then holds
    the text, and behind it what an older, longer file held there. *)
Lemma open_write_in_dir f r k names loc dm es L mode s :
  dirAt f r k names loc dm es -> isName L ->
  (forall m' e', lookupEntry L es <> Some (Dir m' e')) ->
  exists f1 f2 es',
    os.OpenFile f (filepath.render r (replicate k ".." ++ names ++ [L])) mode
    = (inr (loc ++ [L]), f1) /\
    os.WriteString f1 (loc ++ [L]) s = (None, f2) /\
    dirAt f2 r k names loc dm es' /\
    (forall n, lookupEntry n es'
               = if decide (n = L)
                 then Some (overwrite (createdMeta f mode) (lookupEntry L es) s)
                 else lookupEntry n es) /\
    changedBelow (loc ++ [L]) f f2.
Proof.
  intros [Hk Hn -> Hs Hd] HL Hnd.
  set (loc := baseOf f r k ++ names) in *.
  pose proof (locate_clean f r k names L dm es Hk Hn HL Hs Hd) as Hloc.
  rewrite (app_assoc (baseOf f r k) names [L]) in Hloc. fold loc in Hloc.
  pose proof (nodeAt_snoc _ _ L _ _ Hd) as Hat.
  destruct (lookupEntry L es) as [[m0 old|m' e']|] eqn:El.
  - (* an older file *)
    set (new := File m0 (s +:+ os.dropBytes (String.length s) old)).
    exists f, (update f (loc ++ [L]) (Some new)), (setEntry L (Some new) es).
    assert (Hopen : os.OpenFile f
              (filepath.render r (replicate k ".." ++ names ++ [L])) mode
            = (inr (loc ++ [L]), f)).
    { unfold os.OpenFile. now rewrite Hloc, Hat. }
    assert (Hwrite : os.WriteString f (loc ++ [L]) s
                     = (None, update f (loc ++ [L]) (Some new))).
    { unfold os.WriteString. now rewrite Hat. }
    split; [exact Hopen|]. split; [exact Hwrite|]. split; [|split].
    + apply DirAt; [exact Hk|exact Hn|reflexivity| |].
      * apply startsOK_update; [exact Hs|]. right. now exists m0, old.
      * rewrite root_update. now apply nodeAt_setAt_parent.
    + intros n. rewrite lookupEntry_setEntry.
      destruct (decide (n = L)); reflexivity.
    + apply changedBelow_update_at.
  - destruct (Hnd m' e' eq_refl).
  - (* a new file *)
    set (F0 := File (createdMeta f mode) "").
    set (F1 := File (createdMeta f mode) s).
    set (f1 := update f (loc ++ [L]) (Some F0)).
    exists f1, (update f1 (loc ++ [L]) (Some F1)),
      (setEntry L (Some F1) (setEntry L (Some F0) es)).
    assert (Hopen : os.OpenFile f
              (filepath.render r (replicate k ".." ++ names ++ [L])) mode
            = (inr (loc ++ [L]), f1)).
    { unfold os.OpenFile. now rewrite Hloc. }
    assert (H1dir : nodeAt (root f1) loc
                    = Some (Dir dm (setEntry L (Some F0) es))).
    { unfold f1. rewrite root_update. now apply nodeAt_setAt_parent. }
    assert (H1file : nodeAt (root f1) (loc ++ [L]) = Some F0).
    { unfold f1. rewrite root_update. eapply nodeAt_setAt_eq. exact Hd. }
    assert (Hwrite : os.WriteString f1 (loc ++ [L]) s
                     = (None, update f1 (loc ++ [L]) (Some F1))).
    { unfold os.WriteString. rewrite H1file. unfold F0, F1.
      now rewrite dropBytes_nil, append_nil_r. }
    assert (Hs1 : startsOK f1 r).
    { apply startsOK_update; [exact Hs|now left]. }
    split; [exact Hopen|]. split; [exact Hwrite|]. split; [|split].
    + apply DirAt; [exact Hk|exact Hn|reflexivity| |].
      * apply startsOK_update; [exact Hs1|]. right.
        now exists (createdMeta f mode), "".
      * rewrite root_update. now apply nodeAt_setAt_parent.
    + intros n. rewrite !lookupEntry_setEntry.
      destruct (decide (n = L)); reflexivity.
    + eapply changedBelow_trans; apply changedBelow_update_at.
Qed.

Lemma shimOver_None args cm es entries n :
  n ∉ map (fun e => shimName args (fst e)) entries ->
  shimOver args cm es entries n = None.
Proof.
  induction entries as [|[e p] rest IH]; intros Hn; [reflexivity|].
  cbn [shimOver]. cbn [map fst] in Hn.
  apply not_elem_of_cons in Hn as [Hne Hn].
  apply String.eqb_neq in Hne. rewrite Hne. now apply IH.
Qed.

Lemma shimOver_ext args cm es es' entries n :
  lookupEntry n es = lookupEntry n es' ->
  shimOver args cm es entries n = shimOver args cm es' entries n.
Proof.
  intros E. induction entries as [|[e p] rest IH]; [reflexivity|].
  cbn [shimOver]. now rewrite E, IH.
Qed.

Lemma shimOver_Some args cm es entries exe exePath :
  NoDup (map fst entries) -> (exe, exePath) ∈ entries ->
  shimOver args cm es entries (shimName args exe)
  = Some (overwrite cm (lookupEntry (shimName args exe) es)
            (fileContentsOf args exePath)).
Proof.
  induction entries as [|[e p] rest IH]; intros Hnd Hin.
  - inversion Hin.
  - cbn [map fst] in Hnd. apply NoDup_cons in Hnd as [Hfresh Hnd].
    cbn [shimOver].
    destruct (String.eqb_spec (shimName args exe) (shimName args e)) as [E|E].
    + apply shimName_inj in E. subst e.
      apply elem_of_cons in Hin as [Hin|Hin]; [congruence|].
      exfalso. apply Hfresh. apply list_elem_of_fmap.
      now exists (exe, exePath).
    + apply elem_of_cons in Hin as [Hin|Hin]; [congruence|].
      now apply IH.
Qed.

Lemma shimOver_Some_inv args cm es entries n x :
  shimOver args cm es entries n = Some x ->
  exists exe exePath,
    (exe, exePath) ∈ entries /\ n = shimName args exe /\
    x = overwrite cm (lookupEntry n es) (fileContentsOf args exePath).
Proof.
  induction entries as [|[e p] rest IH]; [discriminate|].
  cbn [shimOver]. destruct (String.eqb_spec n (shimName args e)) as [->|E].
  - intros H. injection H as <-. exists e, p. split; [left|auto].
  - intros H. destruct (IH H) as (exe & exePath & Hin & Hn & Hx).
    exists exe, exePath. split; [now right|auto].
Qed.

End Directory.

(** ** Populating a directory *)

Section PopulateDirectory.

Variables (args : Args) (bp : string) (mode : Z).
Variables (r : bool) (k : nat) (names : list string).

Hypothesis Hpath : forall exe, hasByte "/" exe = false ->
  filepath.Join [bp; fileNameOf args exe]
  = filepath.render r (replicate k ".." ++ names ++ [shimName args exe]).

Lemma writeShim_dir_EISDIR exe p w loc dm es m' e' :
  hasByte "/" exe = false ->
  dirAt (fs w) r k names loc dm es ->
  lookupEntry (shimName args exe) es = Some (Dir m' e') ->
  fst (writeShim args bp mode (exe, p) w) = Fatal EISDIR.
Proof.
  intros He Hd Hl. unfold writeShim. fold (fileNameOf args exe).
  rewrite (Hpath exe He).
  rewrite (open_in_dir_EISDIR _ _ _ _ _ _ _ _ mode _ _ Hd
             (isName_shimName args exe He) Hl).
  reflexivity.
Qed.

Lemma writeShim_dir exe p w loc dm es :
  hasByte "/" exe = false ->
  dirAt (fs w) r k names loc dm es ->
  (forall m' e', lookupEntry (shimName args exe) es <> Some (Dir m' e')) ->
  exists f' es',
    writeShim args bp mode (exe, p) w = (Done tt, withFS w f') /\
    dirAt f' r k names loc dm es' /\
    (forall n, lookupEntry n es'
               = if decide (n = shimName args exe)
                 then Some (overwrite (createdMeta (fs w) mode)
                              (lookupEntry (shimName args exe) es)
                              (fileContentsOf args p))
                 else lookupEntry n es) /\
    changedBelow (loc ++ [shimName args exe]) (fs w) f'.
Proof.
  intros He Hd Hl.
  destruct (open_write_in_dir _ _ _ _ _ _ _ _ mode (fileContentsOf args p) Hd
              (isName_shimName args exe He) Hl)
    as (f1 & f2 & es' & Hopen & Hwrite & Hd' & Hes & Hch).
  exists f2, es'. split; [|auto].
  unfold writeShim. fold (fileNameOf args exe). rewrite (Hpath exe He), Hopen.
  unfold orFatal. cbn [fs withFS].
  fold (fileContentsOf args p). now rewrite Hwrite.
Qed.

(** [populate] in a directory where no shim name is that of a directory:
    it ends normally; each shim is written over what its name held. *)
Lemma populate_dir entries : forall w loc dm es,
  Forall (fun e => hasByte "/" (fst e) = false) entries ->
  NoDup (map fst entries) ->
  dirAt (fs w) r k names loc dm es ->
  (forall e m' e', e ∈ entries ->
     lookupEntry (shimName args (fst e)) es <> Some (Dir m' e')) ->
  exists f' es',
    populate args bp mode entries w = (Done tt, withFS w f') /\
    dirAt f' r k names loc dm es' /\
    (forall n, lookupEntry n es'
               = match shimOver args (createdMeta (fs w) mode) es entries n with
                 | Some x => Some x
                 | None => lookupEntry n es
                 end) /\
    changedAt (shimLocs args loc entries) (fs w) f'.
Proof.
  induction entries as [|[exe p] rest IH]; intros w loc dm es Hplain Hnd Hd Hes.
  - exists (fs w), es. split; [destruct w; reflexivity|].
    split; [exact Hd|]. split; [reflexivity|apply changedAt_refl].
  - inversion Hplain as [|? ? He Hplain']; subst. cbn [fst] in He.
    cbn [map fst] in Hnd. apply NoDup_cons in Hnd as [Hfresh Hnd].
    destruct (writeShim_dir exe p w loc dm es He Hd) as
      (f1 & es1 & Hw & Hd1 & Hl1 & Hch1).
    { intros m' e'. apply (Hes (exe, p)). left. }
    assert (Hother : forall e, e ∈ rest ->
              shimName args (fst e) <> shimName args exe).
    { intros [e p'] Hin E. cbn [fst] in E. apply shimName_inj in E. subst e.
      apply Hfresh. apply list_elem_of_fmap. now exists (exe, p'). }
    destruct (IH (withFS w f1) loc dm es1 Hplain' Hnd Hd1)
      as (f2 & es2 & Hp & Hd2 & Hl2 & Hch2).
    { intros e m' e' Hin. rewrite Hl1.
      rewrite decide_False by now apply Hother.
      apply Hes. now right. }
    cbn [fs withFS] in *.
    exists f2, es2. split; [|split; [exact Hd2|split]].
    + cbn [populate]. unfold bind. rewrite Hw. exact Hp.
    + intros n. rewrite Hl2. cbn [shimOver].
      destruct Hch1 as (_ & Hu1 & Ho1 & _).
      rewrite (createdMeta_same (fs w) f1 mode Hu1 Ho1).
      destruct (String.eqb_spec n (shimName args exe)) as [->|Hne].
      * rewrite shimOver_None.
        -- rewrite Hl1. now rewrite decide_True.
        -- intros Hin. apply list_elem_of_fmap in Hin as (e & E & Hin).
           now apply (Hother e Hin).
      * rewrite (shimOver_ext args _ es1 es rest n).
        -- rewrite Hl1. now rewrite decide_False.
        -- rewrite Hl1. now rewrite decide_False.
    + eapply changedAt_trans.
      * apply (changedBelow_changedAt (loc ++ [shimName args exe]));
          [left|exact Hch1].
      * eapply changedAt_mono; [|exact Hch2].
        intros l Hl. now right.
Qed.

(** When [populate] has ended normally, no shim name was that of a
    directory. *)
Lemma populate_dir_Done entries : forall w w' loc dm es,
  Forall (fun e => hasByte "/" (fst e) = false) entries ->
  NoDup (map fst entries) ->
  dirAt (fs w) r k names loc dm es ->
  populate args bp mode entries w = (Done tt, w') ->
  forall e m' e', e ∈ entries ->
    lookupEntry (shimName args (fst e)) es <> Some (Dir m' e').
Proof.
  induction entries as [|[exe p] rest IH];
    intros w w' loc dm es Hplain Hnd Hd Hrun e m' e' Hin.
  - inversion Hin.
  - inversion Hplain as [|? ? He Hplain']; subst. cbn [fst] in He.
    cbn [map fst] in Hnd. apply NoDup_cons in Hnd as [Hfresh Hnd].
    cbn [populate] in Hrun. unfold bind in Hrun.
    assert (Hfirst : forall m1 e1,
              lookupEntry (shimName args exe) es <> Some (Dir m1 e1)).
    { intros m1 e1 Hl.
      pose proof (writeShim_dir_EISDIR exe p w loc dm es m1 e1 He Hd Hl) as Hf.
      destruct (writeShim args bp mode (exe, p) w) as [[[]|err|] w1];
        cbn in Hf; discriminate. }
    apply elem_of_cons in Hin as [->|Hin]; [apply Hfirst|].
    destruct (writeShim_dir exe p w loc dm es He Hd Hfirst)
      as (f1 & es1 & Hw & Hd1 & Hl1 & _).
    rewrite Hw in Hrun.
    pose proof (IH (withFS w f1) _ _ _ _ Hplain' Hnd Hd1 Hrun e m' e' Hin) as H.
    rewrite Hl1 in H. rewrite decide_False in H; [exact H|].
    destruct e as [e0 p0]. cbn [fst]. intros E. apply shimName_inj in E.
    subst e0. apply Hfresh. apply list_elem_of_fmap. now exists (exe, p0).
Qed.

End PopulateDirectory.

(** ** What a run does not take away *)

Section Extends.

Lemma sameKind_Dir m es y : sameKind (Dir m es) y -> exists es', y = Dir m es'.
Proof. destruct y as [|m' es']; cbn; [tauto|]. intros ->. eauto. Qed.

Lemma sameKind_File m s y : sameKind (File m s) y -> exists s', y = File m s'.
Proof. destruct y as [m' s'|]; cbn; [|tauto]. intros ->. eauto. Qed.

Lemma sameKind_infoOf name x y :
  sameKind x y -> os.infoOf name x = os.infoOf name y.
Proof. destruct x, y; cbn; try tauto; now intros ->. Qed.

Lemma extends_refl f : extends f f.
Proof.
  split; [reflexivity|]. intros q x H. exists x. split; [exact H|].
  destruct x; reflexivity.
Qed.

Lemma extends_Dir f f' q m es :
  extends f f' -> nodeAt (root f) q = Some (Dir m es) ->
  exists es', nodeAt (root f') q = Some (Dir m es').
Proof.
  intros [_ H] Hq. destruct (H q _ Hq) as (x' & Hx' & Hk).
  apply sameKind_Dir in Hk as [es' ->]. eauto.
Qed.

Lemma extends_lookupEntry f f' q m es m' es' c x :
  extends f f' ->
  nodeAt (root f) q = Some (Dir m es) ->
  nodeAt (root f') q = Some (Dir m' es') ->
  lookupEntry c es = Some x ->
  exists x', lookupEntry c es' = Some x' /\ sameKind x x'.
Proof.
  intros [_ H] Hq Hq' Hc.
  rewrite <- (nodeAt_snoc _ _ c _ _ Hq) in Hc.
  destruct (H _ _ Hc) as (x' & Hx' & Hk).
  rewrite (nodeAt_snoc _ _ c _ _ Hq') in Hx'. eauto.
Qed.

Lemma descend_extends f f' comps : forall cur l,
  extends f f' ->
  descend (root f) cur comps = inr l -> descend (root f') cur comps = inr l.
Proof.
  induction comps as [|c rest IH]; intros cur l Hext H; [exact H|].
  cbn [descend] in *.
  destruct (nodeAt (root f) cur) as [[m s|m es]|] eqn:Hcur; try discriminate.
  destruct (extends_Dir _ _ _ _ _ Hext Hcur) as [es' Hcur']. rewrite Hcur'.
  destruct (String.eqb c "."); [now apply IH|].
  destruct (String.eqb c ".."); [now apply IH|].
  destruct (lookupEntry c es) as [x|] eqn:Hc; [|discriminate].
  destruct (extends_lookupEntry _ _ _ _ _ _ _ _ _ Hext Hcur Hcur' Hc)
    as (x' & -> & _).
  now apply IH.
Qed.

Lemma locate_extends f f' path loc :
  extends f f' -> locate f path = Existing loc -> locate f' path = Existing loc.
Proof.
  intros Hext. pose proof Hext as [Hcwd _]. unfold locate. rewrite Hcwd.
  destruct (String.eqb path ""); [discriminate|].
  destruct (last (filepath.elements path)) as [name|]; [|trivial].
  destruct (descend (root f) _ _) as [e|ploc] eqn:Hd; [discriminate|].
  rewrite (descend_extends _ _ _ _ _ Hext Hd).
  destruct (nodeAt (root f) ploc) as [[m s|m es]|] eqn:Hp; try discriminate.
  destruct (extends_Dir _ _ _ _ _ Hext Hp) as [es' Hp']. rewrite Hp'.
  destruct (String.eqb name "."); [trivial|].
  destruct (String.eqb name ".."); [trivial|].
  destruct (lookupEntry name es) as [x|] eqn:Hn; [|discriminate].
  destruct (extends_lookupEntry _ _ _ _ _ _ _ _ _ Hext Hp Hp' Hn)
    as (x' & -> & Hk).
  destruct x as [m0 s0|m0 es0].
  - apply sameKind_File in Hk as [s' ->]. trivial.
  - apply sameKind_Dir in Hk as [es1 ->]. trivial.
Qed.

(** What can be examined in [f] is seen the same way in [f']. *)
Lemma Stat_extends f f' path info :
  extends f f' -> os.Stat f path = inr info -> os.Stat f' path = inr info.
Proof.
  intros Hext. unfold os.Stat, os.lookup.
  destruct (locate f path) as [loc|pl nm|e] eqn:Hl; try discriminate.
  rewrite (locate_extends _ _ _ _ Hext Hl).
  destruct (nodeAt (root f) loc) as [x|] eqn:Hx; [|discriminate].
  destruct Hext as [_ H]. destruct (H _ _ Hx) as (x' & -> & Hk).
  now rewrite (sameKind_infoOf _ _ _ Hk).
Qed.

(** A change at or below a location where [f0] holds nothing keeps what
    [f0] holds. *)
Lemma extends_changedBelow f0 f f' loc :
  extends f0 f -> changedBelow loc f f' ->
  (forall q', nodeAt (root f0) (loc ++ q') = None) ->
  (forall q m s, q `prefix_of` loc -> nodeAt (root f) q <> Some (File m s)) ->
  extends f0 f'.
Proof.
  intros [Hc H] (Hc' & _ & _ & Ha & Hd) Hnone Hfile.
  split; [congruence|]. intros q x Hq.
  destruct (H _ _ Hq) as (x' & Hx' & Hk).
  assert (Hnot : ~ loc `prefix_of` q).
  { intros [q' ->]. rewrite Hnone in Hq. discriminate. }
  destruct x' as [m s|m es].
  - exists (File m s). split; [|exact Hk]. rewrite Ha; [exact Hx'|].
    split; [exact Hnot|]. intros Hp. exact (Hfile _ _ _ Hp Hx').
  - destruct (Hd _ _ _ Hnot Hx') as [es' Hx'']. exists (Dir m es').
    split; [exact Hx''|]. destruct x; exact Hk.
Qed.

Lemma prefix_of_snoc_cases (q loc : list string) c :
  q `prefix_of` loc ++ [c] -> q `prefix_of` loc \/ q = loc ++ [c].
Proof.
  intros [z Hz]. destruct z as [|a z] using rev_ind.
  - right. now rewrite app_nil_r in Hz.
  - left. rewrite app_assoc in Hz. apply app_inj_tail in Hz as [-> _].
    now apply prefix_app_r.
Qed.

End Extends.

Section ExtendsPopulate.

Variable args : Args.

(** Shims written over free names and files keep what [f0] holds. *)
Lemma extends_shims f0 f f' r k names loc dm es es' cm entries :
  extends f0 f ->
  NoDup (map fst entries) ->
  dirAt f r k names loc dm es ->
  dirAt f' r k names loc dm es' ->
  (forall n, lookupEntry n es'
             = match shimOver args cm es entries n with
               | Some x => Some x
               | None => lookupEntry n es
               end) ->
  changedAt (shimLocs args loc entries) f f' ->
  (forall e m' e', e ∈ entries ->
     lookupEntry (shimName args (fst e)) es <> Some (Dir m' e')) ->
  extends f0 f'.
Proof.
  intros [Hc H] Hnd [_ _ _ _ Hd] [_ _ _ _ Hd'] Hes (Hc' & _ & _ & Ha & Hdir)
    Hfile.
  split; [congruence|]. intros q x Hq.
  destruct (H _ _ Hq) as (x' & Hx' & Hk).
  destruct (decide (Exists (fun l => l `prefix_of` q)
                      (shimLocs args loc entries))) as [Hex|Hno].
  - apply Exists_exists in Hex as (l & Hl & [q' ->]).
    apply list_elem_of_fmap in Hl as ([exe p] & -> & Hin). cbn [fst] in *.
    pose proof (nodeAt_snoc _ _ (shimName args exe) _ _ Hd) as Hat.
    pose proof (nodeAt_snoc _ _ (shimName args exe) _ _ Hd') as Hat'.
    rewrite Hes, (shimOver_Some args cm es entries exe p Hnd Hin) in Hat'.
    destruct (lookupEntry (shimName args exe) es) as [[m0 old|m0 e0]|] eqn:El.
    + destruct q' as [|c q'].
      * rewrite app_nil_r in *. rewrite Hat in Hx'. injection Hx' as <-.
        eexists. split; [exact Hat'|]. cbn [overwrite]. destruct x; exact Hk.
      * now rewrite (nodeAt_below_File _ _ _ _ c q' Hat) in Hx'.
    + destruct (Hfile (exe, p) m0 e0 Hin El).
    + rewrite nodeAt_app, Hat in Hx'. discriminate.
  - assert (Hnot : forall l, l ∈ shimLocs args loc entries -> ~ l `prefix_of` q).
    { intros l Hl Hp. apply Hno. apply Exists_exists. eauto. }
    destruct x' as [m s|m e1].
    + exists (File m s). split; [|exact Hk]. rewrite Ha; [exact Hx'|].
      intros l Hl. split; [now apply Hnot|]. intros Hp.
      apply list_elem_of_fmap in Hl as (e & -> & Hin).
      apply prefix_of_snoc_cases in Hp as [Hp| ->].
      * refine (no_file_above _ loc q m s _ Hp Hx'). now exists dm, es.
      * apply (Hnot (loc ++ [shimName args (fst e)])); [|reflexivity].
        apply list_elem_of_fmap. now exists e.
    + destruct (Hdir _ _ _ Hnot Hx') as [e2 Hx'']. exists (Dir m e2).
      split; [exact Hx''|]. destruct x; exact Hk.
Qed.

End ExtendsPopulate.

(** ** Generating the shims again *)

Section SecondRun.

Lemma endsWithDot_render rooted k names name :
  (rooted = true -> k = 0) -> Forall isName names -> isName name ->
  os.endsWithDot
    (filepath.render rooted (replicate k ".." ++ names ++ [name])) = false.
Proof.
  intros Hk Hn Hname.
  pose proof (cleaned_snoc rooted k names name Hk Hn Hname) as Hc.
  apply cleaned_isElement in Hc.
  set (kept := replicate k ".." ++ names ++ [name]) in *.
  assert (Hne : kept <> []).
  { unfold kept. rewrite app_assoc. intros E.
    now apply app_eq_nil in E as [_ E]. }
  assert (Hlast : last kept = Some name).
  { unfold kept. now rewrite app_assoc, last_snoc. }
  assert (Hsplit : last (Split (filepath.render rooted kept) "/") = Some name).
  { unfold filepath.render. destruct rooted.
    - change ("/" +:+ strings.Join kept "/")
        with (String "/" (strings.Join kept "/")).
      cbn [Split]. rewrite Ascii.eqb_refl.
      rewrite (Split_Join _ Hne Hc).
      destruct kept; [contradiction|exact Hlast].
    - destruct kept eqn:E; [contradiction|].
      rewrite <- E in *. now rewrite (Split_Join _ Hne Hc). }
  unfold os.endsWithDot, filepath.Separator. rewrite Hsplit.
  destruct Hname as (_ & Hdot & Hdotdot).
  apply String.eqb_neq in Hdot, Hdotdot. now rewrite Hdot, Hdotdot.
Qed.

(** Removing the shim directory removes what is at its location. *)
Lemma RemoveAll_shimDir f bp loc dm es :
  shimDirAt f bp loc dm es -> os.RemoveAll f bp = (None, update f loc None).
Proof.
  intros Hsd. pose proof (shimDirAt_nonempty _ _ _ _ _ Hsd) as Hloc.
  destruct Hsd as [r k names name -> Hk Hn Hname -> Hs Hd].
  unfold os.RemoveAll.
  pose proof (render_nonempty _ _ (cleaned_snoc r k names name Hk Hn Hname))
    as Hne.
  apply String.eqb_neq in Hne. rewrite Hne.
  rewrite (endsWithDot_render r k names name Hk Hn Hname).
  pose proof Hd as Hd'. rewrite app_assoc in Hd'.
  destruct (nodeAt_snoc_inv _ _ _ _ Hd') as (m & es' & Hp & Hl).
  rewrite (locate_clean f r k names name m es' Hk Hn Hname Hs Hp), Hl.
  destruct (baseOf f r k ++ names ++ [name]); [contradiction|reflexivity].
Qed.

Lemma dirExists_shimDir bp w loc dm es :
  shimDirAt (fs w) bp loc dm es -> dirExists bp w = (Done true, w).
Proof.
  intros Hsd. unfold dirExists, os.Stat.
  now rewrite (shimDirAt_lookup _ _ _ _ _ Hsd).
Qed.


Lemma nodeAt_absent_below rt loc q :
  nodeAt rt loc = None -> nodeAt rt (loc ++ q) = None.
Proof. intros H. now rewrite nodeAt_app, H. Qed.

Lemma no_file_above_free rt ploc name m es q fm s :
  nodeAt rt ploc = Some (Dir m es) -> lookupEntry name es = None ->
  q `prefix_of` ploc ++ [name] -> nodeAt rt q <> Some (File fm s).
Proof.
  intros Hp Hfree Hq. apply prefix_of_snoc_cases in Hq as [Hq| ->].
  - apply (no_file_above rt ploc); [now exists m, es|exact Hq].
  - rewrite (nodeAt_snoc _ _ _ _ _ Hp), Hfree. discriminate.
Qed.

(** The start of a run on a file system that holds the shim directory and
    whatever the file system [fa] held when the directory was created: the
    directory is removed and created again. *)
Lemma recreate_after args r k names name pm pes ps fa v invalid yes rest dm es :
  let binPath := filepath.Join [BinPath args; Prefix args] in
  let loc := baseOf fa r k ++ names ++ [name] in
  binPath = filepath.render r (replicate k ".." ++ names ++ [name]) ->
  (r = true -> k = 0) -> Forall isName names -> isName name ->
  startsOK fa r ->
  nodeAt (root fa) (baseOf fa r k ++ names) = Some (Dir pm pes) ->
  lookupEntry name pes = None ->
  os.Stat fa (BinPath args) = inr ps ->
  extends fa (fs v) ->
  startsOK (fs v) r ->
  nodeAt (root (fs v)) loc = Some (Dir dm es) ->
  Forall (fun line => classify (line +:+ nl) = Unrecognised) invalid ->
  length invalid <= 3 ->
  classify (yes +:+ nl) = Yes ->
  stdinLines v = invalid ++ yes :: rest ->
  exists vb fc,
    checkExisting binPath v = (Done tt, vb) /\
    createDirectory args binPath vb = (Done (Mode ps), withFS vb fc) /\
    shimDirAt fc binPath loc (createdMeta (fs v) (Mode ps))
      [(btbMarker, File (createdMeta (fs v) (Mode ps)) "")] /\
    changedBelow loc (fs v) fc /\
    extends fa fc.
Proof.
  intros binPath loc Hbp Hk Hn Hname Hsa Hpa Hfree Hstat Hext Hsv Hdir
    Hinv Hlen Hyes Hin.
  pose proof Hext as [Hcwd _].
  assert (Hbase : baseOf (fs v) r k = baseOf fa r k).
  { unfold baseOf. now rewrite Hcwd. }
  assert (Hsd : shimDirAt (fs v) binPath loc dm es).
  { apply (ShimDirAt _ _ _ _ _ r k names name); auto.
    unfold loc. now rewrite Hbase. }
  assert (Hnone : forall q', nodeAt (root fa) (loc ++ q') = None).
  { intros q'. apply nodeAt_absent_below. unfold loc.
    rewrite app_assoc, (nodeAt_snoc _ _ _ _ _ Hpa). exact Hfree. }
  (* the confirmation and the removal *)
  destruct (checkExisting_accepted binPath v invalid yes rest
              (dirExists_shimDir _ _ _ _ _ Hsd) Hinv Hlen Hyes Hin)
    as [out Hcheck].
  set (vx := withStdout (withStdin v rest) out) in *.
  set (f2 := update (fs v) loc None).
  assert (Hcheck' : checkExisting binPath v = (Done tt, withFS vx f2)).
  { rewrite Hcheck. unfold orFatal. change (fs vx) with (fs v).
    now rewrite (RemoveAll_shimDir _ _ _ _ _ Hsd). }
  assert (Hch2 : changedBelow loc (fs v) f2) by apply changedBelow_update_at.
  assert (Hext2 : extends fa f2).
  { apply (extends_changedBelow fa (fs v) f2 loc Hext Hch2 Hnone).
    intros q m s Hq. apply (no_file_above _ loc); [now exists dm, es|exact Hq]. }
  (* the directory is created as it was the first time *)
  assert (Hpv : exists pm' pes',
             nodeAt (root (fs v)) (baseOf fa r k ++ names) = Some (Dir pm' pes')).
  { unfold loc in Hdir. rewrite app_assoc in Hdir.
    destruct (nodeAt_snoc_inv _ _ _ _ Hdir) as (pm' & pes' & Hp' & _). eauto. }
  destruct Hpv as (pm' & pes' & Hpv).
  assert (Hp2 : nodeAt (root f2) (baseOf f2 r k ++ names)
                = Some (Dir pm' (setEntry name None pes'))).
  { unfold f2. rewrite baseOf_update, Hbase, root_update. unfold loc.
    rewrite app_assoc. now apply nodeAt_setAt_parent. }
  assert (Hs2 : startsOK f2 r).
  { destruct Hsa as [Hr|(cm & ces & Hcd)]; [now left|right].
    destruct (extends_Dir _ _ _ _ _ Hext2 Hcd) as [ces' Hcd'].
    exists cm, ces'. unfold f2 at 2. rewrite cwd_update, Hcwd. exact Hcd'. }
  destruct (createDirectory_ok args (withFS vx f2) r k names name pm'
              (setEntry name None pes') ps Hk Hn Hname Hs2 Hp2
              (lookupEntry_setEntry_eq _ _ _)
              (Stat_extends _ _ _ _ Hext2 Hstat))
    as (fc & Hcd & Hsdc & Hu & Ho & _ & Hchc).
  cbn [fs withFS] in *.
  assert (Hloc2 : baseOf f2 r k ++ names ++ [name] = loc).
  { unfold f2. rewrite baseOf_update, Hbase. reflexivity. }
  rewrite Hloc2 in *. rewrite <- Hbp in Hcd, Hsdc.
  assert (Hcm : createdMeta f2 (Mode ps) = createdMeta (fs v) (Mode ps)).
  { apply createdMeta_same; unfold f2;
      [apply umask_update|apply procOwner_update]. }
  rewrite Hcm in Hsdc.
  exists (withFS vx f2), fc. split; [exact Hcheck'|]. split; [exact Hcd|].
  split; [exact Hsdc|]. split.
  - eapply changedBelow_trans; [exact Hch2|exact Hchc].
  - apply (extends_changedBelow fa f2 fc loc Hext2 Hchc Hnone).
    intros q m s Hq.
    apply (no_file_above_free _ (baseOf f2 r k ++ names) name pm'
             (setEntry name None pes')); [exact Hp2|apply lookupEntry_setEntry_eq|].
    unfold loc in Hq. unfold f2. rewrite baseOf_update, Hbase.
    now rewrite <- app_assoc.
Qed.

End SecondRun.

(** ** Writing over what was written *)

Section Overwrite.

Lemma dropBytes_append s t : os.dropBytes (String.length s) (s +:+ t) = t.
Proof. induction s as [|c s IH]; [reflexivity|exact IH]. Qed.

(** Writing the same text a second time changes nothing. *)
Lemma overwrite_again cm cm2 o s :
  overwrite cm2 (Some (overwrite cm o s)) s = overwrite cm o s.
Proof.
  assert (Hs : s +:+ os.dropBytes (String.length s) s = s).
  { pose proof (dropBytes_append s "") as H. rewrite append_nil_r in H.
    rewrite H. apply append_nil_r. }
  destruct o as [[m old|m es]|]; cbn [overwrite]; try now rewrite Hs.
  now rewrite dropBytes_append.
Qed.

Lemma overwrite_is_File cm o s : exists m t, overwrite cm o s = File m t.
Proof. destruct o as [[m old|m es]|]; cbn; eauto. Qed.

Lemma apart_sym l q : apart l q -> apart q l.
Proof. intros [H1 H2]. now split. Qed.

End Overwrite.

Section Outside.

Variables (rt : node) (loc D : list string) (cm dmD : Meta)
  (mk : node) (esD : list (string * node)).
Hypothesis Hloc : nodeAt rt loc = Some (Dir cm [(btbMarker, mk)]).
Hypothesis Hmk : exists m s, mk = File m s.
Hypothesis HD : nodeAt rt D = Some (Dir dmD esD).
Hypothesis Hne : D <> loc.

(** The directory of the shims does not lie in the shim directory. *)
Lemma outside_not_below : ~ loc `prefix_of` D.
Proof.
  intros [z Hz]. destruct z as [|c z].
  - rewrite app_nil_r in Hz. contradiction.
  - rewrite Hz, nodeAt_app, Hloc in HD. cbn [nodeAt lookupEntry] in HD.
    destruct Hmk as (m & s & ->).
    destruct (String.eqb btbMarker c); [|discriminate].
    destruct z; discriminate.
Qed.

Lemma outside_not_above L :
  (forall m' e', lookupEntry L esD <> Some (Dir m' e')) ->
  ~ (D ++ [L]) `prefix_of` loc.
Proof.
  intros Hfile [z Hz]. rewrite Hz, nodeAt_app in Hloc.
  rewrite (nodeAt_snoc _ _ L _ _ HD) in Hloc.
  destruct (lookupEntry L esD) as [[m s|m es]|]; try discriminate.
  - destruct z; discriminate.
  - now apply (Hfile m es).
Qed.

Lemma outside_apart L :
  (forall m' e', lookupEntry L esD <> Some (Dir m' e')) ->
  apart (D ++ [L]) loc.
Proof.
  intros Hfile. split; [now apply outside_not_above|].
  intros H. apply prefix_of_snoc_cases in H as [H|E].
  - now apply outside_not_below.
  - apply (outside_not_above L Hfile). now rewrite E.
Qed.

End Outside.

(** ** The shims of two runs *)

Section Twice.

Variables (args : Args) (bp : string) (r : bool).
Variables (kb : nat) (namesb : list string) (nameb : string).
Variables (k : nat) (names : list string).

Hypothesis Hbp :
  bp = filepath.render r (replicate kb ".." ++ namesb ++ [nameb]).
Hypothesis Hkb : r = true -> kb = 0.
Hypothesis Hnb : Forall isName namesb.
Hypothesis Hnameb : isName nameb.
Hypothesis Hk : r = true -> k = 0.
Hypothesis Hn : Forall isName names.
Hypothesis Hpath : forall exe, hasByte "/" exe = false ->
  filepath.Join [bp; fileNameOf args exe]
  = filepath.render r (replicate k ".." ++ names ++ [shimName args exe]).

Lemma baseOf_cwd f f' rooted j :
  cwd f' = cwd f -> baseOf f' rooted j = baseOf f rooted j.
Proof. intros E. unfold baseOf. now rewrite E. Qed.

Lemma shimDirAt_at f dm es :
  startsOK f r ->
  nodeAt (root f) (baseOf f r kb ++ namesb ++ [nameb]) = Some (Dir dm es) ->
  shimDirAt f bp (baseOf f r kb ++ namesb ++ [nameb]) dm es.
Proof. intros Hs Hd. now apply (ShimDirAt _ _ _ _ _ r kb namesb nameb). Qed.

Lemma fileIn_at f dm es n :
  startsOK f r ->
  nodeAt (root f) (baseOf f r kb ++ namesb ++ [nameb]) = Some (Dir dm es) ->
  fileIn f bp n = match lookupEntry n es with
                  | Some (File _ contents) => Some contents
                  | _ => None
                  end.
Proof.
  intros Hs Hd. exact (fileIn_shimDir _ _ _ _ _ n (shimDirAt_at f dm es Hs Hd)).
Qed.

Lemma onlyFiles_at f dm es :
  startsOK f r ->
  nodeAt (root f) (baseOf f r kb ++ namesb ++ [nameb]) = Some (Dir dm es) ->
  (forall n x, lookupEntry n es = Some x -> exists fm c, x = File fm c) ->
  onlyFiles f bp.
Proof.
  intros Hs Hd Hfiles. exists dm, es. split; [|exact Hfiles].
  exact (shimDirAt_lookup _ _ _ _ _ (shimDirAt_at f dm es Hs Hd)).
Qed.

Lemma ReadFile_at f exe m text :
  hasByte "/" exe = false ->
  startsOK f r ->
  nodeAt (root f) (baseOf f r k ++ names ++ [shimName args exe])
  = Some (File m text) ->
  ReadFile f (filepath.Join [bp; fileNameOf args exe]) = Some text.
Proof.
  intros He Hs Hd. unfold ReadFile. rewrite (Hpath exe He).
  now rewrite (lookup_clean f r k names (shimName args exe) _ Hk Hn
                 (isName_shimName args exe He) Hs Hd).
Qed.

(** The first shim was opened: the elements before its name lead to a
    directory. *)
Lemma populate_Done_dirAt mode exe p rest w w1 :
  hasByte "/" exe = false ->
  populate args bp mode ((exe, p) :: rest) w = (Done tt, w1) ->
  exists dm es, dirAt (fs w) r k names (baseOf (fs w) r k ++ names) dm es.
Proof.
  intros He Hrun. cbn [populate] in Hrun. unfold bind, writeShim in Hrun.
  fold (fileNameOf args exe) in Hrun. rewrite (Hpath exe He) in Hrun.
  destruct (os.OpenFile (fs w) _ mode) as [[e|h] f'] eqn:Ho; [discriminate|].
  assert (Hreach : forall e,
            locate (fs w)
              (filepath.render r
                 (replicate k ".." ++ names ++ [shimName args exe]))
            <> Unreachable e).
  { intros e E. unfold os.OpenFile in Ho. rewrite E in Ho. discriminate. }
  destruct (locate_clean_inv (fs w) r k names (shimName args exe) _ Hk Hn
              (isName_shimName args exe He) eq_refl Hreach)
    as (Hs & dm & es & Hd).
  exists dm, es. now constructor.
Qed.

(** A run of [populate] that ended normally, for at least one entry. *)
Lemma populate_analysis mode e0 rest w w1 :
  Forall (fun e => hasByte "/" (fst e) = false) (e0 :: rest) ->
  NoDup (map fst (e0 :: rest)) ->
  populate args bp mode (e0 :: rest) w = (Done tt, w1) ->
  exists dmD esD f1 es1,
    w1 = withFS w f1 /\
    dirAt (fs w) r k names (baseOf (fs w) r k ++ names) dmD esD /\
    (forall e m' e', e ∈ e0 :: rest ->
       lookupEntry (shimName args (fst e)) esD <> Some (Dir m' e')) /\
    dirAt f1 r k names (baseOf (fs w) r k ++ names) dmD es1 /\
    (forall n, lookupEntry n es1
               = match shimOver args (createdMeta (fs w) mode) esD
                         (e0 :: rest) n with
                 | Some x => Some x
                 | None => lookupEntry n esD
                 end) /\
    changedAt (shimLocs args (baseOf (fs w) r k ++ names) (e0 :: rest))
      (fs w) f1.
Proof.
  intros Hplain Hnd Hrun. destruct e0 as [exe p].
  assert (He : hasByte "/" exe = false) by now inversion Hplain.
  destruct (populate_Done_dirAt mode exe p rest w w1 He Hrun)
    as (dmD & esD & Hd).
  pose proof (populate_dir_Done args bp mode r k names Hpath _ _ _ _ _ _
                Hplain Hnd Hd Hrun) as Hfile.
  destruct (populate_dir args bp mode r k names Hpath _ w _ _ _
              Hplain Hnd Hd Hfile) as (f1 & es1 & Hrun' & Hd1 & Hes1 & Hch).
  rewrite Hrun' in Hrun. injection Hrun as <-.
  exists dmD, esD, f1, es1. auto 8.
Qed.

(** What [populate] leaves of the file system it started on. *)
Lemma populate_once fa mode l w w1 cm mk :
  Forall (fun e => hasByte "/" (fst e) = false) l ->
  NoDup (map fst l) ->
  populate args bp mode l w = (Done tt, w1) ->
  startsOK (fs w) r ->
  nodeAt (root (fs w)) (baseOf (fs w) r kb ++ namesb ++ [nameb])
  = Some (Dir cm [(btbMarker, mk)]) ->
  extends fa (fs w) ->
  extends fa (fs w1) /\ startsOK (fs w1) r /\ cwd (fs w1) = cwd (fs w) /\
  exists dm es,
    nodeAt (root (fs w1)) (baseOf (fs w) r kb ++ namesb ++ [nameb])
    = Some (Dir dm es).
Proof.
  intros Hplain Hnd Hrun Hs Hloc Hext. destruct l as [|e0 rest].
  - cbn in Hrun. injection Hrun as <-. eauto 8.
  - destruct (populate_analysis mode e0 rest w w1 Hplain Hnd Hrun)
      as (dmD & esD & f1 & es1 & -> & Hd & Hfile & Hd1 & Hes1 & Hch).
    cbn [fs withFS].
    split; [|split; [|split]].
    + exact (extends_shims args fa (fs w) f1 _ _ _ _ _ _ _ _ _
               Hext Hnd Hd Hd1 Hes1 Hch Hfile).
    + now destruct Hd1.
    + now destruct Hch.
    + destruct Hch as (_ & _ & _ & _ & Hdir).
      assert (Hnot : forall l,
                l ∈ shimLocs args (baseOf (fs w) r k ++ names) (e0 :: rest) ->
                ~ l `prefix_of` baseOf (fs w) r kb ++ namesb ++ [nameb]).
      { intros l Hl. apply list_elem_of_fmap in Hl as (e & -> & Hin).
        destruct Hd as [_ _ _ _ HD].
        exact (outside_not_above _ _ _ _ _ _ _ Hloc HD _
                 (fun m' e' => Hfile e m' e' Hin)). }
      destruct (Hdir _ _ _ Hnot Hloc) as [es' H']. eauto.
Qed.


Lemma marker_only_contents n cm cm2 :
  contentsOf (lookupEntry n [(btbMarker, File cm "")])
  = contentsOf (lookupEntry n [(btbMarker, File cm2 "")]).
Proof. cbn [lookupEntry]. now destruct (String.eqb btbMarker n). Qed.

Lemma marker_only_files cm n x :
  lookupEntry n [(btbMarker, File cm "")] = Some x ->
  exists fm c, x = File fm c.
Proof.
  cbn [lookupEntry]. destruct (String.eqb btbMarker n); [|discriminate].
  intros H. injection H as <-. eauto.
Qed.

(** In a directory that holds the marker alone the shims are new files:
    their contents are the texts, whatever the order of the entries. *)
Lemma fresh_shims_contents cmA cmB mA mB lA lB esA esB n :
  NoDup (map fst lA) -> lA ≡ₚ lB ->
  (forall n, lookupEntry n esA
             = match shimOver args cmA [(btbMarker, File mA "")] lA n with
               | Some x => Some x
               | None => lookupEntry n [(btbMarker, File mA "")]
               end) ->
  (forall n, lookupEntry n esB
             = match shimOver args cmB [(btbMarker, File mB "")] lB n with
               | Some x => Some x
               | None => lookupEntry n [(btbMarker, File mB "")]
               end) ->
  contentsOf (lookupEntry n esB) = contentsOf (lookupEntry n esA).
Proof.
  intros Hnd Hperm HA HB.
  assert (HndB : NoDup (map fst lB)) by now rewrite <- Hperm.
  rewrite HA, HB.
  destruct (shimOver args cmA _ lA n) as [x|] eqn:EA.
  - apply shimOver_Some_inv in EA as (exe & p & Hin & -> & ->).
    rewrite Hperm in Hin.
    rewrite (shimOver_Some args cmB _ lB exe p HndB Hin).
    rewrite !lookupEntry_marker_only by apply shimName_not_marker.
    reflexivity.
  - destruct (shimOver args cmB _ lB n) as [x|] eqn:EB.
    + apply shimOver_Some_inv in EB as (exe & p & Hin & -> & ->).
      rewrite <- Hperm in Hin.
      now rewrite (shimOver_Some args cmA _ lA exe p Hnd Hin) in EA.
    + apply marker_only_contents.
Qed.

Lemma fresh_shims_files cmA mA lA esA :
  (forall n, lookupEntry n esA
             = match shimOver args cmA [(btbMarker, File mA "")] lA n with
               | Some x => Some x
               | None => lookupEntry n [(btbMarker, File mA "")]
               end) ->
  forall n x, lookupEntry n esA = Some x -> exists fm c, x = File fm c.
Proof.
  intros HA n x. rewrite HA.
  destruct (shimOver args cmA _ lA n) as [y|] eqn:EA.
  - intros H. injection H as <-.
    apply shimOver_Some_inv in EA as (exe & p & _ & _ & ->).
    apply overwrite_is_File.
  - apply marker_only_files.
Qed.

Lemma fileIn_contents f dm es n :
  startsOK f r ->
  nodeAt (root f) (baseOf f r kb ++ namesb ++ [nameb]) = Some (Dir dm es) ->
  fileIn f bp n = contentsOf (lookupEntry n es).
Proof. apply fileIn_at. Qed.

(** [populate] for the second time, for the same entries in any order. *)
Lemma populate_again mode mode2 l1 l2 w w1 v cm cm2 :
  let loc := baseOf (fs w) r kb ++ namesb ++ [nameb] in
  Forall (fun e => hasByte "/" (fst e) = false) l1 ->
  NoDup (map fst l1) ->
  l1 ≡ₚ l2 ->
  populate args bp mode l1 w = (Done tt, w1) ->
  startsOK (fs w) r ->
  nodeAt (root (fs w)) loc = Some (Dir cm [(btbMarker, File cm "")]) ->
  cwd (fs v) = cwd (fs w) ->
  startsOK (fs v) r ->
  nodeAt (root (fs v)) loc = Some (Dir cm2 [(btbMarker, File cm2 "")]) ->
  changedBelow loc (fs w1) (fs v) ->
  exists f2,
    populate args bp mode2 l2 v = (Done tt, withFS v f2) /\
    (forall n, fileIn f2 bp n = fileIn (fs w1) bp n) /\
    (forall exe p, (exe, p) ∈ l1 ->
       exists text,
         ReadFile (fs w1) (filepath.Join [bp; fileNameOf args exe]) = Some text /\
         ReadFile f2 (filepath.Join [bp; fileNameOf args exe]) = Some text) /\
    onlyFiles (fs w1) bp /\ onlyFiles f2 bp.
Proof.
  intros loc Hplain Hnd Hperm Hrun Hs Hloc Hcwd Hsv Hlocv Hchv.
  assert (Hplain2 : Forall (fun e => hasByte "/" (fst e) = false) l2)
    by now rewrite <- Hperm.
  assert (Hnd2 : NoDup (map fst l2)) by now rewrite <- Hperm.
  assert (Hbv : forall j, baseOf (fs v) r j = baseOf (fs w) r j).
  { intros j. now apply baseOf_cwd. }
  destruct l1 as [|e0 rest].
  { (* nothing to write *)
    apply Permutation_nil in Hperm. subst l2.
    cbn in Hrun. injection Hrun as <-.
    exists (fs v). split; [destruct v; reflexivity|].
    assert (Hlocv' : nodeAt (root (fs v))
                       (baseOf (fs v) r kb ++ namesb ++ [nameb])
                     = Some (Dir cm2 [(btbMarker, File cm2 "")])).
    { now rewrite Hbv. }
    split; [|split; [|split]].
    - intros n. rewrite (fileIn_contents _ _ _ n Hsv Hlocv'),
        (fileIn_contents _ _ _ n Hs Hloc).
      apply marker_only_contents.
    - intros exe p Hin. inversion Hin.
    - exact (onlyFiles_at _ _ _ Hs Hloc (marker_only_files cm)).
    - exact (onlyFiles_at _ _ _ Hsv Hlocv' (marker_only_files cm2)). }
  destruct (populate_analysis mode e0 rest w w1 Hplain Hnd Hrun)
    as (dmD & esD & f1 & es1 & -> & Hd & Hfile & Hd1 & Hes1 & Hch).
  cbn [fs withFS] in *.
  set (l1 := e0 :: rest) in *.
  set (D := baseOf (fs w) r k ++ names) in *.
  pose proof Hd as [_ _ _ _ HD]. pose proof Hd1 as [_ _ _ Hs1 HD1].
  pose proof Hch as (Hcwd1 & _ & _ & Hframe1 & _).
  assert (Hb1 : forall j, baseOf f1 r j = baseOf (fs w) r j).
  { intros j. now apply baseOf_cwd. }
  destruct (decide (D = loc)) as [HDloc|HDloc].
  - (* the shims lie in the shim directory *)
    rewrite HDloc, Hloc in HD. injection HD as <- <-.
    assert (Hdv : dirAt (fs v) r k names D cm2 [(btbMarker, File cm2 "")]).
    { apply DirAt; auto; [unfold D; now rewrite Hbv|now rewrite HDloc]. }
    destruct (populate_dir args bp mode2 r k names Hpath l2 v _ _ _
                Hplain2 Hnd2 Hdv) as (f2 & es2 & Hrun2 & Hd2 & Hes2 & Hch2).
    { intros e m' e' _.
      rewrite lookupEntry_marker_only by apply shimName_not_marker.
      discriminate. }
    pose proof Hd2 as [_ _ _ Hs2 HD2].
    pose proof Hch2 as (Hcwd2 & _).
    assert (Hl1 : nodeAt (root f1) (baseOf f1 r kb ++ namesb ++ [nameb])
                  = Some (Dir cm es1)).
    { rewrite Hb1. fold loc. now rewrite <- HDloc. }
    assert (Hl2 : nodeAt (root f2) (baseOf f2 r kb ++ namesb ++ [nameb])
                  = Some (Dir cm2 es2)).
    { rewrite (baseOf_cwd (fs v) f2 r kb Hcwd2), Hbv. fold loc.
      now rewrite <- HDloc. }
    exists f2. split; [exact Hrun2|]. split; [|split; [|split]].
    + intros n. rewrite (fileIn_contents _ _ _ n Hs2 Hl2),
        (fileIn_contents _ _ _ n Hs1 Hl1).
      exact (fresh_shims_contents _ _ _ _ l1 l2 es1 es2 n Hnd Hperm Hes1 Hes2).
    + intros exe p Hin.
      assert (He : hasByte "/" exe = false).
      { rewrite Forall_forall in Hplain. exact (Hplain _ Hin). }
      exists (fileContentsOf args p). split.
      * apply (ReadFile_at f1 exe (createdMeta (fs w) mode) _ He Hs1).
        rewrite Hb1, app_assoc. fold D.
        rewrite (nodeAt_snoc _ _ _ _ _ HD1), Hes1.
        rewrite (shimOver_Some args _ _ l1 exe p Hnd Hin).
        now rewrite lookupEntry_marker_only by apply shimName_not_marker.
      * apply (ReadFile_at f2 exe (createdMeta (fs v) mode2) _ He Hs2).
        rewrite (baseOf_cwd (fs v) f2 r k Hcwd2), Hbv, app_assoc. fold D.
        rewrite (nodeAt_snoc _ _ _ _ _ HD2), Hes2.
        rewrite Hperm in Hin.
        rewrite (shimOver_Some args _ _ l2 exe p Hnd2 Hin).
        now rewrite lookupEntry_marker_only by apply shimName_not_marker.
    + exact (onlyFiles_at _ _ _ Hs1 Hl1 (fresh_shims_files _ _ _ _ Hes1)).
    + exact (onlyFiles_at _ _ _ Hs2 Hl2 (fresh_shims_files _ _ _ _ Hes2)).
  - (* the shims lie elsewhere *)
    assert (Hmk : exists m s, File cm "" = File m s) by eauto.
    assert (Hbelow : ~ loc `prefix_of` D).
    { exact (outside_not_below _ _ _ _ _ _ _ Hloc Hmk HD HDloc). }
    assert (Hapart : forall e, e ∈ l1 ->
              apart (D ++ [shimName args (fst e)]) loc).
    { intros e Hin.
      exact (outside_apart _ _ _ _ _ _ _ Hloc Hmk HD HDloc _
               (fun m' e' => Hfile e m' e' Hin)). }
    (* the shim directory after the first run *)
    assert (Hl1 : nodeAt (root f1) (baseOf f1 r kb ++ namesb ++ [nameb])
                  = Some (Dir cm [(btbMarker, File cm "")])).
    { rewrite Hb1. fold loc. rewrite Hframe1; [exact Hloc|].
      intros l Hl. apply list_elem_of_fmap in Hl as (e & -> & Hin).
      now apply Hapart. }
    (* the directory of the shims before the second run *)
    destruct Hchv as (_ & _ & _ & Hframev & Hdirv).
    destruct (Hdirv _ _ _ Hbelow HD1) as [esD2 HDv].
    assert (Hdv : dirAt (fs v) r k names D dmD esD2).
    { apply DirAt; auto. unfold D. now rewrite Hbv. }
    assert (Hold : forall e, e ∈ l1 ->
              lookupEntry (shimName args (fst e)) esD2
              = lookupEntry (shimName args (fst e)) es1).
    { intros e Hin.
      rewrite <- (nodeAt_snoc _ _ _ _ _ HDv), <- (nodeAt_snoc _ _ _ _ _ HD1).
      apply Hframev. apply apart_sym. now apply Hapart. }
    assert (Hwritten : forall exe p, (exe, p) ∈ l1 ->
              lookupEntry (shimName args exe) es1
              = Some (overwrite (createdMeta (fs w) mode)
                        (lookupEntry (shimName args exe) esD)
                        (fileContentsOf args p))).
    { intros exe p Hin. rewrite Hes1.
      now rewrite (shimOver_Some args _ _ l1 exe p Hnd Hin). }
    destruct (populate_dir args bp mode2 r k names Hpath l2 v _ _ _
                Hplain2 Hnd2 Hdv) as (f2 & es2 & Hrun2 & Hd2 & Hes2 & Hch2).
    { intros [exe p] m' e' Hin. rewrite <- Hperm in Hin.
      rewrite (Hold _ Hin). cbn [fst]. rewrite (Hwritten exe p Hin).
      destruct (overwrite_is_File (createdMeta (fs w) mode)
                  (lookupEntry (shimName args exe) esD)
                  (fileContentsOf args p)) as (m0 & t & ->).
      discriminate. }
    pose proof Hd2 as [_ _ _ Hs2 HD2].
    pose proof Hch2 as (Hcwd2 & _ & _ & Hframe2 & _).
    assert (Hl2 : nodeAt (root f2) (baseOf f2 r kb ++ namesb ++ [nameb])
                  = Some (Dir cm2 [(btbMarker, File cm2 "")])).
    { rewrite (baseOf_cwd (fs v) f2 r kb Hcwd2), Hbv. fold loc.
      rewrite Hframe2; [exact Hlocv|].
      intros l Hl. apply list_elem_of_fmap in Hl as (e & -> & Hin).
      rewrite <- Hperm in Hin. now apply Hapart. }
    exists f2. split; [exact Hrun2|]. split; [|split; [|split]].
    + intros n. rewrite (fileIn_contents _ _ _ n Hs2 Hl2),
        (fileIn_contents _ _ _ n Hs1 Hl1).
      apply marker_only_contents.
    + intros exe p Hin.
      assert (He : hasByte "/" exe = false).
      { rewrite Forall_forall in Hplain. exact (Hplain _ Hin). }
      destruct (overwrite_is_File (createdMeta (fs w) mode)
                  (lookupEntry (shimName args exe) esD)
                  (fileContentsOf args p)) as (m0 & t & Ht).
      exists t. split.
      * apply (ReadFile_at f1 exe m0 _ He Hs1).
        rewrite Hb1, app_assoc. fold D.
        now rewrite (nodeAt_snoc _ _ _ _ _ HD1), (Hwritten exe p Hin), Ht.
      * apply (ReadFile_at f2 exe m0 _ He Hs2).
        rewrite (baseOf_cwd (fs v) f2 r k Hcwd2), Hbv, app_assoc. fold D.
        rewrite (nodeAt_snoc _ _ _ _ _ HD2), Hes2.
        pose proof Hin as Hin2. rewrite Hperm in Hin2.
        rewrite (shimOver_Some args _ _ l2 exe p Hnd2 Hin2).
        pose proof (Hold (exe, p) Hin) as Ho. cbn [fst] in Ho. rewrite Ho.
        now rewrite (Hwritten exe p Hin), overwrite_again, Ht.
    + exact (onlyFiles_at _ _ _ Hs1 Hl1 (marker_only_files cm)).
    + exact (onlyFiles_at _ _ _ Hs2 Hl2 (marker_only_files cm2)).
Qed.

End Twice.

Lemma startsOK_extends fa f r :
  extends fa f -> startsOK fa r -> startsOK f r.
Proof.
  intros Hext [Hr|(cm & ces & Hcd)]; [now left|right].
  destruct (extends_Dir _ _ _ _ _ Hext Hcd) as [ces' Hcd'].
  destruct Hext as [Hcwd _]. exists cm, ces'. now rewrite Hcwd.
Qed.

Lemma shimDirAt_node f bp loc dm es :
  shimDirAt f bp loc dm es -> nodeAt (root f) loc = Some (Dir dm es).
Proof. now intros []. Qed.

(** C9.  The shim generation has ended normally for a mapping; it is run
    again for the same mapping, with the file system as the first run left
    it and the confirmation given.  The second run ends normally as well,
    whatever the orders in which the two runs visit the mapping; the shim
    directory then holds the same file names with the same contents as
    after the first run, and nothing but files either time, and the path of
    every shim names a file with the same contents after either run.  The
    names of the mapping are base names, as discovered names are. *)
Theorem shim_generation_idempotent args (m : gmap string string)
    l1 l2 w0 w1 v1 invalid yes rest :
  map_Forall (fun exe _ => hasByte "/" exe = false) m ->
  l1 ≡ₚ map_to_list m ->
  l2 ≡ₚ map_to_list m ->
  shimPipeline args l1 w0 = (Done tt, w1) ->
  fs v1 = fs w1 ->
  Forall (fun line => classify (line +:+ nl) = Unrecognised) invalid ->
  length invalid <= 3 ->
  classify (yes +:+ nl) = Yes ->
  stdinLines v1 = invalid ++ yes :: rest ->
  let binPath := filepath.Join [BinPath args; Prefix args] in
  exists w2,
    shimPipeline args l2 v1 = (Done tt, w2) /\
    (forall n, fileIn (fs w2) binPath n = fileIn (fs w1) binPath n) /\
    (forall exe exePath, m !! exe = Some exePath ->
       exists text,
         ReadFile (fs w1)
           (filepath.Join [binPath; Prefix args +:+ "-" +:+ exe]) = Some text /\
         ReadFile (fs w2)
           (filepath.Join [binPath; Prefix args +:+ "-" +:+ exe]) = Some text) /\
    onlyFiles (fs w1) binPath /\ onlyFiles (fs w2) binPath.
Proof.
  intros Hplain Hl1 Hl2 Hrun Hfs Hinv Hlen Hyes Hin binPath.
  assert (Hnd : NoDup (map fst l1)).
  { rewrite Hl1. apply NoDup_fst_map_to_list. }
  assert (Hpl : Forall (fun e => hasByte "/" (fst e) = false) l1).
  { rewrite Hl1. apply map_to_list_plain.
    intros exe p He. exact (Hplain exe p He). }
  assert (Hperm : l1 ≡ₚ l2) by now rewrite Hl1, Hl2.
  (* the first run *)
  unfold shimPipeline, bind in Hrun. fold binPath in Hrun.
  destruct (checkExisting binPath w0) as [[[]|e|] wa] eqn:Hcheck;
    try discriminate.
  destruct (createDirectory args binPath wa) as [[mode|e|] wc] eqn:Hcreate;
    try discriminate.
  destruct (createDirectory_inv _ _ _ _ Hcreate)
    as (r & k & names & name & pm & pes & ps & fc & Hbp & Hk & Hn & Hname
        & Hsa & Hpa & Hfree & Hstat & -> & -> & Hsd & Hchc & _).
  fold binPath in Hbp, Hsd.
  set (fa := fs wa) in *.
  set (loc := baseOf fa r k ++ names ++ [name]) in *.
  destruct (shimPath_shape args r (replicate k ".." ++ names ++ [name])
              (cleaned_snoc r k names name Hk Hn Hname))
    as (k' & names' & Hk' & Hn' & Hpath).
  rewrite <- Hbp in Hpath.
  assert (Hnone : forall q', nodeAt (root fa) (loc ++ q') = None).
  { intros q'. apply nodeAt_absent_below. unfold loc.
    rewrite app_assoc, (nodeAt_snoc _ _ _ _ _ Hpa). exact Hfree. }
  assert (Hextc : extends fa fc).
  { apply (extends_changedBelow fa fa fc loc (extends_refl fa) Hchc Hnone).
    intros q fm s Hq. unfold loc in Hq. rewrite app_assoc in Hq.
    exact (no_file_above_free _ _ _ _ _ _ _ _ Hpa Hfree Hq). }
  pose proof Hextc as [Hcwdc _].
  assert (Hbc : forall j, baseOf fc r j = baseOf fa r j).
  { intros j. now apply baseOf_cwd. }
  pose proof (startsOK_extends _ _ _ Hextc Hsa) as Hsc.
  pose proof (shimDirAt_node _ _ _ _ _ Hsd) as Hlocc.
  destruct (populate_once args binPath r k names name k' names' Hk' Hn' Hpath
              fa (Mode ps) l1 (withFS wa fc) w1 (createdMeta fa (Mode ps))
              (File (createdMeta fa (Mode ps)) "") Hpl Hnd Hrun Hsc)
    as (Hext1 & Hs1 & Hcwd1 & dm1 & es1 & Hloc1);
    [cbn [fs withFS]; now rewrite Hbc|exact Hextc|].
  cbn [fs withFS] in Hcwd1, Hloc1. rewrite Hbc in Hloc1. fold loc in Hloc1.
  (* the second run: confirmation, removal, creation *)
  rewrite <- Hfs in Hext1, Hs1, Hloc1.
  destruct (recreate_after args r k names name pm pes ps fa v1 invalid yes rest
              dm1 es1 Hbp Hk Hn Hname Hsa Hpa Hfree Hstat Hext1 Hs1 Hloc1
              Hinv Hlen Hyes Hin)
    as (vb & fc2 & Hcheck2 & Hcreate2 & Hsd2 & Hch2 & Hext2).
  fold binPath loc in Hcheck2, Hcreate2, Hsd2, Hch2.
  pose proof Hext2 as [Hcwd2 _].
  (* the shims *)
  destruct (populate_again args binPath r k names name k' names' Hbp Hk Hn
              Hname Hk' Hn' Hpath (Mode ps) (Mode ps) l1 l2
              (withFS wa fc) w1 (withFS vb fc2) (createdMeta fa (Mode ps))
              (createdMeta (fs v1) (Mode ps)) Hpl Hnd Hperm Hrun Hsc)
    as (f2 & Hrun2 & Hsame & Hread & Hfiles1 & Hfiles2).
  { cbn [fs withFS]. rewrite Hbc. exact Hlocc. }
  { cbn [fs withFS]. congruence. }
  { exact (startsOK_extends _ _ _ Hext2 Hsa). }
  { cbn [fs withFS]. rewrite Hbc. exact (shimDirAt_node _ _ _ _ _ Hsd2). }
  { cbn [fs withFS]. rewrite Hbc, <- Hfs. exact Hch2. }
  exists (withFS (withFS vb fc2) f2). split; [|split; [|split; [|split]]].
  - unfold shimPipeline, bind. fold binPath.
    now rewrite Hcheck2, Hcreate2, Hrun2.
  - exact Hsame.
  - intros exe p He. rewrite <- fileNameOf_eq. apply (Hread exe p).
    rewrite Hl1. now apply elem_of_map_to_list.
  - exact Hfiles1.
  - exact Hfiles2.
Qed.

Lemma shim_generation_idempotent_witness :
  exists w2,
    shimPipeline scenarioArgs
      [("bar", "/usr/local/bin/bar"); ("foo", "/usr/bin/foo")]
      (withStdin firstRunEnd ["what"; "Y"]) = (Done tt, w2) /\
    (forall n, fileIn (fs w2) "/home/u/bin/myprefix" n
               = fileIn (fs firstRunEnd) "/home/u/bin/myprefix" n) /\
    (forall exe exePath, twoMap !! exe = Some exePath ->
       exists text,
         ReadFile (fs firstRunEnd)
           (filepath.Join ["/home/u/bin/myprefix"; "myprefix" +:+ "-" +:+ exe])
         = Some text /\
         ReadFile (fs w2)
           (filepath.Join ["/home/u/bin/myprefix"; "myprefix" +:+ "-" +:+ exe])
         = Some text) /\
    onlyFiles (fs firstRunEnd) "/home/u/bin/myprefix" /\
    onlyFiles (fs w2) "/home/u/bin/myprefix".
Proof.
  apply (shim_generation_idempotent scenarioArgs twoMap
           [("foo", "/usr/bin/foo"); ("bar", "/usr/local/bin/bar")]
           [("bar", "/usr/local/bin/bar"); ("foo", "/usr/bin/foo")]
           scenarioWorld firstRunEnd (withStdin firstRunEnd ["what"; "Y"])
           ["what"] "Y" []).
  - apply map_Forall_to_list. vm_compute. repeat constructor.
  - vm_compute. first [reflexivity | apply perm_swap].
  - vm_compute. first [reflexivity | apply perm_swap].
  - vm_compute; reflexivity.
  - reflexivity.
  - repeat constructor.
  - cbn [length]. lia.
  - vm_compute; reflexivity.
  - reflexivity.
Defined.

(** * Further properties *)

(** ** The map of discovered executables *)

(** X1.  Lines 284-320.  Every key of [exeMap] is the base name of the path
    it is mapped to, and that path was collected by the walk of one of the
    directories; conversely the base name of every collected path is a key,
    mapped to a path with that base name. *)
Theorem exeMap_keys_are_base_names paths w exeMap w' :
  discover paths w = (Done exeMap, w') ->
  (forall exe exePath, exeMap !! exe = Some exePath ->
     filepath.Base exePath = exe /\
     exists d, d ∈ paths /\ exePath ∈ found w d) /\
  (forall d p, d ∈ paths -> p ∈ found w d ->
     exists q, exeMap !! filepath.Base p = Some q /\
               filepath.Base q = filepath.Base p).
Proof.
  intros Hd. apply discover_spec in Hd as [_ ->]. split.
  - intros exe exePath H. rewrite buildExeMap_lookup in H.
    apply last_Some_elem_of in H. unfold named in H.
    apply list_elem_of_filter in H as [Hbase Hp]. split; [exact Hbase|].
    apply elem_of_foundAll in Hp as (d & Hd & Hp).
    exists d. split; [|exact Hp]. now rewrite elem_of_reverse in Hd.
  - intros d p Hd Hp. rewrite buildExeMap_lookup.
    assert (Hin : p ∈ named (filepath.Base p) (foundAll w (reverse paths))).
    { unfold named. apply list_elem_of_filter. split; [reflexivity|].
      apply elem_of_foundAll. exists d. split; [|exact Hp].
      now rewrite elem_of_reverse. }
    destruct (last (named (filepath.Base p) (foundAll w (reverse paths))))
      as [q|] eqn:El.
    + exists q. split; [reflexivity|].
      apply last_Some_elem_of in El. unfold named in El.
      now apply list_elem_of_filter in El as [Hq _].
    + apply last_None in El. rewrite El in Hin. inversion Hin.
Qed.

Lemma exeMap_keys_are_base_names_witness :
  (forall exe exePath, scenarioMap !! exe = Some exePath ->
     filepath.Base exePath = exe /\
     exists d, d ∈ ["/usr/bin"; "/usr/local/bin"]
               /\ exePath ∈ found scenarioWorld d) /\
  (forall d p, d ∈ ["/usr/bin"; "/usr/local/bin"] -> p ∈ found scenarioWorld d ->
     exists q, scenarioMap !! filepath.Base p = Some q /\
               filepath.Base q = filepath.Base p).
Proof.
  apply (exeMap_keys_are_base_names ["/usr/bin"; "/usr/local/bin"]
           scenarioWorld scenarioMap scenarioWorld).
  vm_compute; reflexivity.
Defined.

(** ** The filter of the search path *)

Section Filter.

Lemma dirExists_Stat path w :
  dirExists path w
  = match os.Stat (fs w) path with
    | inl ENOENT => (Done false, w)
    | inl e => (Fatal e, w)
    | inr _ => (Done true, w)
    end.
Proof. reflexivity. Qed.

(** The first walk of an entry that can be examined ends with [nil]. *)
Lemma marker_walk_Nil w path info :
  os.Stat (fs w) path = inr info ->
  exists b, WalkDir (fs w) path (markerFunc path) false = Nil b.
Proof.
  intros Hs. apply Stat_inr_lookup in Hs as [n Hn]. unfold WalkDir.
  rewrite Hn.
  destruct (walkDir_marker path n path (filepath.Base path) false)
    as (b & -> & _).
  now exists b.
Qed.

Lemma filterPaths_step c rest acc w :
  filterPaths (c :: rest) acc w
  = match os.Stat (fs w) c with
    | inl ENOENT => filterPaths rest acc w
    | inl e => (Fatal e, w)
    | inr _ =>
        filterPaths rest (if passesFilter w c then acc ++ [c] else acc) w
    end.
Proof.
  cbn [filterPaths]. unfold bind at 1. rewrite dirExists_Stat.
  unfold passesFilter.
  destruct (os.Stat (fs w) c) as [e|info] eqn:Hs.
  - destruct e; reflexivity.
  - destruct (marker_walk_Nil w c info Hs) as [b Hb].
    unfold bind, walkOrFatal. rewrite Hb. now destruct b.
Qed.

End Filter.

(** X2.  Lines 209-231.  When the filter ends normally it has changed
    nothing, and [paths] lists, in the order of the search path and as often
    as the search path lists them, the entries that can be examined and in
    which the first walk finds no marker. *)
Theorem filter_keeps_order candidates acc w paths w' :
  filterPaths candidates acc w = (Done paths, w') ->
  w' = w /\
  paths = acc ++ filter (fun d => passesFilter w d = true) candidates.
Proof.
  revert acc. induction candidates as [|c rest IH]; intros acc H.
  - cbn in H. injection H as <- <-. now rewrite app_nil_r.
  - rewrite filterPaths_step in H. rewrite filter_cons.
    assert (Hno : forall e, os.Stat (fs w) c = inl e -> passesFilter w c = false).
    { intros e He. unfold passesFilter. now rewrite He. }
    destruct (os.Stat (fs w) c) as [e|info] eqn:Hs.
    + rewrite (Hno e eq_refl). rewrite decide_False by discriminate.
      destruct e; try discriminate. now apply IH.
    + destruct (passesFilter w c).
      * rewrite decide_True by reflexivity.
        destruct (IH _ H) as [-> ->]. now rewrite <- app_assoc.
      * rewrite decide_False by discriminate. now apply IH.
Qed.

Lemma filter_keeps_order_witness :
  mixedPathWorld = mixedPathWorld /\
  ["/usr/local/bin"; "/usr/bin/foo"; "/usr/bin"; "/usr/local/bin"]
  = [] ++ filter (fun d => passesFilter mixedPathWorld d = true)
            (Split (os.Getenv_PATH mixedPathWorld) ":").
Proof.
  apply (filter_keeps_order (Split (os.Getenv_PATH mixedPathWorld) ":") []
           mixedPathWorld _ mixedPathWorld).
  vm_compute; reflexivity.
Defined.

(** X3.  Lines 48-56 and 209-231.  The filter never panics and changes
    nothing.  It ends the process only when a search-path entry cannot be
    examined for another reason than that it does not exist, with that
    error; the first walk itself never fails. *)
Theorem filter_fails_only_on_stat_error candidates acc w o w' :
  filterPaths candidates acc w = (o, w') ->
  w' = w /\
  ((exists paths, o = Done paths) \/
   (exists d e, d ∈ candidates /\ os.Stat (fs w) d = inl e /\
                e <> ENOENT /\ o = Fatal e)).
Proof.
  revert acc. induction candidates as [|c rest IH]; intros acc H.
  - cbn in H. injection H as <- <-. split; [reflexivity|left; eauto].
  - rewrite filterPaths_step in H.
    assert (Hrest : forall acc', filterPaths rest acc' w = (o, w') ->
              w' = w /\
              ((exists paths, o = Done paths) \/
               (exists d e, d ∈ c :: rest /\ os.Stat (fs w) d = inl e /\
                            e <> ENOENT /\ o = Fatal e))).
    { intros acc' H'. destruct (IH _ H') as [-> [Hdone|(d & e & Hd & Hrest)]].
      - auto.
      - split; [reflexivity|right]. exists d, e. split; [now right|exact Hrest]. }
    destruct (os.Stat (fs w) c) as [e|info] eqn:Hs; [|now apply (Hrest _ H)].
    destruct e; try (now apply (Hrest _ H));
      injection H as <- <-; (split; [reflexivity|right]);
      eexists c, _; (split; [left|split; [exact Hs|split; [discriminate|reflexivity]]]).
Qed.

Lemma filter_fails_only_on_stat_error_witness :
  throughFileWorld = throughFileWorld /\
  ((exists paths, @Fatal (list string) ENOTDIR = Done paths) \/
   (exists d e, d ∈ Split (os.Getenv_PATH throughFileWorld) ":" /\
                os.Stat (fs throughFileWorld) d = inl e /\
                e <> ENOENT /\ @Fatal (list string) ENOTDIR = Fatal e)).
Proof.
  apply (filter_fails_only_on_stat_error
           (Split (os.Getenv_PATH throughFileWorld) ":") []
           throughFileWorld (Fatal ENOTDIR) throughFileWorld).
  vm_compute; reflexivity.
Defined.

(** X4. A search-path entry that names a file instead of a directory is
    walked as if it were a directory holding only itself: the first pass
    keeps it unless its base name is [.btbMarker], and the second pass
    collects the entry's own path when [canExecute] accepts the file, and
    nothing otherwise. *)
Theorem file_entry_is_walked_as_itself w path m c u b :
  os.lookup (fs w) path = inr (File m c) ->
  currentUser w = Some u ->
  canExecute u (os.infoOf (filepath.Base path) (File m c)) = Done b ->
  passesFilter w path = negb (String.eqb (filepath.Base path) btbMarker)
  /\ found w path = if b then [path] else [].
Proof.
  intros Hlook Hu Hcan. split.
  - unfold passesFilter, os.Stat. rewrite Hlook.
    unfold WalkDir. rewrite Hlook. cbn [walkDir markerFunc os.infoOf Name].
    rewrite String.eqb_refl. cbn [negb andb].
    now destruct (String.eqb (filepath.Base path) btbMarker).
  - unfold found, WalkDir. rewrite Hlook.
    cbn [walkDir collectFunc]. cbv zeta.
    replace (Name (os.infoOf (filepath.Base path) (File m c)))
      with (filepath.Base path) by reflexivity.
    rewrite String.eqb_refl. cbn [negb andb]. rewrite Hu.
    rewrite IsDir_File, Hcan. now destruct b.
Qed.

Lemma file_entry_is_walked_as_itself_witness :
  passesFilter scenarioWorld "/usr/bin/foo"
  = negb (String.eqb (filepath.Base "/usr/bin/foo") btbMarker)
  /\ found scenarioWorld "/usr/bin/foo" = if true then ["/usr/bin/foo"] else [].
Proof.
  apply (file_entry_is_walked_as_itself scenarioWorld "/usr/bin/foo"
           {| perm := 493; owner := rootOwner |} ""
           {| user.Uid := "1000"; user.Gid := "1000" |} true);
    vm_compute; reflexivity.
Defined.

(** ** The confirmation dialogue, word by word *)

Section Dialogue.

Variable binPath : string.

Lemma UserInputLoop_reprompts invalid : forall rest count w,
  Forall (fun line => classify (line +:+ nl) = Unrecognised) invalid ->
  count + length invalid <= 3 ->
  stdinLines w = invalid ++ rest ->
  UserInputLoop binPath (invalid ++ rest) count w
  = UserInputLoop binPath rest (count + length invalid)
      (withStdout (withStdin w rest)
         (stdout w +:+ copies (length invalid) "Please enter (y/n): ")).
Proof.
  induction invalid as [|line invalid IH]; intros rest count w Hinv Hcount Hin.
  - cbn [app length copies]. rewrite Nat.add_0_r, append_nil_r.
    cbn in Hin. destruct w; cbn in *; subst. reflexivity.
  - inversion Hinv as [|? ? Hline Hinv']; subst. cbn [length] in Hcount.
    cbn [app UserInputLoop]. unfold bind at 1, ReadString at 1.
    rewrite Hin. cbn [app]. rewrite Hline.
    destruct (Nat.eqb_spec count 3) as [E|_]; [lia|].
    unfold bind at 1, Print at 1.
    rewrite (IH rest (S count)
               (withStdout (withStdin w (invalid ++ rest))
                  (stdout (withStdin w (invalid ++ rest))
                   +:+ "Please enter (y/n): ")));
      [|exact Hinv'|lia|reflexivity].
    cbn [length copies stdout withStdout withStdin].
    rewrite append_assoc. f_equal. lia.
Qed.


Lemma checkExisting_dialogue w invalid rest :
  dirExists binPath w = (Done true, w) ->
  Forall (fun line => classify (line +:+ nl) = Unrecognised) invalid ->
  length invalid <= 3 ->
  stdinLines w = invalid ++ rest ->
  checkExisting binPath w
  = UserInputLoop binPath rest (length invalid)
      (withStdout (withStdin w rest)
         (stdout w +:+ dialogue binPath (length invalid))).
Proof.
  intros Hex Hinv Hlen Hin.
  rewrite (checkExisting_existing _ _ Hex), Hin.
  rewrite (UserInputLoop_reprompts invalid rest 0
             (withStdout w (stdout w +:+ Sprintf "rmdir: %s (y/n)? " [binPath]))
             Hinv Hlen Hin).
  cbn [stdout withStdout withStdin Nat.add]. unfold dialogue.
  now rewrite append_assoc.
Qed.

End Dialogue.

(** A run whose confirmation ends the process leaves the file tree as it
    was. *)
Lemma run_ends_at_confirmation args w e w1 :
  checkExisting (filepath.Join [BinPath args; Prefix args]) w = (Fatal e, w1) ->
  fs w1 = fs w ->
  forall o w2,
    rootCommandFunction args w = (o, w2) ->
    fs w2 = fs w /\ forall exeMap, o <> Done exeMap.
Proof.
  intros Hce Hfs o w2 Hrun. unfold rootCommandFunction, bind in Hrun.
  destruct (currentExePath w) as [[exe|e0|] w0] eqn:H0;
    apply currentExePath_world in H0; subst w0;
    [|inversion Hrun; subst; split; [reflexivity|discriminate]..].
  destruct (filterPaths _ [] w) as [[paths|e0|] w0] eqn:H1;
    apply filterPaths_world in H1; subst w0;
    [|inversion Hrun; subst; split; [reflexivity|discriminate]..].
  rewrite Hce in Hrun. inversion Hrun; subst.
  split; [exact Hfs|discriminate].
Qed.



(** X6. The target directory exists and the input ends after at most three
    unrecognised answers: the confirmation ends the process with the read
    error (end of input), after the question and one reminder per answer;
    the run does not end normally and the file tree is untouched. *)
Theorem confirmation_input_ends args w invalid :
  dirExists (filepath.Join [BinPath args; Prefix args]) w = (Done true, w) ->
  Forall (fun line => classify (line +:+ nl) = Unrecognised) invalid ->
  length invalid <= 3 ->
  stdinLines w = invalid ->
  checkExisting (filepath.Join [BinPath args; Prefix args]) w
  = (Fatal EOF,
     withStdout (withStdin w [])
       (stdout w +:+ dialogue (filepath.Join [BinPath args; Prefix args])
                       (length invalid)))
  /\ forall o w2,
       rootCommandFunction args w = (o, w2) ->
       fs w2 = fs w /\ forall exeMap, o <> Done exeMap.
Proof.
  intros Hex Hinv Hlen Hin.
  assert (Hin' : stdinLines w = invalid ++ []) by now rewrite app_nil_r.
  assert (Hce : checkExisting (filepath.Join [BinPath args; Prefix args]) w
                = (Fatal EOF,
                   withStdout (withStdin w [])
                     (stdout w
                      +:+ dialogue (filepath.Join [BinPath args; Prefix args])
                            (length invalid)))).
  { now rewrite (checkExisting_dialogue _ w invalid [] Hex Hinv Hlen Hin'). }
  split; [exact Hce|].
  now apply (run_ends_at_confirmation args w _ _ Hce).
Qed.

Lemma confirmation_input_ends_witness :
  checkExisting (filepath.Join ["/home/u/bin"; "myprefix"]) silentWorld
  = (Fatal EOF,
     withStdout (withStdin silentWorld [])
       (stdout silentWorld
        +:+ dialogue (filepath.Join ["/home/u/bin"; "myprefix"]) 2))
  /\ forall o w2,
       rootCommandFunction scenarioArgs silentWorld = (o, w2) ->
       fs w2 = fs silentWorld /\ forall exeMap, o <> Done exeMap.
Proof.
  refine (confirmation_input_ends scenarioArgs silentWorld ["what"; "hm"]
            _ _ _ _).
  - vm_compute; reflexivity.
  - repeat constructor.
  - cbn; lia.
  - reflexivity.
Defined.

(** ** What a run prints *)

Section Output.

Lemma UserInputLoop_stdout binPath lines : forall count w o w',
  count <= 3 ->
  UserInputLoop binPath lines count w = (o, w') ->
  exists k, count + k <= 3 /\
    stdout w' = stdout w +:+ copies k "Please enter (y/n): ".
Proof.
  induction lines as [|line rest IH]; intros count w o w' Hc H.
  - exists 0. cbn in H. unfold logFatal in H. inversion H; subst.
    cbn [copies]. rewrite append_nil_r. split; [lia|reflexivity].
  - cbn [UserInputLoop] in H. unfold bind at 1, ReadString at 1 in H.
    destruct (stdinLines w) as [|l ls] eqn:Hin.
    { exists 0. inversion H; subst. cbn [copies]. rewrite append_nil_r.
      split; [lia|reflexivity]. }
    destruct (classify (l +:+ nl)).
    + exists 0. unfold orFatal in H. cbn [fs withStdin] in H.
      destruct (os.RemoveAll (fs w) binPath) as [[e|] f'];
        inversion H; subst; cbn [copies stdout withFS withStdin];
        rewrite append_nil_r; (split; [lia|reflexivity]).
    + exists 0. unfold logFatal in H. inversion H; subst.
      cbn [copies stdout withStdin]. rewrite append_nil_r.
      split; [lia|reflexivity].
    + destruct (Nat.eqb_spec count 3) as [E|E].
      * exists 0. unfold logFatal in H. inversion H; subst.
        cbn [copies stdout withStdin]. rewrite append_nil_r.
        split; [lia|reflexivity].
      * unfold bind at 1, Print at 1 in H.
        apply IH in H as (k & Hk & Hout); [|lia].
        exists (S k). split; [lia|]. rewrite Hout.
        cbn [copies stdout withStdout withStdin].
        now rewrite append_assoc.
Qed.

Lemma checkExisting_stdout binPath w o w' :
  checkExisting binPath w = (o, w') ->
  stdout w' = stdout w
  \/ dirExists binPath w = (Done true, w) /\
     exists k, k <= 3 /\ stdout w' = stdout w +:+ dialogue binPath k.
Proof.
  intros H. unfold checkExisting, bind in H.
  destruct (dirExists binPath w) as [[[]|e|] w0] eqn:Hd;
    pose proof (dirExists_world _ _ _ _ Hd); subst w0.
  - right. split; [reflexivity|].
    unfold Print in H.
    apply UserInputLoop_stdout in H as (k & Hk & Hout); [|lia].
    exists k. split; [lia|]. rewrite Hout. cbn [stdout withStdout].
    unfold dialogue. now rewrite append_assoc.
  - left. unfold ret in H. now inversion H.
  - left. now inversion H.
  - left. now inversion H.
Qed.

Lemma createDirectory_stdout args binPath w o w' :
  createDirectory args binPath w = (o, w') -> stdout w' = stdout w.
Proof.
  unfold createDirectory, bind, orFatal. intros H.
  destruct (os.Stat (fs w) (BinPath args)) as [e|ps]; [now inversion H|].
  destruct (os.Mkdir (fs w) binPath (Mode ps)) as [[e|] f1];
    [now inversion H|].
  cbn [fs withFS] in H.
  destruct (os.OpenFile f1 _ (Mode ps)) as [[e|fl] f2]; now inversion H.
Qed.

Lemma populate_stdout args binPath mode entries : forall w o w',
  populate args binPath mode entries w = (o, w') -> stdout w' = stdout w.
Proof.
  induction entries as [|[exe exePath] rest IH]; intros w o w' H.
  - cbn in H. unfold ret in H. now inversion H.
  - cbn [populate] in H. unfold bind at 1, writeShim at 1 in H.
    destruct (os.OpenFile (fs w) _ mode) as [[e|fl] f1];
      [now inversion H|].
    unfold orFatal in H. cbn [fs withFS] in H.
    destruct (os.WriteString f1 fl _) as [[e|] f2]; [now inversion H|].
    apply IH in H. exact H.
Qed.

End Output.

(** X7. What a run adds to the standard output, however it ends: the
    sentinel line [<<<Done>>>] exactly when it ends normally, and then as the
    last thing; before it nothing, or, when the target directory exists, the
    question with at most three reminders. *)
Theorem run_output args w o w' :
  rootCommandFunction args w = (o, w') ->
  exists said,
    stdout w' = stdout w +:+ said +:+ closing o /\
    (said = ""
     \/ dirExists (filepath.Join [BinPath args; Prefix args]) w
        = (Done true, w) /\
        exists k, k <= 3 /\
          said = dialogue (filepath.Join [BinPath args; Prefix args]) k).
Proof.
  intros Hrun. unfold rootCommandFunction, bind in Hrun.
  destruct (currentExePath w) as [[exe|e|] w0] eqn:H0;
    apply currentExePath_world in H0; subst w0;
    [|inversion Hrun; subst; exists ""; cbn [closing];
      rewrite !append_nil_r; auto..].
  destruct (filterPaths _ [] w) as [[paths|e|] w0] eqn:H1;
    apply filterPaths_world in H1; subst w0;
    [|inversion Hrun; subst; exists ""; cbn [closing];
      rewrite !append_nil_r; auto..].
  destruct (checkExisting _ w) as [o1 w1] eqn:H2.
  assert (Hsaid : exists said,
             stdout w1 = stdout w +:+ said /\
             (said = ""
              \/ dirExists (filepath.Join [BinPath args; Prefix args]) w
                 = (Done true, w) /\
                 exists k, k <= 3 /\
                   said = dialogue
                            (filepath.Join [BinPath args; Prefix args]) k)).
  { destruct (checkExisting_stdout _ _ _ _ H2) as [E|(Hd & k & Hk & E)].
    - exists "". rewrite append_nil_r. auto.
    - eexists. split; [exact E|]. right. split; [exact Hd|]. now exists k. }
  destruct Hsaid as (said & Hout & Hsaid). exists said.
  split; [|exact Hsaid].
  destruct o1 as [[]|e|];
    [|inversion Hrun; subst; cbn [closing]; now rewrite append_nil_r..].
  destruct (createDirectory args _ w1) as [[mode|e|] wc] eqn:H3;
    apply createDirectory_stdout in H3;
    [|inversion Hrun; subst; cbn [closing]; rewrite append_nil_r;
      congruence..].
  destruct (discover paths wc) as [[m|e|] wc'] eqn:H4;
    apply discover_world in H4; subst wc';
    [|inversion Hrun; subst; cbn [closing]; rewrite append_nil_r;
      congruence..].
  destruct (populate args _ mode (map_to_list m) wc) as [[[]|e|] w2] eqn:H5;
    apply populate_stdout in H5;
    [|inversion Hrun; subst; cbn [closing]; rewrite append_nil_r;
      congruence..].
  unfold Print, ret in Hrun. inversion Hrun; subst.
  cbn [closing stdout withStdout]. rewrite H5, H3, Hout.
  now rewrite !append_assoc.
Qed.

Lemma run_output_witness :
  exists said,
    stdout (snd (rootCommandFunction scenarioArgs retryWorld))
    = stdout retryWorld +:+ said
      +:+ closing (fst (rootCommandFunction scenarioArgs retryWorld)) /\
    (said = ""
     \/ dirExists "/home/u/bin/myprefix" retryWorld = (Done true, retryWorld) /\
        exists k, k <= 3 /\ said = dialogue "/home/u/bin/myprefix" k).
Proof.
  apply (run_output scenarioArgs retryWorld
           (fst (rootCommandFunction scenarioArgs retryWorld))
           (snd (rootCommandFunction scenarioArgs retryWorld))).
  apply surjective_pairing.
Defined.

(** ** Mode and owner of what a run creates *)

Section Created.

Lemma RemoveAll_settings f path e f' :
  os.RemoveAll f path = (e, f') ->
  umask f' = umask f /\ procOwner f' = procOwner f.
Proof.
  unfold os.RemoveAll. intros H.
  destruct (String.eqb path ""); [now inversion H|].
  destruct (os.endsWithDot path); [now inversion H|].
  destruct (locate f path) as [[|c l]|pl nm|[]]; now inversion H.
Qed.

Lemma UserInputLoop_settings binPath lines : forall count w o w',
  UserInputLoop binPath lines count w = (o, w') ->
  umask (fs w') = umask (fs w) /\ procOwner (fs w') = procOwner (fs w).
Proof.
  induction lines as [|line rest IH]; intros count w o w' H.
  - cbn in H. unfold logFatal in H. now inversion H.
  - cbn [UserInputLoop] in H. unfold bind at 1, ReadString at 1 in H.
    destruct (stdinLines w) as [|l ls]; [now inversion H|].
    destruct (classify (l +:+ nl)).
    + unfold orFatal in H. cbn [fs withStdin] in H.
      destruct (os.RemoveAll (fs w) binPath) as [[e|] f'] eqn:E;
        apply RemoveAll_settings in E; now inversion H.
    + unfold logFatal in H. now inversion H.
    + destruct (count =? 3)%nat; [unfold logFatal in H; now inversion H|].
      unfold bind at 1, Print at 1 in H. apply IH in H. exact H.
Qed.

Lemma checkExisting_settings binPath w o w' :
  checkExisting binPath w = (o, w') ->
  umask (fs w') = umask (fs w) /\ procOwner (fs w') = procOwner (fs w).
Proof.
  unfold checkExisting, bind. intros H.
  destruct (dirExists binPath w) as [[[|]|e|] w1] eqn:Hd;
    apply dirExists_world in Hd; subst w1.
  - unfold Print in H. apply UserInputLoop_settings in H. exact H.
  - unfold ret in H. now inversion H.
  - now inversion H.
  - now inversion H.
Qed.

Lemma land_perm_again m n :
  Z.land (Z.land (Z.land m ModePerm) n) ModePerm
  = Z.land (Z.land m ModePerm) n.
Proof.
  rewrite <- (Z.land_assoc (Z.land m ModePerm)), (Z.land_comm n ModePerm).
  rewrite Z.land_assoc, <- (Z.land_assoc m), Z.land_diag. reflexivity.
Qed.

End Created.

(** X8. In a run that ends normally, with a prefix free of path separators,
    every shim is a regular file whose permission bits are those of the
    output base directory (as they were when the directory was created)
    without the bits of the process's umask, and whose owner is the user and
    group of the process. *)
Theorem shim_mode_follows_base_directory args w exeMap w' exe exePath :
  wfFS (fs w) ->
  hasByte "/" (Prefix args) = false ->
  rootCommandFunction args w = (Done exeMap, w') ->
  exeMap !! exe = Some exePath ->
  let binPath := filepath.Join [BinPath args; Prefix args] in
  let fileName := Prefix args +:+ "-" +:+ exe in
  exists w1 parentStat,
    checkExisting binPath w = (Done tt, w1) /\
    os.Stat (fs w1) (BinPath args) = inr parentStat /\
    os.Stat (fs w') (filepath.Join [binPath; fileName])
    = inr {| Name := fileName;
             Mode := Z.land (Z.land (Mode parentStat) ModePerm)
                       (Z.lnot (umask (fs w)));
             Sys := SysStatPtr (procOwner (fs w)) |}.
Proof.
  intros Hwf Hprefix Hrun Hexe binPath fileName.
  apply run_phases in Hrun
    as (paths & w1 & mode & wc & w2 & _ & Hcheck & Hcreate & Hdisc & Hpop & ->).
  pose proof (checkExisting_wf _ _ _ Hcheck Hwf) as Hwf1.
  destruct (checkExisting_settings _ _ _ _ Hcheck) as [Hu1 Ho1].
  apply createDirectory_Done in Hcreate
    as (fc & loc & parentStat & -> & Hstat & -> & Hsd & Hu & Ho & Hwfc).
  specialize (Hwfc Hwf1).
  assert (Hplain : forall e p, exeMap !! e = Some p -> hasByte "/" e = false).
  { intros e p He.
    now destruct (discover_plain paths (withFS w1 fc) _ _ _ _ Hwfc Hdisc He). }
  destruct (populate_fresh args binPath (Mode parentStat) (map_to_list exeMap)
              (withFS w1 fc) loc _ _ Hsd Hprefix
              (map_to_list_plain _ Hplain) (NoDup_fst_map_to_list _))
    as (f' & es' & Hpop' & Hsd' & Hes).
  fold binPath in Hpop. rewrite Hpop' in Hpop. injection Hpop as <-.
  exists w1, parentStat. split; [exact Hcheck|]. split; [exact Hstat|].
  change (fs (withStdout (withFS (withFS w1 fc) f') _)) with f'.
  assert (Hname : isName fileName).
  { subst fileName. rewrite <- fileNameOf_eq.
    apply isName_fileNameOf; [exact Hprefix|]. eapply Hplain, Hexe. }
  assert (Hentry : lookupEntry fileName es'
                   = Some (File (createdMeta fc (Mode parentStat))
                             (fileContentsOf args exePath))).
  { rewrite Hes. subst fileName. rewrite <- fileNameOf_eq.
    rewrite (shimOf_Some args _ (map_to_list exeMap) exe exePath).
    - reflexivity.
    - apply NoDup_fst_map_to_list.
    - now apply elem_of_map_to_list. }
  unfold os.Stat.
  rewrite (shimDirAt_entry _ _ _ _ _ fileName _ Hsd' Hname Hentry).
  rewrite (Base_Join_name _ _ Hname).
  unfold os.infoOf. cbn [nodeMeta createdMeta perm owner].
  cbn [fs withFS] in *. unfold os.createdPerm.
  rewrite land_perm_again, Hu, Ho, Hu1, Ho1. reflexivity.
Qed.

Lemma shim_mode_follows_base_directory_witness :
  exists w1 parentStat,
    checkExisting "/home/u/bin/myprefix" scenarioWorld = (Done tt, w1) /\
    os.Stat (fs w1) "/home/u/bin" = inr parentStat /\
    os.Stat (fs scenarioEnd) "/home/u/bin/myprefix/myprefix-foo"
    = inr {| Name := "myprefix-foo";
             Mode := Z.land (Z.land (Mode parentStat) ModePerm) (Z.lnot 18);
             Sys := SysStatPtr userOwner |}.
Proof.
  apply (shim_mode_follows_base_directory scenarioArgs scenarioWorld
           scenarioMap scenarioEnd "foo" "/usr/bin/foo").
  - cbv [wfFS scenarioWorld worldOf fs rootEntries scenarioTree dir exeFile
         wfEntries wfNode isName isElement].
    repeat split; (discriminate || reflexivity).
  - reflexivity.
  - vm_compute; reflexivity.
  - vm_compute; reflexivity.
Defined.

(** ** A search-path entry that is gone at the second walk *)

Section Vanished.

Lemma walk_missing_panics path acc w e :
  os.lookup (fs w) path = inl e ->
  walkOrFatal path (collectFunc path) acc w = (Panic, w).
Proof.
  intros H. unfold walkOrFatal, WalkDir. now rewrite H.
Qed.

Lemma collect_missing d e w paths : forall acc l w',
  d ∈ paths -> os.lookup (fs w) d = inl e ->
  collect paths acc w <> (Done l, w').
Proof.
  induction paths as [|p paths IH]; intros acc l w' Hin Hd H.
  - inversion Hin.
  - cbn [collect] in H. unfold bind in H.
    destruct (walkOrFatal p (collectFunc p) acc w) as [[a|e'|] w1] eqn:Hw;
      try discriminate.
    pose proof (walkOrFatal_world _ _ _ _ _ _ Hw). subst w1.
    apply elem_of_cons in Hin as [->|Hin].
    + rewrite (walk_missing_panics _ _ _ _ Hd) in Hw. discriminate.
    + exact (IH a l w' Hin Hd H).
Qed.

Lemma discover_missing d e w paths :
  d ∈ paths -> os.lookup (fs w) d = inl e ->
  (forall m w', discover paths w <> (Done m, w'))
  /\ (last paths = Some d -> discover paths w = (Panic, w)).
Proof.
  intros Hin Hd. unfold discover. rewrite inPlaceReverse_reverse. split.
  - intros m w' H. unfold bind in H.
    destruct (collect (reverse paths) [] w) as [[l|e'|] w1] eqn:Hc;
      try discriminate.
    apply (collect_missing d e w (reverse paths) [] l w1);
      [now apply elem_of_reverse|exact Hd|exact Hc].
  - intros Hlast. apply last_Some in Hlast as [init ->].
    rewrite reverse_snoc. cbn [collect]. unfold bind.
    now rewrite (walk_missing_panics _ _ _ _ Hd).
Qed.

End Vanished.

(** X9. The second walk reads the name of the directory entry before it
    looks at the error it was handed.  So when a directory that passed the
    filter is gone once the target directory has been deleted and created
    again (it was inside the target directory), the run cannot end normally;
    when that directory is the last of the filtered search path, the one
    walked first, the run ends in a panic, with the target directory already
    replaced. *)
Theorem vanished_entry_panics args w paths w1 mode wc d e :
  executable w <> None ->
  filterPaths (Split (os.Getenv_PATH w) ":") [] w = (Done paths, w) ->
  checkExisting (filepath.Join [BinPath args; Prefix args]) w = (Done tt, w1) ->
  createDirectory args (filepath.Join [BinPath args; Prefix args]) w1
  = (Done mode, wc) ->
  d ∈ paths ->
  os.lookup (fs wc) d = inl e ->
  (forall m w', rootCommandFunction args w <> (Done m, w'))
  /\ (last paths = Some d -> rootCommandFunction args w = (Panic, wc)).
Proof.
  intros Hexe Hfilter Hcheck Hcreate Hin Hd.
  destruct (discover_missing d e wc paths Hin Hd) as [Hnot Hpanic].
  unfold rootCommandFunction, bind, currentExePath.
  destruct (executable w) as [exe|]; [|congruence].
  rewrite Hfilter, Hcheck, Hcreate. split.
  - intros m w' H.
    destruct (discover paths wc) as [[m'|e'|] wd] eqn:Hdisc;
      try discriminate.
    exact (Hnot _ _ eq_refl).
  - intros Hlast. now rewrite (Hpanic Hlast).
Qed.

Lemma vanished_entry_panics_witness :
  (forall m w', rootCommandFunction scenarioArgs vanishingWorld <> (Done m, w'))
  /\ (last ["/usr/bin"; "/home/u/bin/myprefix/tools"]
      = Some "/home/u/bin/myprefix/tools" ->
      rootCommandFunction scenarioArgs vanishingWorld
      = (Panic,
         snd (createDirectory scenarioArgs "/home/u/bin/myprefix"
                (snd (checkExisting "/home/u/bin/myprefix" vanishingWorld))))).
Proof.
  apply (vanished_entry_panics scenarioArgs vanishingWorld
           ["/usr/bin"; "/home/u/bin/myprefix/tools"]
           (snd (checkExisting "/home/u/bin/myprefix" vanishingWorld))
           (Z.lor ModeDir 493) _ "/home/u/bin/myprefix/tools" ENOENT);
    try (vm_compute; reflexivity).
  - discriminate.
  - apply list_elem_of_In. cbn. auto.
Defined.

(** ** What a run leaves alone *)

Section RunFrame.

Lemma RemoveAll_cases f path :
  snd (os.RemoveAll f path) = f
  \/ exists loc, locate f path = Existing loc
                 /\ snd (os.RemoveAll f path) = update f loc None.
Proof.
  unfold os.RemoveAll.
  destruct (String.eqb path ""); [now left|].
  destruct (os.endsWithDot path); [now left|].
  destruct (locate f path) as [[|c l]|pl nm|[]]; try (now left).
  right. now exists (c :: l).
Qed.

Lemma UserInputLoop_fs binPath lines : forall count w o w',
  UserInputLoop binPath lines count w = (o, w') ->
  fs w' = fs w \/ fs w' = snd (os.RemoveAll (fs w) binPath).
Proof.
  induction lines as [|line rest IH]; intros count w o w' H.
  - cbn in H. unfold logFatal in H. left. now inversion H.
  - cbn [UserInputLoop] in H. unfold bind at 1, ReadString at 1 in H.
    destruct (stdinLines w) as [|l ls]; [left; now inversion H|].
    destruct (classify (l +:+ nl)).
    + right. unfold orFatal in H. cbn [fs withStdin] in H.
      destruct (os.RemoveAll (fs w) binPath) as [[e|] f']; now inversion H.
    + left. unfold logFatal in H. now inversion H.
    + destruct (count =? 3)%nat;
        [left; unfold logFatal in H; now inversion H|].
      unfold bind at 1, Print at 1 in H. apply IH in H. exact H.
Qed.

Lemma checkExisting_fs binPath w o w' :
  checkExisting binPath w = (o, w') ->
  fs w' = fs w
  \/ exists loc, locate (fs w) binPath = Existing loc
                 /\ fs w' = update (fs w) loc None.
Proof.
  unfold checkExisting, bind. intros H.
  destruct (dirExists binPath w) as [[[|]|e|] w1] eqn:Hd;
    apply dirExists_world in Hd; subst w1.
  - unfold Print in H. apply UserInputLoop_fs in H. cbn [fs withStdout] in H.
    destruct H as [H|H]; [now left|].
    destruct (RemoveAll_cases (fs w) binPath) as [E|(loc & Hloc & E)].
    + left. congruence.
    + right. exists loc. split; [exact Hloc|congruence].
  - left. unfold ret in H. now inversion H.
  - left. now inversion H.
  - left. now inversion H.
Qed.

Lemma WriteString_changedBelow f loc x s o f' :
  os.WriteString f (loc ++ x) s = (o, f') -> changedBelow loc f f'.
Proof.
  unfold os.WriteString.
  destruct (nodeAt (root f) (loc ++ x)) as [[m old|m es]|]; intros H;
    inversion H; subst; try apply changedBelow_refl.
  apply changedBelow_update.
Qed.

Variable args : Args.

Let binPath := filepath.Join [BinPath args; Prefix args].

Lemma createDirectory_fs w o w' :
  createDirectory args binPath w = (o, w') ->
  fs w' = fs w
  \/ exists ploc name, locate (fs w) binPath = Missing ploc name
                       /\ changedBelow (ploc ++ [name]) (fs w) (fs w').
Proof.
  intros H. destruct o as [mode|e|].
  - right. destruct (createDirectory_inv _ _ _ _ H)
      as (r & k & names & name & pm & pes & ps & f' & Hbp & Hk & Hn & Hname
          & Hs & Hd & Hfree & _ & _ & -> & _ & Hch & _).
    exists (baseOf (fs w) r k ++ names), name. split.
    + unfold binPath. rewrite Hbp.
      rewrite (locate_clean (fs w) r k names name pm pes Hk Hn Hname Hs Hd).
      now rewrite Hfree.
    + cbn [fs withFS]. now rewrite <- app_assoc.
  - unfold createDirectory, bind, orFatal in H.
    destruct (os.Stat (fs w) (BinPath args)) as [e0|ps];
      [left; now inversion H|].
    unfold os.Mkdir in H.
    destruct (locate (fs w) binPath) as [l|pl nm|e0] eqn:Hloc;
      [left; now inversion H| |left; now inversion H].
    cbn [fs withFS] in H. right. exists pl, nm. split; [reflexivity|].
    unfold os.OpenFile in H.
    destruct (locate _ (filepath.Join [binPath; btbMarker])) as [l|pl' nm'|e0].
    + destruct (nodeAt _ l) as [[? ?|? ?]|]; inversion H; subst;
        apply changedBelow_update_at.
    + discriminate.
    + inversion H; subst. apply changedBelow_update_at.
  - unfold createDirectory, bind, orFatal in H.
    destruct (os.Stat (fs w) (BinPath args)) as [e0|ps]; [discriminate|].
    destruct (os.Mkdir (fs w) binPath (Mode ps)) as [[e0|] f1];
      [discriminate|].
    cbn [fs withFS] in H.
    destruct (os.OpenFile f1 _ (Mode ps)) as [[e0|fl] f2]; discriminate.
Qed.

(** The place of the target is the same before its removal and after. *)
Lemma place_after_removal f loc ploc name :
  locate f binPath = Existing loc ->
  locate (update f loc None) binPath = Missing ploc name ->
  ploc ++ [name] = loc.
Proof.
  intros Hex Hmiss.
  destruct (Join2_shape (BinPath args) (Prefix args))
    as [E|(rooted & kept & E & Hc & _)]; fold binPath in E.
  { rewrite E in Hex. discriminate. }
  rewrite E in *.
  destruct (cleaned_cases _ _ Hc)
    as [(k & -> & Hk)|(k & names & nm & -> & Hk & Hn & Hname)].
  { now destruct (locate_dots_not_Missing _ _ _ _ _ Hk Hmiss). }
  destruct (locate_clean_Existing _ _ _ _ _ _ Hk Hn Hname Hex)
    as (_ & -> & _).
  destruct (locate_clean_Missing _ _ _ _ _ _ _ Hk Hn Hname Hmiss)
    as (_ & -> & -> & _).
  unfold baseOf. rewrite cwd_update. now rewrite <- app_assoc.
Qed.

Lemma populate_fresh_below mode entries : forall w loc dm es o w',
  shimDirAt (fs w) binPath loc dm es ->
  Forall (fun e => isName (fileNameOf args (fst e))) entries ->
  NoDup (map (fun e => fileNameOf args (fst e)) entries) ->
  Forall (fun e => lookupEntry (fileNameOf args (fst e)) es = None) entries ->
  populate args binPath mode entries w = (o, w') ->
  changedBelow loc (fs w) (fs w').
Proof.
  induction entries as [|[exe p] rest IH];
    intros w loc dm es o w' Hsd Hnames Hnd Hfree H.
  - cbn in H. unfold ret in H. inversion H; subst. apply changedBelow_refl.
  - inversion Hnames as [|? ? Hname Hnames']; subst.
    inversion Hfree as [|? ? Hfree1 Hfree']; subst.
    cbn [map fst] in Hnd. apply NoDup_cons in Hnd as [Hnotin Hnd].
    cbn [fst] in Hname, Hfree1.
    destruct (create_in_shimDir (fs w) binPath loc dm es (fileNameOf args exe)
                mode (Sprintf BinFormat [Container args; p])
                Hsd Hname Hfree1)
      as (f1 & f2 & Hopen & Hwrite & _ & Hsd2 & _).
    cbn [populate] in H. unfold bind at 1, writeShim at 1 in H.
    unfold fileNameOf in Hopen at 1. rewrite Hopen in H.
    unfold orFatal in H. cbn [fs withFS] in H. rewrite Hwrite in H.
    eapply changedBelow_trans;
      [exact (OpenFile_changedBelow _ _ _ _ _ _ Hopen)|].
    eapply changedBelow_trans;
      [exact (WriteString_changedBelow _ _ _ _ _ _ Hwrite)|].
    refine (IH (withFS (withFS w f1) f2) loc dm _ o w' Hsd2 Hnames' Hnd _ H).
    apply Forall_forall. intros e He.
    assert (Hne : fileNameOf args (fst e) <> fileNameOf args exe).
    { intros E. apply Hnotin. rewrite <- E. apply list_elem_of_In.
      apply (in_map (fun e => fileNameOf args (fst e))).
      now apply list_elem_of_In. }
    rewrite !lookupEntry_setEntry_ne by exact Hne.
    rewrite Forall_forall in Hfree'. now apply Hfree'.
Qed.

End RunFrame.

(** X10. With a prefix free of path separators a run, however it ends,
    changes the file tree only at the place of the target directory and
    below it: every entry that lies neither in the target directory nor on
    the way to it is what it was, every directory on the way to it is still
    a directory with its mode and owner, and when the target path leads
    through something that is missing or is no directory, nothing changes at
    all. *)
Theorem run_changes_target_only args w o w' :
  wfFS (fs w) ->
  hasByte "/" (Prefix args) = false ->
  rootCommandFunction args w = (o, w') ->
  match placeOf (fs w) (filepath.Join [BinPath args; Prefix args]) with
  | Some loc => changedBelow loc (fs w) (fs w')
  | None => fs w' = fs w
  end.
Proof.
  intros Hwf Hprefix Hrun.
  set (bp := filepath.Join [BinPath args; Prefix args]) in *.
  assert (Hsame : forall w0, fs w0 = fs w ->
            match placeOf (fs w) bp with
            | Some loc => changedBelow loc (fs w) (fs w0)
            | None => fs w0 = fs w
            end).
  { intros w0 E. destruct (placeOf (fs w) bp); [|exact E].
    rewrite E. apply changedBelow_refl. }
  unfold rootCommandFunction, bind in Hrun. fold bp in Hrun.
  destruct (currentExePath w) as [[exe|e|] w0] eqn:H0;
    apply currentExePath_world in H0; subst w0;
    [|inversion Hrun; subst; now apply Hsame..].
  destruct (filterPaths _ [] w) as [[paths|e|] w0] eqn:H1;
    apply filterPaths_world in H1; subst w0;
    [|inversion Hrun; subst; now apply Hsame..].
  destruct (checkExisting bp w) as [o1 w1] eqn:Hcheck.
  (* the target, once it is created, is where it was or would have been *)
  assert (Hplace : forall ploc name,
            locate (fs w1) bp = Missing ploc name ->
            placeOf (fs w) bp = Some (ploc ++ [name]) /\
            changedBelow (ploc ++ [name]) (fs w) (fs w1)).
  { intros ploc name Hmiss.
    destruct (checkExisting_fs _ _ _ _ Hcheck) as [E|(loc & Hloc & E)].
    - rewrite E in *. unfold placeOf. rewrite Hmiss.
      split; [reflexivity|apply changedBelow_refl].
    - rewrite E in Hmiss.
      pose proof (place_after_removal args _ _ _ _ Hloc Hmiss) as El.
      unfold placeOf. rewrite Hloc, El, E.
      split; [reflexivity|apply changedBelow_update_at]. }
  assert (Hfirst : match placeOf (fs w) bp with
                   | Some loc => changedBelow loc (fs w) (fs w1)
                   | None => fs w1 = fs w
                   end).
  { destruct (checkExisting_fs _ _ _ _ Hcheck) as [E|(loc & Hloc & E)];
      [now apply Hsame|].
    unfold placeOf. rewrite Hloc, E. apply changedBelow_update_at. }
  destruct o1 as [[]|e|]; [|inversion Hrun; subst; exact Hfirst..].
  pose proof (checkExisting_wf _ _ _ Hcheck Hwf) as Hwf1.
  destruct (createDirectory args bp w1) as [o2 wc] eqn:Hcreate.
  assert (Hsecond : match placeOf (fs w) bp with
                    | Some loc => changedBelow loc (fs w) (fs wc)
                    | None => fs wc = fs w
                    end).
  { destruct (createDirectory_fs args _ _ _ Hcreate)
      as [E|(ploc & name & Hmiss & Hch)].
    - rewrite E. exact Hfirst.
    - destruct (Hplace _ _ Hmiss) as [-> Hch1].
      eapply changedBelow_trans; eassumption. }
  destruct o2 as [mode|e|]; [|inversion Hrun; subst; exact Hsecond..].
  destruct (createDirectory_inv _ _ _ _ Hcreate)
    as (r & k & names & name & pm & pes & ps & fc & Hbp & Hk & Hn & Hname
        & Hs & Hd & Hfree & _ & _ & -> & Hsd & _ & _ & _ & Hwfc).
  specialize (Hwfc Hwf1).
  assert (Hmiss : locate (fs w1) bp = Missing (baseOf (fs w1) r k ++ names) name).
  { unfold bp. rewrite Hbp.
    rewrite (locate_clean (fs w1) r k names name pm pes Hk Hn Hname Hs Hd).
    now rewrite Hfree. }
  destruct (Hplace _ _ Hmiss) as [Hloc _]. rewrite Hloc in *.
  rewrite <- app_assoc in *.
  destruct (discover paths (withFS w1 fc)) as [[m|e|] wd] eqn:Hdisc;
    pose proof (discover_world _ _ _ _ Hdisc); subst wd;
    [|inversion Hrun; subst; exact Hsecond..].
  assert (Hplain : forall e p, m !! e = Some p -> hasByte "/" e = false).
  { intros e p He.
    now destruct (discover_plain paths (withFS w1 fc) _ _ _ _ Hwfc Hdisc He). }
  destruct (populate args bp mode (map_to_list m) (withFS w1 fc))
    as [o3 w3] eqn:Hpop.
  assert (Hthird : changedBelow (baseOf (fs w1) r k ++ names ++ [name])
                     (fs w) (fs w3)).
  { eapply changedBelow_trans; [exact Hsecond|].
    refine (populate_fresh_below args mode (map_to_list m) (withFS w1 fc)
              _ _ _ o3 w3 Hsd _ _ _ Hpop).
    - eapply Forall_impl; [exact (map_to_list_plain _ Hplain)|].
      intros e He. now apply isName_fileNameOf.
    - apply NoDup_fileNames, NoDup_fst_map_to_list.
    - apply Forall_forall. intros e _. apply lookupEntry_marker_only.
      apply fileNameOf_not_marker. }
  destruct o3 as [[]|e|]; inversion Hrun; subst; exact Hthird.
Qed.

Lemma run_changes_target_only_witness :
  changedBelow ["home"; "u"; "bin"; "myprefix"] (fs retryWorld)
    (fs (snd (rootCommandFunction scenarioArgs retryWorld))).
Proof.
  refine (run_changes_target_only scenarioArgs retryWorld
            (fst (rootCommandFunction scenarioArgs retryWorld))
            (snd (rootCommandFunction scenarioArgs retryWorld)) _ _ _).
  - cbv [wfFS retryWorld worldOf fs rootEntries existingTree dir exeFile
         wfEntries wfNode isName isElement].
    repeat split; (discriminate || reflexivity).
  - reflexivity.
  - apply surjective_pairing.
Defined.

(** ** What the second walk takes from a directory *)

Section Collected.

Lemma land_other_bit p :
  (Z.land S_IXOTH (Z.land p ModePerm) =? 0)%Z = negb (Z.testbit p 0).
Proof.
  assert (E : Z.land S_IXOTH (Z.land p ModePerm) = Z.b2z (Z.testbit p 0)).
  { rewrite Z.land_comm. change S_IXOTH with (Z.ones 1).
    rewrite Z.land_ones by lia. change (2 ^ 1)%Z with 2%Z.
    rewrite <- Z.bit0_mod, Z.land_spec.
    change (Z.testbit ModePerm 0) with true. now rewrite andb_true_r. }
  rewrite E. now destruct (Z.testbit p 0).
Qed.

(** For a file as package [os] reports it, only the bit for others counts. *)
Lemma canExecute_file u name m c :
  canExecute u (os.infoOf name (File m c)) = Done (Z.testbit (perm m) 0).
Proof.
  unfold canExecute. cbn [os.infoOf Mode Sys].
  rewrite land_other_bit. now destruct (Z.testbit (perm m) 0).
Qed.

Variables (w : World) (path : string) (u : user.User).
Hypothesis Hu : currentUser w = Some u.

Lemma walkEntries_collect es : forall acc,
  (forall name m' es', (name, Dir m' es') ∈ es -> name <> filepath.Base path) ->
  walkEntries (collectFunc path w) path es acc
  = Nil (acc ++ map (fun e => filepath.Join [path; fst e])
                  (filter (fun e => executableForOthers e = true) es)).
Proof.
  induction es as [|[name n] rest IH]; intros acc Hsub.
  - cbn. now rewrite app_nil_r.
  - assert (Hrest : forall name m' es',
              (name, Dir m' es') ∈ rest -> name <> filepath.Base path).
    { intros nm m' es' Hin. apply (Hsub nm m' es'). now right. }
    cbn [walkEntries]. rewrite walkDir_unfold. unfold collectFunc at 1.
    destruct n as [m c|m sub].
    + rewrite IsDir_File, andb_false_r, Hu, canExecute_file.
      rewrite filter_cons.
      destruct (Z.testbit (perm m) 0) eqn:Hbit.
      * rewrite decide_True by exact Hbit. rewrite (IH _ Hrest).
        cbn [map fst]. now rewrite <- app_assoc.
      * rewrite decide_False
          by (unfold executableForOthers; cbn [snd]; now rewrite Hbit).
        now rewrite (IH _ Hrest).
    + replace (Name (os.infoOf name (Dir m sub))) with name by reflexivity.
      assert (Hne : name <> filepath.Base path).
      { apply (Hsub name m sub). now left. }
      apply String.eqb_neq in Hne. rewrite Hne, IsDir_Dir. cbn [negb andb].
      rewrite filter_cons.
      rewrite decide_False by discriminate. now rewrite (IH _ Hrest).
Qed.

Lemma collectFunc_root p m es acc :
  collectFunc path w p (Some (os.infoOf (filepath.Base path) (Dir m es)))
    None acc
  = Nil acc.
Proof.
  unfold collectFunc.
  replace (Name (os.infoOf (filepath.Base path) (Dir m es)))
    with (filepath.Base path) by reflexivity.
  now rewrite String.eqb_refl, IsDir_Dir, Hu.
Qed.

End Collected.

(** X11. What the second walk collects from a search-path entry that is a
    directory without a subdirectory of its own name: the paths of the files
    directly in it that carry the execute bit for others, in the order of
    the directory listing, and nothing else.  Subdirectories are not
    entered, and files that only their owner or group may execute are left
    out. *)
Theorem found_in_directory w path u m es :
  os.lookup (fs w) path = inr (Dir m es) ->
  currentUser w = Some u ->
  (forall name m' es', (name, Dir m' es') ∈ es -> name <> filepath.Base path) ->
  found w path
  = map (fun e => filepath.Join [path; fst e])
      (filter (fun e => executableForOthers e = true) es).
Proof.
  intros Hlook Hu Hsub. unfold found, WalkDir. rewrite Hlook.
  rewrite walkDir_unfold, (collectFunc_root w path u Hu).
  now rewrite (walkEntries_collect w path u Hu es [] Hsub).
Qed.

Lemma found_in_directory_witness :
  found toolsWorld "/opt/tools" = ["/opt/tools/tool"].
Proof.
  refine (found_in_directory toolsWorld "/opt/tools"
            {| user.Uid := "1000"; user.Gid := "1000" |}
            {| perm := 493; owner := rootOwner |} toolsEntries _ _ _).
  - vm_compute; reflexivity.
  - reflexivity.
  - intros name m' es' Hin.
    repeat (apply elem_of_cons in Hin as [Hin|Hin];
            [inversion Hin; subst; discriminate|]).
    inversion Hin.
Defined.

(** ** The relay over a whole stream *)

Section Relay.




End Relay.



(** X13. The sentinel is looked for in one buffer at a time.  As long as no
    single read holds the whole sentinel the relay goes on reading and
    writes nothing to the session, also when the sentinel arrives split
    over two reads. *)
Theorem sentinel_split_over_reads_is_missed ep chunks st :
  Forall (fun c => Contains c sentinel = false) chunks ->
  fst (downstream ep (map ReadBytes chunks) st) = Reading
  /\ sessionStdin (snd (downstream ep (map ReadBytes chunks) st))
     = sessionStdin st.
Proof.
  revert st. induction chunks as [|c rest IH]; intros st Hall.
  - split; reflexivity.
  - inversion Hall as [|? ? Hc Hrest]; subst.
    cbn [map downstream]. rewrite Contains_data_sentinel, Hc.
    destruct (String.length c =? 0)%nat; [exact (IH st Hrest)|].
    destruct (Contains _ ep); [exact (IH st Hrest)|].
    exact (IH _ Hrest).
Qed.

Lemma sentinel_split_over_reads_is_missed_witness :
  Contains ("all shims written <<<Do" +:+ "ne>>>" +:+ nl) sentinel = true
  /\ fst (downstream (execProgram demoExe demoArgs)
            (map ReadBytes ["all shims written <<<Do"; "ne>>>" +:+ nl])
            emptyStreams) = Reading
  /\ sessionStdin
       (snd (downstream (execProgram demoExe demoArgs)
               (map ReadBytes ["all shims written <<<Do"; "ne>>>" +:+ nl])
               emptyStreams))
     = sessionStdin emptyStreams.
Proof.
  split; [vm_compute; reflexivity|].
  apply (sentinel_split_over_reads_is_missed (execProgram demoExe demoArgs)
           ["all shims written <<<Do"; "ne>>>" +:+ nl] emptyStreams).
  repeat constructor.
Defined.

(** ** The target directory after a run *)

Section Listing.

Lemma lookupEntry_elem n es x : lookupEntry n es = Some x -> (n, x) ∈ es.
Proof.
  induction es as [|[k v] rest IH]; [discriminate|]. cbn [lookupEntry].
  destruct (String.eqb_spec k n) as [->|_].
  - intros [= ->]. now left.
  - intros H. right. now apply IH.
Qed.

Lemma elem_fst_lookupEntry n es :
  n ∈ map fst es <-> lookupEntry n es <> None.
Proof.
  induction es as [|[k v] rest IH].
  - split; [intros H; inversion H|intros H; now destruct H].
  - cbn [map fst lookupEntry]. rewrite elem_of_cons, IH.
    destruct (String.eqb_spec k n) as [->|Hne]; split; auto; try discriminate.
    intros [E|H]; [congruence|exact H].
Qed.

Lemma existsb_marker es m c :
  (btbMarker, File m c) ∈ es -> existsb isMarkerFile es = true.
Proof.
  intros H. apply existsb_exists. exists (btbMarker, File m c).
  split; [now apply list_elem_of_In|reflexivity].
Qed.

Lemma shimOf_named args fm entries n :
  shimOf args fm entries n <> None
  <-> exists exe p, (exe, p) ∈ entries /\ n = fileNameOf args exe.
Proof.
  induction entries as [|[e q] rest IH]; cbn [shimOf].
  - split; [intros H; now destruct H|intros (exe & p & H & _); inversion H].
  - destruct (String.eqb_spec n (fileNameOf args e)) as [->|Hne].
    + split; [|discriminate]. intros _. exists e, q. split; [now left|reflexivity].
    + rewrite IH. split; intros (exe & p & Hin & ->).
      * exists exe, p. split; [now right|reflexivity].
      * apply elem_of_cons in Hin as [[= -> ->]|Hin]; [contradiction|].
        now exists exe, p.
Qed.

End Listing.

(** X14. In a run that ends normally, with a prefix free of path separators,
    the target directory ends up holding the marker file and one shim
    [{prefix}-{name}] for every name of the mapping, and nothing else; as it
    lists the marker, the filter of a later run turns it away from the
    search path. *)
Theorem target_directory_after_run args w exeMap w' :
  wfFS (fs w) ->
  hasByte "/" (Prefix args) = false ->
  rootCommandFunction args w = (Done exeMap, w') ->
  let binPath := filepath.Join [BinPath args; Prefix args] in
  passesFilter w' binPath = false
  /\ exists names,
       ReadDirNames (fs w') binPath = Some names /\
       forall n, n ∈ names <->
         n = btbMarker
         \/ exists exe exePath,
              exeMap !! exe = Some exePath /\ n = Prefix args +:+ "-" +:+ exe.
Proof.
  intros Hwf Hprefix Hrun binPath.
  apply run_phases in Hrun
    as (paths & w1 & mode & wc & w2 & _ & Hcheck & Hcreate & Hdisc & Hpop & ->).
  pose proof (checkExisting_wf _ _ _ Hcheck Hwf) as Hwf1.
  apply createDirectory_Done in Hcreate
    as (fc & loc & parentStat & -> & _ & -> & Hsd & _ & _ & Hwfc).
  specialize (Hwfc Hwf1).
  assert (Hplain : forall e p, exeMap !! e = Some p -> hasByte "/" e = false).
  { intros e p He.
    now destruct (discover_plain paths (withFS w1 fc) _ _ _ _ Hwfc Hdisc He). }
  destruct (populate_fresh args binPath (Mode parentStat) (map_to_list exeMap)
              (withFS w1 fc) loc _ _ Hsd Hprefix
              (map_to_list_plain _ Hplain) (NoDup_fst_map_to_list _))
    as (f' & es' & Hpop' & Hsd' & Hes).
  fold binPath in Hpop. rewrite Hpop' in Hpop. injection Hpop as <-.
  pose proof (shimDirAt_lookup _ _ _ _ _ Hsd') as Hlook.
  assert (Hmarker : lookupEntry btbMarker es'
                    = Some (File (createdMeta (fs w1) (Mode parentStat)) "")).
  { rewrite Hes, shimOf_None.
    - reflexivity.
    - intros Hin. apply list_elem_of_fmap in Hin as (e & E & _).
      symmetry in E. now apply fileNameOf_not_marker in E. }
  split.
  - unfold passesFilter, os.Stat. cbn [fs withFS withStdout].
    rewrite Hlook. rewrite WalkDir_marker_found; [reflexivity|].
    unfold hasMarkerFile. rewrite Hlook.
    eapply existsb_marker, lookupEntry_elem, Hmarker.
  - exists (map fst es'). split.
    { unfold ReadDirNames. cbn [fs withFS withStdout]. now rewrite Hlook. }
    intros n. rewrite elem_fst_lookupEntry, Hes. split.
    + intros Hn.
      destruct (shimOf args _ (map_to_list exeMap) n) eqn:Hshim.
      * right.
        destruct (proj1 (shimOf_named args
                           (createdMeta (fs (withFS w1 fc)) (Mode parentStat))
                           (map_to_list exeMap) n))
          as (exe & p & Hin & ->); [congruence|].
        exists exe, p. split; [now apply elem_of_map_to_list|].
        apply fileNameOf_eq.
      * left. cbn [lookupEntry] in Hn.
        destruct (String.eqb_spec btbMarker n); [congruence|contradiction].
    + intros [->|(exe & p & Hexe & ->)].
      * rewrite shimOf_None.
        -- discriminate.
        -- intros Hin. apply list_elem_of_fmap in Hin as (e & E & _).
           symmetry in E. now apply fileNameOf_not_marker in E.
      * rewrite <- fileNameOf_eq.
        rewrite (shimOf_Some args _ (map_to_list exeMap) exe p);
          [discriminate|apply NoDup_fst_map_to_list|].
        now apply elem_of_map_to_list.
Qed.

Lemma target_directory_after_run_witness :
  passesFilter scenarioEnd "/home/u/bin/myprefix" = false
  /\ exists names,
       ReadDirNames (fs scenarioEnd) "/home/u/bin/myprefix" = Some names /\
       forall n, n ∈ names <->
         n = btbMarker
         \/ exists exe exePath,
              scenarioMap !! exe = Some exePath /\ n = "myprefix" +:+ "-" +:+ exe.
Proof.
  apply (target_directory_after_run scenarioArgs scenarioWorld scenarioMap
           scenarioEnd).
  - cbv [wfFS scenarioWorld worldOf fs rootEntries scenarioTree dir exeFile
         wfEntries wfNode isName isElement].
    repeat split; (discriminate || reflexivity).
  - reflexivity.
  - vm_compute; reflexivity.
Defined.

(** ** What a run reads *)

Section Input.





End Input.


